(** * prof_tree.c: the parse tree of a profile and its merge iterator

    A shallow embedding of [src/util/profile/prof_tree.c].  The C code
    works on heap-allocated [struct profile_node] records linked by
    [first_child], [parent], [next] and [prev] pointers; the embedding
    keeps exactly that shape: a heap is a finite map from locations to
    node records, a pointer is an optional location ([None] is the null
    pointer), and every routine is a function on heaps.  Loops that
    follow [next] pointers take a fuel argument, since a corrupted
    (cyclic) chain makes the C loop forever. *)

From Stdlib Require Import ZArith Lia Bool.
From Stdlib Require Import Strings.String Strings.Ascii.
From Stdlib Require Import Structures.OrderedTypeEx Sorting.Sorted.
From stdpp Require Import base option list sorting gmap strings.

Local Open Scope Z_scope.

(** ** Error codes and flags *)

(** Modelled from the spec: [prof_err.h] (generated from the com_err table
    [prof]) is not among the sources.  The codes are the table's entries,
    [InvalidHandle] being [PROF_MAGIC_NODE] / [PROF_MAGIC_ITERATOR],
    [NotFound] being [PROF_NO_SECTION] / [PROF_NO_RELATION], [NotASection]
    being [PROF_ADD_NOT_SECTION] and [BadPathSpec] being
    [PROF_BAD_NAMESET].  Only their being non-zero and pairwise distinct
    matters below. *)
Definition PROF_MAGIC_NODE : Z := -1429577727.
Definition PROF_NO_SECTION : Z := -1429577726.
Definition PROF_NO_RELATION : Z := -1429577725.
Definition PROF_ADD_NOT_SECTION : Z := -1429577724.
Definition PROF_SECTION_WITH_VALUE : Z := -1429577723.
Definition PROF_BAD_LINK_LIST : Z := -1429577722.
Definition PROF_BAD_GROUP_LVL : Z := -1429577721.
Definition PROF_BAD_PARENT_PTR : Z := -1429577720.
Definition PROF_MAGIC_ITERATOR : Z := -1429577719.
Definition PROF_MAGIC_PROFILE : Z := -1429577710.
Definition PROF_BAD_NAMESET : Z := -1429577705.
Definition PROF_NO_PROFILE : Z := -1429577704.
Definition ENOMEM : Z := 12.

(** Modelled from the spec: the iterator flag bits of [prof_int.h] are not
    among the sources: list-all-of-section, sections-only, relations-only
    and the internal "a final section has been consumed" bit. *)
Definition PROFILE_ITER_LIST_SECTION : Z := 1.
Definition PROFILE_ITER_SECTIONS_ONLY : Z := 2.
Definition PROFILE_ITER_RELATIONS_ONLY : Z := 4.
Definition PROFILE_ITER_FINAL_SEEN : Z := 256.

(** ** Nodes and heaps *)

Abbreviation loc := positive (only parsing).
Abbreviation ptr := (option positive) (only parsing).

(** [int] arithmetic.  [group_level] is a C [int], 32 bits wide on the
    platforms the library is built for.  The sum [x->group_level + 1] is
    taken as the compiled code takes it, in two's complement: it wraps
    around at [INT_MAX] (the C standard leaves that case undefined). *)
Definition INT_MIN : Z := -2147483648.
Definition INT_MAX : Z := 2147483647.

Definition int_wrap (z : Z) : Z :=
  (z + 2147483648) mod 4294967296 - 2147483648.

(** [l + 1] for an [int] level [l]. *)
Definition succ_level (l : Z) : Z := int_wrap (l + 1).

Arguments succ_level : simpl never.

(** [struct profile_node].  [value] is [None] for a null [char *]; the
    one-bit field [final] is a boolean; [group_level] is a C [int]. *)
Record profile_node : Type := mk_node {
  magic : Z;
  name : string;
  value : option string;
  group_level : Z;
  final : bool;
  first_child : ptr;
  parent : ptr;
  next : ptr;
  prev : ptr
}.

Abbreviation heap := (gmap positive profile_node) (only parsing).

Definition set_magic (m : Z) (n : profile_node) : profile_node :=
  mk_node m (name n) (value n) (group_level n) (final n)
          (first_child n) (parent n) (next n) (prev n).
Definition set_final (b : bool) (n : profile_node) : profile_node :=
  mk_node (magic n) (name n) (value n) (group_level n) b
          (first_child n) (parent n) (next n) (prev n).
Definition set_first_child (q : ptr) (n : profile_node) : profile_node :=
  mk_node (magic n) (name n) (value n) (group_level n) (final n)
          q (parent n) (next n) (prev n).
Definition set_next (q : ptr) (n : profile_node) : profile_node :=
  mk_node (magic n) (name n) (value n) (group_level n) (final n)
          (first_child n) (parent n) q (prev n).
Definition set_prev (q : ptr) (n : profile_node) : profile_node :=
  mk_node (magic n) (name n) (value n) (group_level n) (final n)
          (first_child n) (parent n) (next n) q.
(** The four assignments [new->group_level = ...; new->parent = ...;
    new->prev = ...; new->next = ...] of [profile_add_node]. *)
Definition set_links (lvl : Z) (par prv nxt : ptr) (n : profile_node)
  : profile_node :=
  mk_node (magic n) (name n) (value n) lvl (final n)
          (first_child n) par nxt prv.

(** ** Outcomes

    [Done a]: the C function returns [a].  [Fault]: it dereferences a null
    or dangling pointer.  [OutOfFuel]: the loop bound was reached. *)
Inductive result (A : Type) : Type :=
| Done (a : A)
| Fault
| OutOfFuel.
Arguments Done {A} a.
Arguments Fault {A}.
Arguments OutOfFuel {A}.

Definition bind {A B : Type} (r : result A) (k : A -> result B) : result B :=
  match r with
  | Done a => k a
  | Fault => Fault
  | OutOfFuel => OutOfFuel
  end.

Notation "'let*' x ':=' r 'in' k" := (bind r (fun x => k))
  (at level 10, x name, r at level 100, k at level 200).

(** [*l] for reading and [l->field = ...] for writing. *)
Definition load (h : heap) (l : loc) : result profile_node :=
  match h !! l with
  | Some n => Done n
  | None => Fault
  end.

Definition store (h : heap) (l : loc) (f : profile_node -> profile_node)
  : result heap :=
  match h !! l with
  | Some n => Done (<[l := f n]> h)
  | None => Fault
  end.

(** [strcmp]: only the sign of the result is specified by C; bytes compare
    as unsigned characters, which is the order of [String.compare]. *)
Definition strcmp (s1 s2 : string) : Z :=
  match String.compare s1 s2 with
  | Eq => 0
  | Lt => -1
  | Gt => 1
  end.

(** The test [(name == 0) || (strcmp(p->name, name) == 0)] used by the
    scanners. *)
Definition name_matches (filter : option string) (n : profile_node) : bool :=
  match filter with
  | None => true
  | Some s => strcmp (name n) s =? 0
  end.

Definition has_value (n : profile_node) : bool :=
  match value n with Some _ => true | None => false end.

(** [for (; p; p = p->next) if (cond(p)) break;] -- the shape of every
    search loop in the file; the result is the value of [p] after it. *)
Fixpoint find_node (fuel : nat) (h : heap) (cond : profile_node -> bool)
    (p : ptr) : result ptr :=
  match p with
  | None => Done None
  | Some a =>
    match fuel with
    | O => OutOfFuel
    | S f =>
      let* n := load h a in
      if cond n then Done (Some a) else find_node f h cond (next n)
    end
  end.

(** ** profile_free_node

    [free(node)] removes the location from the heap.  The child loop of the
    C function reads [child->next] before it frees [child]. *)
Fixpoint profile_free_node (fuel : nat) (h : heap) (node : loc)
  : result heap :=
  match fuel with
  | O => OutOfFuel
  | S f =>
    let* n := load h node in
    if negb (magic n =? PROF_MAGIC_NODE) then Done h
    else
      let* h1 := free_children f h (first_child n) in
      let* _ := load h1 node in
      Done (delete node h1)
  end
with free_children (fuel : nat) (h : heap) (child : ptr) : result heap :=
  match fuel with
  | O => OutOfFuel
  | S f =>
    match child with
    | None => Done h
    | Some c =>
      let* cn := load h c in
      let* h1 := profile_free_node f h c in
      free_children f h1 (next cn)
    end
  end.

(** ** profile_verify_node *)
Fixpoint profile_verify_node (fuel : nat) (h : heap) (node : loc)
  : result Z :=
  match fuel with
  | O => OutOfFuel
  | S f =>
    let* n := load h node in
    if negb (magic n =? PROF_MAGIC_NODE) then Done PROF_MAGIC_NODE
    else if has_value n && bool_decide (first_child n <> None)
    then Done PROF_SECTION_WITH_VALUE
    else verify_children f h node n (first_child n) None
  end
with verify_children (fuel : nat) (h : heap) (node : loc) (n : profile_node)
    (p last : ptr) : result Z :=
  match fuel with
  | O => OutOfFuel
  | S f =>
    match p with
    | None => Done 0
    | Some a =>
      let* pn := load h a in
      if negb (bool_decide (prev pn = last)) then Done PROF_BAD_LINK_LIST
      else
        let* lastnext := match last with
                    | None => Done p
                    | Some b => let* ln := load h b in Done (next ln)
                    end in
        if negb (bool_decide (lastnext = p)) then Done PROF_BAD_LINK_LIST
        else if negb (succ_level (group_level n) =? group_level pn)
        then Done PROF_BAD_GROUP_LVL
        else if negb (bool_decide (parent pn = Some node))
        then Done PROF_BAD_PARENT_PTR
        else
          let* retval := profile_verify_node f h a in
          if negb (retval =? 0) then Done retval
          else verify_children f h node n (next pn) (Some a)
    end
  end.

(** ** profile_make_node_final, profile_is_node_final,
       profile_get_node_parent *)
Definition profile_make_node_final (h : heap) (node : loc)
  : result (Z * heap) :=
  let* n := load h node in
  if negb (magic n =? PROF_MAGIC_NODE) then Done (PROF_MAGIC_NODE, h)
  else Done (0, <[node := set_final true n]> h).

Definition profile_is_node_final (h : heap) (node : loc) : result bool :=
  let* n := load h node in
  Done (final n).

(** Returns the status and the value stored in [*parent]. *)
Definition profile_get_node_parent (h : heap) (section : loc)
  : result (Z * ptr) :=
  let* n := load h section in
  Done (0, parent n).

(** ** profile_find_node_relation, profile_find_node_subsection

    The result is the status, the new [*state], and the pair written to
    [*ret_name] and to the value (resp. subsection) out-parameter when a
    match was found. *)
Definition is_relation (nm : option string) (n : profile_node) : bool :=
  name_matches nm n && has_value n.

Definition is_subsection (nm : option string) (n : profile_node) : bool :=
  name_matches nm n && negb (has_value n).

(** The two loops of [profile_find_node_relation], from the start [p]. *)
Definition relation_scan (fuel : nat) (h : heap) (nm : option string)
    (p0 : ptr) : result (Z * ptr * option (string * option string)) :=
  let* p := find_node fuel h (is_relation nm) p0 in
  match p with
  | None => Done (PROF_NO_RELATION, None, None)
  | Some a =>
    let* n := load h a in
    let* p' := find_node fuel h (is_relation nm) (next n) in
    Done (0, p', Some (name n, value n))
  end.

Definition profile_find_node_relation (fuel : nat) (h : heap)
    (section : loc) (nm : option string) (state : ptr)
  : result (Z * ptr * option (string * option string)) :=
  let* sn := load h section in
  if negb (magic sn =? PROF_MAGIC_NODE) then Done (PROF_MAGIC_NODE, state, None)
  else
    match state with
    | Some a =>
      let* pn := load h a in
      if negb (magic pn =? PROF_MAGIC_NODE)
      then Done (PROF_MAGIC_NODE, state, None)
      else relation_scan fuel h nm state
    | None => relation_scan fuel h nm (first_child sn)
    end.

(** The two loops of [profile_find_node_subsection], from the start [p]. *)
Definition subsection_scan (fuel : nat) (h : heap) (nm : option string)
    (p0 : ptr) : result (Z * ptr * option (string * positive)) :=
  let* p := find_node fuel h (is_subsection nm) p0 in
  match p with
  | None => Done (PROF_NO_SECTION, None, None)
  | Some a =>
    let* n := load h a in
    let* p' := find_node fuel h (is_subsection nm) (next n) in
    Done (0, p', Some (name n, a))
  end.

Definition profile_find_node_subsection (fuel : nat) (h : heap)
    (section : loc) (nm : option string) (state : ptr)
  : result (Z * ptr * option (string * positive)) :=
  let* sn := load h section in
  if negb (magic sn =? PROF_MAGIC_NODE) then Done (PROF_MAGIC_NODE, state, None)
  else
    match state with
    | Some a =>
      let* pn := load h a in
      if negb (magic pn =? PROF_MAGIC_NODE)
      then Done (PROF_MAGIC_NODE, state, None)
      else subsection_scan fuel h nm state
    | None => subsection_scan fuel h nm (first_child sn)
    end.

(** ** profile_remove_node *)

(** The deletion loop [while (p && (strcmp(p->name, name) == 0))]. *)
Fixpoint remove_loop (fuel : nat) (h : heap) (section : loc) (nm : string)
    (section_flag : Z) (p : ptr) : result heap :=
  match p with
  | None => Done h
  | Some a =>
    match fuel with
    | O => OutOfFuel
    | S f =>
      let* n := load h a in
      if negb (strcmp (name n) nm =? 0) then Done h
      else if (negb (section_flag =? 0) && has_value n)
              || ((section_flag =? 0) && negb (has_value n))
      then remove_loop f h section nm section_flag (next n)
      else
        let* h1 := match prev n with
              | Some b => store h b (set_next (next n))
              | None => store h section (set_first_child (next n))
              end in
        let* h2 := match next n with
              | Some c => store h1 c (set_prev (prev n))
              | None => Done h1
              end in
        let* h3 := profile_free_node f h2 a in
        remove_loop f h3 section nm section_flag (next n)
    end
  end.

Definition profile_remove_node (fuel : nat) (h : heap) (section : loc)
    (nm : string) (section_flag : Z) : result (Z * heap) :=
  let* sn := load h section in
  let* p := find_node fuel h (fun n => (strcmp (name n) nm =? 0) && has_value n)
                 (first_child sn) in
  match p with
  | None => Done (PROF_NO_RELATION, h)
  | Some _ =>
    let* h' := remove_loop fuel h section nm section_flag p in
    Done (0, h')
  end.

Section Allocation.

(** [malloc] is an oracle: for the node it picks a location (or fails);
    for a string buffer only success or failure matters. *)
Variable malloc : heap -> option positive.
Variable malloc_bytes : nat -> bool.

(** ** profile_create_node

    The result is the status, the heap and the pointer stored in
    [*ret_node].  When a string allocation fails the C code calls
    [profile_free_node] on a node whose magic is still zero, which returns
    at once: the zeroed node stays allocated, unreachable. *)
Definition zero_node : profile_node :=
  mk_node 0 EmptyString None 0 false None None None None.

Definition profile_create_node (h : heap) (nm : string)
    (val : option string) : Z * heap * ptr :=
  match malloc h with
  | None => (ENOMEM, h, None)
  | Some new =>
    let h0 := <[new := zero_node]> h in
    if negb (malloc_bytes (String.length nm + 1)) then (ENOMEM, h0, None)
    else
      match val with
      | Some v =>
        if negb (malloc_bytes (String.length v + 1)) then (ENOMEM, h0, None)
        else
          (0, <[new := mk_node PROF_MAGIC_NODE nm (Some v) 0 false
                               None None None None]> h, Some new)
      | None =>
        (0, <[new := mk_node PROF_MAGIC_NODE nm None 0 false
                             None None None None]> h, Some new)
      end
  end.

(** ** profile_add_node *)

(** The loop that finds the insertion point; the result is [(p, last)]. *)
Fixpoint add_scan (fuel : nat) (h : heap) (nm : string) (p last : ptr)
  : result (ptr * ptr) :=
  match p with
  | None => Done (p, last)
  | Some a =>
    match fuel with
    | O => OutOfFuel
    | S f =>
      let* n := load h a in
      if strcmp (name n) nm >? 0 then Done (p, last)
      else add_scan f h nm (next n) (Some a)
    end
  end.

(** The pointer surgery that hooks [new] between [last] and [p]. *)
Definition link_node (h0 : heap) (section : loc) (lvl : Z) (new : loc)
    (p last : ptr) : result heap :=
  let* h1 := store h0 new (set_links lvl (Some section) last p) in
  let* h2 := match p with
             | Some a => store h1 a (set_prev (Some new))
             | None => Done h1
             end in
  match last with
  | Some b => store h2 b (set_next (Some new))
  | None => store h2 section (set_first_child (Some new))
  end.

Definition profile_add_node (fuel : nat) (h : heap) (section : loc)
    (nm : string) (val : option string) : result (Z * heap * ptr) :=
  let* sn := load h section in
  if negb (magic sn =? PROF_MAGIC_NODE) then Done (PROF_MAGIC_NODE, h, None)
  else if has_value sn then Done (PROF_ADD_NOT_SECTION, h, None)
  else
    let* pl := add_scan fuel h nm (first_child sn) None in
    let '(p, last) := pl in
    match profile_create_node h nm val with
    | (retval, h0, None) => Done (retval, h0, None)
    | (_, h0, Some new) =>
      let* h3 := link_node h0 section (succ_level (group_level sn)) new p
                           last in
      Done (0, h3, Some new)
    end.

End Allocation.

(** ** The merge iterator *)

(** [struct _prf_file_t], as far as this file reads it: the root of the
    parse tree and the serial number bumped by each reload.  The [next]
    pointer of a file is its successor in the list of files of the
    profile: a file pointer is an index in that list. *)
Record prf_file : Type := mk_file {
  root : ptr;
  upd_serial : Z
}.

Record world : Type := mk_world {
  nodes : heap;
  files : list prf_file
}.

(** [struct _profile_t]. *)
Record profile_rec : Type := mk_profile {
  profile_magic : Z;
  first_file : option nat
}.

(** [struct profile_iterator].  [names] is the null-terminated array of
    path components, as the list of its entries.  The counter [num] is
    kept without the bound of its C type [int], which a traversal meets
    only after 2^31 searches. *)
Record profile_iterator : Type := mk_iter {
  iter_magic : Z;
  profile : profile_rec;
  flags : Z;
  names : list string;
  iter_name : option string;
  file : option nat;
  file_serial : Z;
  done_idx : nat;
  node : ptr;
  num : Z
}.

Definition set_flags (fl : Z) (it : profile_iterator) : profile_iterator :=
  mk_iter (iter_magic it) (profile it) fl (names it) (iter_name it)
          (file it) (file_serial it) (done_idx it) (node it) (num it).
Definition set_iter_name (nm : option string) (it : profile_iterator)
  : profile_iterator :=
  mk_iter (iter_magic it) (profile it) (flags it) (names it) nm
          (file it) (file_serial it) (done_idx it) (node it) (num it).
Definition set_file (fp : option nat) (it : profile_iterator)
  : profile_iterator :=
  mk_iter (iter_magic it) (profile it) (flags it) (names it) (iter_name it)
          fp (file_serial it) (done_idx it) (node it) (num it).
Definition set_file_serial (z : Z) (it : profile_iterator)
  : profile_iterator :=
  mk_iter (iter_magic it) (profile it) (flags it) (names it) (iter_name it)
          (file it) z (done_idx it) (node it) (num it).
Definition set_node (p : ptr) (it : profile_iterator) : profile_iterator :=
  mk_iter (iter_magic it) (profile it) (flags it) (names it) (iter_name it)
          (file it) (file_serial it) (done_idx it) p (num it).
Definition set_num (z : Z) (it : profile_iterator) : profile_iterator :=
  mk_iter (iter_magic it) (profile it) (flags it) (names it) (iter_name it)
          (file it) (file_serial it) (done_idx it) (node it) z.

Definition test_flag (fl bit : Z) : bool := negb (Z.land fl bit =? 0).

(** [*fp] and [fp->next] for a file pointer. *)
Definition load_file (w : world) (fp : option nat) : result prf_file :=
  match fp with
  | None => Fault
  | Some i =>
    match files w !! i with
    | Some f => Done f
    | None => Fault
    end
  end.

Definition file_next (w : world) (fp : option nat) : result (option nat) :=
  match fp with
  | None => Fault
  | Some i =>
    match files w !! i with
    | Some _ =>
      Done (match files w !! S i with Some _ => Some (S i) | None => None end)
    | None => Fault
    end
  end.

(** ** profile_node_iterator_create

    [malloc_iter] tells whether the allocation of the iterator succeeds.
    The result is the status and the handle stored in [*ret_iter] (none
    when the call fails).  [iter->name] and [iter->file_serial] are left
    uninitialised by the C code; both are written before they are first
    read. *)
Definition alloc_iterator (malloc_iter : bool) (pr : profile_rec) (fl : Z)
    (l : list string) (done : nat) : Z * option profile_iterator :=
  if negb malloc_iter then (ENOMEM, None)
  else (0, Some (mk_iter PROF_MAGIC_ITERATOR pr fl l None
                         (first_file pr) 0 done None 0)).

Definition profile_node_iterator_create (malloc_iter : bool)
    (prof : option profile_rec) (nms : option (list string)) (fl : Z)
  : Z * option profile_iterator :=
  match prof with
  | None => (PROF_NO_PROFILE, None)
  | Some pr =>
    if negb (profile_magic pr =? PROF_MAGIC_PROFILE)
    then (PROF_MAGIC_PROFILE, None)
    else
      match nms with
      | None => (PROF_BAD_NAMESET, None)
      | Some l =>
        if negb (test_flag fl PROFILE_ITER_LIST_SECTION)
        then
          match l with
          | [] => (PROF_BAD_NAMESET, None)
          | _ :: _ => alloc_iterator malloc_iter pr fl l 1
          end
        else alloc_iterator malloc_iter pr fl l 0
      end
  end.

(** ** profile_node_iterator_free

    The argument and the result are the caller's handle [*iter_p]. *)
Definition profile_node_iterator_free (hd : option profile_iterator)
  : option profile_iterator :=
  match hd with
  | None => None
  | Some it =>
    if negb (iter_magic it =? PROF_MAGIC_ITERATOR) then hd else None
  end.

(** ** profile_node_iterator *)

(** What one call returns: the status, the caller's handle [*iter_p]
    afterwards, the triple stored in [*ret_node], [*ret_name] and
    [*ret_value] when the call stores them, and the files and trees,
    which [profile_update_file] may have reloaded. *)
Record iter_result : Type := mk_result {
  retval : Z;
  handle : option profile_iterator;
  outs : option (ptr * option string * option string);
  world_after : world
}.

(** The path walk [for (cpp = iter->names; cpp[iter->done_idx]; cpp++)]:
    [cpp] is the rest of the array.  The result is the section found (or
    null), the flags, and [cpp] after the loop. *)
Fixpoint resolve_path (fuel : nat) (h : heap) (didx : nat)
    (cpp : list string) (section : ptr) (fl : Z)
  : result (ptr * Z * list string) :=
  match cpp !! didx with
  | None =>
    if (length cpp <? didx)%nat then Fault else Done (section, fl, cpp)
  | Some _ =>
    match cpp, section with
    | [], _ => Fault
    | _ :: _, None => Fault
    | nm :: cpp', Some s =>
      let* sn := load h s in
      let* p := find_node fuel h
                  (fun n => (strcmp (name n) nm =? 0) && negb (has_value n))
                  (first_child sn) in
      match p with
      | None => Done (None, fl, cpp)
      | Some a =>
        let* pn := load h a in
        resolve_path fuel h didx cpp' p
          (if final pn then Z.lor fl PROFILE_ITER_FINAL_SEEN else fl)
      end
    end
  end.

(** The search loop [for (p = iter->node; p; p = p->next)]. *)
Fixpoint scan_loop (fuel : nat) (h : heap) (nm : option string) (fl : Z)
    (p : ptr) (skip_num : Z) : result ptr :=
  match p with
  | None => Done None
  | Some a =>
    match fuel with
    | O => OutOfFuel
    | S f =>
      let* n := load h a in
      if negb (name_matches nm n) then scan_loop f h nm fl (next n) skip_num
      else if test_flag fl PROFILE_ITER_SECTIONS_ONLY && has_value n
      then scan_loop f h nm fl (next n) skip_num
      else if test_flag fl PROFILE_ITER_RELATIONS_ONLY && negb (has_value n)
      then scan_loop f h nm fl (next n) skip_num
      else if skip_num >? 0 then scan_loop f h nm fl (next n) (skip_num - 1)
      else Done (Some a)
    end
  end.

(** Control reaches the label [get_new_file] (the head of the [while]
    loop) again, or the function returns. *)
Inductive jump : Type :=
| Again (w : world) (it : profile_iterator) (skip_num : Z)
| Return (r : iter_result).

Section Iterator.

(** [profile_update_file] belongs to [prof_file.c]: it may reload the file
    (a new tree and a new serial number) and may fail. *)
Variable profile_update_file : world -> option nat -> Z * world.

(** One pass from the label [get_new_file]: the body of
    [while (iter->node == 0)] when the node is null, else the search
    and what follows it. *)
Definition get_new_file_pass (fuel : nat) (w : world) (it : profile_iterator)
    (skip_num : Z) : result jump :=
  match node it with
  | None =>
    if bool_decide (file it = None) || test_flag (flags it) PROFILE_ITER_FINAL_SEEN
    then
      Done (Return (mk_result 0 (profile_node_iterator_free (Some it))
                              (Some (None, None, None)) w))
    else
      let '(rv, w1) := profile_update_file w (file it) in
      if negb (rv =? 0)
      then Done (Return (mk_result rv (profile_node_iterator_free (Some it))
                                   None w1))
      else
        let* f := load_file w1 (file it) in
        let it1 := set_file_serial (upd_serial f) it in
        let* res := resolve_path fuel (nodes w1) (done_idx it1) (names it1)
                                 (root f) (flags it1) in
        let '(section, fl, cpp) := res in
        let it2 := set_flags fl it1 in
        match section with
        | None =>
          let* fp := file_next w1 (file it2) in
          Done (Again w1 (set_file fp it2) 0)
        | Some s =>
          let* sn := load (nodes w1) s in
          Done (Again w1 (set_node (first_child sn)
                                   (set_iter_name (head cpp) it2))
                      skip_num)
        end
  | Some _ =>
    let* p := scan_loop fuel (nodes w) (iter_name it) (flags it) (node it)
                        skip_num in
    let it1 := set_num (num it + 1) it in
    match p with
    | None =>
      let* fp := file_next w (file it1) in
      Done (Again w (set_node None (set_file fp it1)) 0)
    | Some a =>
      let* n := load (nodes w) a in
      let it2 := set_node (next n) it1 in
      let* it3 := match next n with
                  | None =>
                    let* fp := file_next w (file it2) in Done (set_file fp it2)
                  | Some _ => Done it2
                  end in
      Done (Return (mk_result 0 (Some it3)
                              (Some (Some a, Some (name n), value n)) w))
    end
  end.

(** The loop around the label: [fuel] bounds the number of passes,
    [inner] the length of the sibling lists walked within a pass. *)
Fixpoint get_new_file (fuel inner : nat) (w : world) (it : profile_iterator)
    (skip_num : Z) : result iter_result :=
  match fuel with
  | O => OutOfFuel
  | S f =>
    let* j := get_new_file_pass inner w it skip_num in
    match j with
    | Again w' it' skip' => get_new_file f inner w' it' skip'
    | Return r => Done r
    end
  end.

Definition profile_node_iterator (fuel : nat) (w : world)
    (hd : option profile_iterator) : result iter_result :=
  match hd with
  | None => Done (mk_result PROF_MAGIC_ITERATOR hd None w)
  | Some it =>
    if negb (iter_magic it =? PROF_MAGIC_ITERATOR)
    then Done (mk_result PROF_MAGIC_ITERATOR hd None w)
    else
      match node it with
      | Some _ =>
        let* f := load_file w (file it) in
        if negb (upd_serial f =? file_serial it)
        then get_new_file fuel fuel w
               (set_node None
                  (set_flags (Z.land (flags it)
                                     (Z.lnot PROFILE_ITER_FINAL_SEEN)) it))
               (num it)
        else get_new_file fuel fuel w it 0
      | None => get_new_file fuel fuel w it 0
      end
  end.

End Iterator.

(** * Well-formed trees

    The C structure is a first-child / next-sibling tree.  A [shape] names
    the locations of such a tree; [repr h par lvl prv p s] says that in
    heap [h] the pointer [p] heads a sibling list of shape [s] whose nodes
    are live, have parent [par], level [lvl] and consistent [prev] links
    (the first one having [prev = prv]), and whose subtrees are again
    well formed: the representation invariants of [profile_verify_node]. *)

(** What a node says, as opposed to how it is linked. *)
Record item : Type := mk_item {
  item_name : string;
  item_value : option string;
  item_final : bool
}.

Definition item_of (n : profile_node) : item :=
  mk_item (name n) (value n) (final n).

Inductive shape : Type :=
| Leaf
| Nd (x : positive) (d : item) (kids : shape) (sibs : shape).

Fixpoint locs (s : shape) : list positive :=
  match s with
  | Leaf => []
  | Nd x _ c sb => x :: locs c ++ locs sb
  end.

Fixpoint weight (s : shape) : nat :=
  match s with
  | Leaf => 1
  | Nd _ _ c sb => 2 + weight c + weight sb
  end.

Definition node_ok (par : ptr) (lvl : Z) (prv : ptr) (n : profile_node)
  : Prop :=
  magic n = PROF_MAGIC_NODE /\ parent n = par /\ group_level n = lvl /\
  prev n = prv /\ (has_value n = true -> first_child n = None).

Fixpoint repr (h : heap) (par : ptr) (lvl : Z) (prv p : ptr) (s : shape)
  : Prop :=
  match s with
  | Leaf => p = None
  | Nd x d c sb =>
    p = Some x /\
    exists n, h !! x = Some n /\ node_ok par lvl prv n /\ item_of n = d /\
      repr h (Some x) (succ_level lvl) None (first_child n) c /\
      repr h par lvl (Some x) (next n) sb
  end.

(** A tree hanging from [root]: the root is live, holds a value or
    children but not both, its children form a well-formed sibling list
    one level down, and no location occurs twice. *)
Definition tree (h : heap) (root : positive) (c : shape) : Prop :=
  exists n, h !! root = Some n /\ magic n = PROF_MAGIC_NODE /\
    (has_value n = true -> first_child n = None) /\
    repr h (Some root) (succ_level (group_level n)) None (first_child n) c /\
    NoDup (root :: locs c).

(** ** Basic facts *)

Lemma load_Some (h : heap) l n : h !! l = Some n -> load h l = Done n.
Proof. intros H. unfold load. by rewrite H. Qed.

Lemma store_Some (h : heap) l f n :
  h !! l = Some n -> store h l f = Done (<[l := f n]> h).
Proof. intros H. unfold store. by rewrite H. Qed.

Lemma magic_test_ok n : magic n = PROF_MAGIC_NODE ->
  negb (magic n =? PROF_MAGIC_NODE) = false.
Proof. intros ->. reflexivity. Qed.

Lemma magic_test_bad n : magic n <> PROF_MAGIC_NODE ->
  negb (magic n =? PROF_MAGIC_NODE) = true.
Proof. intros H. apply negb_true_iff, Z.eqb_neq, H. Qed.

Lemma repr_frame (h h' : heap) s : forall par lvl prv p,
  repr h par lvl prv p s ->
  (forall x, x ∈ locs s -> h' !! x = h !! x) ->
  repr h' par lvl prv p s.
Proof.
  induction s as [|x d c IHc sb IHsb]; intros par lvl prv p H Hf; simpl in *.
  - done.
  - destruct H as (-> & n & Hx & Hok & Hd & Hc & Hsb).
    split; [done|]. exists n. split.
    { rewrite Hf; [done|]. set_solver. }
    split; [done|]. split; [done|]. split.
    + apply IHc; [done|]. intros y Hy. apply Hf. set_solver.
    + apply IHsb; [done|]. intros y Hy. apply Hf. set_solver.
Qed.

Lemma repr_lookup (h : heap) s : forall par lvl prv p x,
  repr h par lvl prv p s -> x ∈ locs s ->
  exists n, h !! x = Some n /\ magic n = PROF_MAGIC_NODE.
Proof.
  induction s as [|y d c IHc sb IHsb]; intros par lvl prv p x H Hx; simpl in *.
  - by apply elem_of_nil in Hx.
  - destruct H as (-> & n & Hy & Hok & Hd & Hc & Hsb).
    apply elem_of_cons in Hx as [->|Hx].
    + exists n. split; [done|]. apply Hok.
    + apply elem_of_app in Hx as [Hx|Hx]; eauto.
Qed.

Lemma weight_locs s : weight s = (3 * length (locs s) + 1)%nat.
Proof.
  induction s as [|x d c IHc sb IHsb]; simpl; [done|].
  rewrite length_app. lia.
Qed.

(** ** profile_verify_node accepts well-formed trees *)

Lemma profile_verify_node_S f (h : heap) nd :
  profile_verify_node (S f) h nd =
  let* n := load h nd in
  if negb (magic n =? PROF_MAGIC_NODE) then Done PROF_MAGIC_NODE
  else if has_value n && bool_decide (first_child n <> None)
  then Done PROF_SECTION_WITH_VALUE
  else verify_children f h nd n (first_child n) None.
Proof. reflexivity. Qed.

Lemma verify_children_None f (h : heap) nd n last :
  verify_children (S f) h nd n None last = Done 0.
Proof. reflexivity. Qed.

Lemma verify_children_Some f (h : heap) nd n a last :
  verify_children (S f) h nd n (Some a) last =
  let* pn := load h a in
  if negb (bool_decide (prev pn = last)) then Done PROF_BAD_LINK_LIST
  else
    let* lastnext := match last with
                     | None => Done (Some a)
                     | Some b => let* ln := load h b in Done (next ln)
                     end in
    if negb (bool_decide (lastnext = Some a)) then Done PROF_BAD_LINK_LIST
    else if negb (succ_level (group_level n) =? group_level pn)
    then Done PROF_BAD_GROUP_LVL
    else if negb (bool_decide (parent pn = Some nd))
    then Done PROF_BAD_PARENT_PTR
    else
      let* retval := profile_verify_node f h a in
      if negb (retval =? 0) then Done retval
      else verify_children f h nd n (next pn) (Some a).
Proof. reflexivity. Qed.

Lemma exclusive_test n :
  (has_value n = true -> first_child n = None) ->
  has_value n && bool_decide (first_child n <> None) = false.
Proof.
  intros Hval. destruct (has_value n) eqn:E; [|done]. simpl.
  apply bool_decide_eq_false_2. rewrite (Hval eq_refl). tauto.
Qed.

Lemma verify_children_ok s : forall (h : heap) nd n p last fuel,
  repr h (Some nd) (succ_level (group_level n)) last p s ->
  match last with
  | None => True
  | Some b => exists bn, h !! b = Some bn /\ next bn = p
  end ->
  (weight s <= fuel)%nat ->
  verify_children fuel h nd n p last = Done 0.
Proof.
  induction s as [|x d c IHc sb IHsb]; intros h nd n p last fuel H Hl Hf;
    simpl in H, Hf.
  - subst p. destruct fuel; [lia|]. reflexivity.
  - destruct H as (-> & nx & Hx & (Hm & Hpar & Hlvl & Hprev & Hval) & Hd & Hc & Hsb).
    destruct fuel as [|f]; [lia|].
    rewrite verify_children_Some, (load_Some _ _ _ Hx). cbn [bind].
    rewrite (bool_decide_eq_true_2 _ Hprev). cbn [negb].
    assert (Hln : match last with
                  | None => Done (Some x)
                  | Some b => let* ln := load h b in Done (next ln)
                  end = Done (Some x)).
    { destruct last as [b|]; [|done].
      destruct Hl as (bn & Hb & Hbn). rewrite (load_Some _ _ _ Hb).
      cbn [bind]. by rewrite Hbn. }
    rewrite Hln. cbn [bind].
    rewrite bool_decide_eq_true_2 by done. cbn [negb].
    rewrite Hlvl, Z.eqb_refl. cbn [negb].
    rewrite (bool_decide_eq_true_2 _ Hpar). cbn [negb].
    destruct f as [|f']; [lia|].
    rewrite profile_verify_node_S, (load_Some _ _ _ Hx). cbn [bind].
    rewrite (magic_test_ok _ Hm), (exclusive_test _ Hval).
    rewrite (IHc h x nx (first_child nx) None f'); [|by rewrite Hlvl|done|lia].
    cbn [bind]. change (negb (0 =? 0)) with false. cbv iota.
    apply (IHsb h nd n (next nx) (Some x)); [done| |lia].
    exists nx. done.
Qed.

Lemma verify_tree_ok (h : heap) root c fuel :
  tree h root c -> (weight c < fuel)%nat ->
  profile_verify_node fuel h root = Done 0.
Proof.
  intros (n & Hr & Hm & Hval & Hc & _) Hf.
  destruct fuel as [|f]; [lia|].
  rewrite profile_verify_node_S, (load_Some _ _ _ Hr). cbn [bind].
  rewrite (magic_test_ok _ Hm), (exclusive_test _ Hval).
  apply (verify_children_ok c); [done|done|lia].
Qed.

(** ** profile_free_node releases exactly a subtree *)

Lemma profile_free_node_S f (h : heap) nd :
  profile_free_node (S f) h nd =
  let* n := load h nd in
  if negb (magic n =? PROF_MAGIC_NODE) then Done h
  else
    let* h1 := free_children f h (first_child n) in
    let* _ := load h1 nd in
    Done (delete nd h1).
Proof. reflexivity. Qed.

Lemma free_children_None f (h : heap) : free_children (S f) h None = Done h.
Proof. reflexivity. Qed.

Lemma free_children_Some f (h : heap) c :
  free_children (S f) h (Some c) =
  let* cn := load h c in
  let* h1 := profile_free_node f h c in
  free_children f h1 (next cn).
Proof. reflexivity. Qed.

Lemma free_children_spec s : forall (h : heap) par lvl prv p fuel,
  repr h par lvl prv p s -> NoDup (locs s) -> (weight s <= fuel)%nat ->
  exists h' : heap, free_children fuel h p = Done h' /\
    (forall y, y ∈ locs s -> h' !! y = None) /\
    (forall y, y ∉ locs s -> h' !! y = h !! y).
Proof.
  induction s as [|x d c IHc sb IHsb]; intros h par lvl prv p fuel H Hnd Hf;
    simpl in H, Hf, Hnd.
  - subst p. destruct fuel; [lia|]. exists h. rewrite free_children_None.
    split; [done|]. split; [|done]. intros y Hy. by apply elem_of_nil in Hy.
  - destruct H as (-> & nx & Hx & Hok & Hd & Hc & Hsb).
    apply NoDup_cons in Hnd as [Hxn Hnd].
    apply NoDup_app in Hnd as (Hndc & Hdisj & Hndsb).
    destruct fuel as [|f]; [lia|].
    rewrite free_children_Some, (load_Some _ _ _ Hx). cbn [bind].
    destruct f as [|f']; [lia|].
    rewrite profile_free_node_S, (load_Some _ _ _ Hx). cbn [bind].
    rewrite (magic_test_ok nx) by apply Hok.
    destruct (IHc h (Some x) (succ_level lvl) None (first_child nx) f' Hc Hndc)
      as (h1 & E1 & Hin1 & Hout1); [lia|].
    rewrite E1. cbn [bind].
    assert (Hx1 : h1 !! x = Some nx).
    { rewrite Hout1; [done|]. set_solver. }
    rewrite (load_Some _ _ _ Hx1). cbn [bind].
    destruct (IHsb (delete x h1) par lvl (Some x) (next nx) (S f'))
      as (h2 & E2 & Hin2 & Hout2); [|done|lia|].
    { apply (repr_frame h); [done|]. intros y Hy.
      rewrite lookup_delete_ne by set_solver. apply Hout1.
      intros Hyc. by apply (Hdisj y). }
    exists h2. split; [done|]. split.
    + intros y Hy. apply elem_of_cons in Hy as [->|Hy].
      * rewrite Hout2 by set_solver. apply lookup_delete_eq.
      * apply elem_of_app in Hy as [Hy|Hy]; [|by apply Hin2].
        rewrite Hout2 by (intros Hysb; by apply (Hdisj y)).
        rewrite lookup_delete_ne by set_solver. by apply Hin1.
    + intros y Hy. rewrite Hout2 by set_solver.
      rewrite lookup_delete_ne by set_solver. apply Hout1. set_solver.
Qed.

Lemma profile_free_node_spec (h : heap) x nx lvl c fuel :
  h !! x = Some nx -> magic nx = PROF_MAGIC_NODE ->
  repr h (Some x) lvl None (first_child nx) c ->
  NoDup (x :: locs c) -> (weight c < fuel)%nat ->
  exists h' : heap, profile_free_node fuel h x = Done h' /\
    (forall y, y ∈ x :: locs c -> h' !! y = None) /\
    (forall y, y ∉ x :: locs c -> h' !! y = h !! y).
Proof.
  intros Hx Hm Hc Hnd Hf. apply NoDup_cons in Hnd as [Hxn Hnd].
  destruct fuel as [|f]; [lia|].
  rewrite profile_free_node_S, (load_Some _ _ _ Hx). cbn [bind].
  rewrite (magic_test_ok _ Hm).
  destruct (free_children_spec c h (Some x) lvl None (first_child nx) f
              Hc Hnd) as (h1 & E1 & Hin1 & Hout1); [lia|].
  rewrite E1. cbn [bind].
  assert (Hx1 : h1 !! x = Some nx) by (by rewrite Hout1).
  rewrite (load_Some _ _ _ Hx1). cbn [bind].
  exists (delete x h1). split; [done|]. split.
  - intros y Hy. apply elem_of_cons in Hy as [->|Hy].
    + apply lookup_delete_eq.
    + destruct (decide (y = x)) as [->|Hne]; [apply lookup_delete_eq|].
      rewrite lookup_delete_ne by done. by apply Hin1.
  - intros y Hy. rewrite lookup_delete_ne by set_solver.
    apply Hout1. set_solver.
Qed.

(** ** Sibling-list surgery

    The cell that points to the head of a sibling list is the [next]
    field of the previous sibling, or the [first_child] field of the
    section when there is none. *)

Definition link_loc (sec : positive) (prv : ptr) : positive :=
  match prv with Some y => y | None => sec end.

Definition link_of (prv : ptr) (n : profile_node) : ptr :=
  match prv with Some _ => next n | None => first_child n end.

Definition relink (prv q : ptr) (n : profile_node) : profile_node :=
  match prv with Some _ => set_next q n | None => set_first_child q n end.

Definition link_is (h : heap) (sec : positive) (prv p : ptr) : Prop :=
  exists ln, h !! link_loc sec prv = Some ln /\ link_of prv ln = p.

Lemma relink_id prv p n : link_of prv n = p -> relink prv p n = n.
Proof. destruct n, prv; simpl; intros <-; reflexivity. Qed.

Lemma relink_relink prv p q n : relink prv q (relink prv p n) = relink prv q n.
Proof. destruct n, prv; reflexivity. Qed.

Lemma link_of_relink prv q n : link_of prv (relink prv q n) = q.
Proof. destruct n, prv; reflexivity. Qed.

Lemma node_ok_set_next par lvl prv q n :
  node_ok par lvl prv n -> node_ok par lvl prv (set_next q n).
Proof. destruct n; unfold node_ok; simpl; tauto. Qed.

Lemma node_ok_set_prev par lvl prv prv' n :
  node_ok par lvl prv n -> node_ok par lvl prv' (set_prev prv' n).
Proof. destruct n; unfold node_ok; simpl; tauto. Qed.

(** Changing the [prev] field of the head of a list re-roots it. *)
Lemma repr_set_prev (h h' : heap) par lvl prv prv' p s :
  repr h par lvl prv p s -> NoDup (locs s) ->
  (forall y, y ∈ locs s -> Some y <> p -> h' !! y = h !! y) ->
  (forall z n, p = Some z -> h !! z = Some n ->
               h' !! z = Some (set_prev prv' n)) ->
  repr h' par lvl prv' p s.
Proof.
  destruct s as [|x d c sb]; simpl; [done|].
  intros (-> & n & Hx & Hok & Hd & Hc & Hsb) Hnd Hsame Hhead.
  apply NoDup_cons in Hnd as [Hxn Hnd].
  split; [done|]. exists (set_prev prv' n).
  split; [by apply Hhead|]. split; [by eapply node_ok_set_prev|].
  split; [by destruct n|]. split.
  - apply (repr_frame h); [by destruct n|]. intros y Hy.
    apply Hsame; [set_solver|]. intros [= ->]. set_solver.
  - apply (repr_frame h); [by destruct n|]. intros y Hy.
    apply Hsame; [set_solver|]. intros [= ->]. set_solver.
Qed.

(** A node whose [next] field was redirected to a new tail. *)
Lemma repr_cons_context (h h' : heap) par lvl prv x n d c sb' q :
  h !! x = Some n -> node_ok par lvl prv n -> item_of n = d ->
  repr h (Some x) (succ_level lvl) None (first_child n) c ->
  x ∉ locs c ->
  h' !! x = Some (set_next q n) ->
  (forall y, y ∈ locs c -> h' !! y = h !! y) ->
  repr h' par lvl (Some x) q sb' ->
  repr h' par lvl prv (Some x) (Nd x d c sb').
Proof.
  intros Hx Hok Hd Hc Hxc Hx' Hsame Hsb. simpl. split; [done|].
  exists (set_next q n). split; [done|].
  split; [by apply node_ok_set_next|]. split; [by destruct n|].
  split; [|by destruct n].
  apply (repr_frame h); [by destruct n|done].
Qed.

(** ** profile_remove_node on a well-formed sibling list *)

Definition item_has_value (d : item) : bool :=
  match item_value d with Some _ => true | None => false end.

(** What the deletion loop leaves of a sibling list: it stops at the
    first name that differs and keeps the entries of the other kind. *)
Fixpoint remove_run (nm : string) (section_flag : Z) (s : shape) : shape :=
  match s with
  | Leaf => Leaf
  | Nd x d c sb =>
    if negb (strcmp (item_name d) nm =? 0) then s
    else if (negb (section_flag =? 0) && item_has_value d)
            || ((section_flag =? 0) && negb (item_has_value d))
    then Nd x d c (remove_run nm section_flag sb)
    else remove_run nm section_flag sb
  end.

Lemma remove_run_locs nm flag s y :
  y ∈ locs (remove_run nm flag s) -> y ∈ locs s.
Proof.
  induction s as [|x d c IHc sb IHsb]; simpl; [done|].
  destruct (negb _); [done|]. destruct (_ || _); simpl; set_solver.
Qed.

Lemma remove_run_NoDup nm flag s :
  NoDup (locs s) -> NoDup (locs (remove_run nm flag s)).
Proof.
  induction s as [|x d c IHc sb IHsb]; simpl; [done|]. intros Hnd.
  destruct (negb _); [done|].
  apply NoDup_cons in Hnd as [Hxn Hnd].
  apply NoDup_app in Hnd as (Hndc & Hdisj & Hndsb).
  destruct (_ || _); simpl; [|by apply IHsb].
  apply NoDup_cons. split.
  - intros Hx. apply elem_of_app in Hx as [Hx|Hx]; [set_solver|].
    apply remove_run_locs in Hx. set_solver.
  - apply NoDup_app. split; [done|]. split; [|by apply IHsb].
    intros y Hy Hy'. apply remove_run_locs in Hy'. by apply (Hdisj y).
Qed.

Lemma remove_loop_None fuel (h : heap) sec nm flag :
  remove_loop fuel h sec nm flag None = Done h.
Proof. by destruct fuel. Qed.

Lemma remove_loop_Some f (h : heap) sec nm flag a :
  remove_loop (S f) h sec nm flag (Some a) =
  let* n := load h a in
  if negb (strcmp (name n) nm =? 0) then Done h
  else if (negb (flag =? 0) && has_value n)
          || ((flag =? 0) && negb (has_value n))
  then remove_loop f h sec nm flag (next n)
  else
    let* h1 := match prev n with
               | Some b => store h b (set_next (next n))
               | None => store h sec (set_first_child (next n))
               end in
    let* h2 := match next n with
               | Some c => store h1 c (set_prev (prev n))
               | None => Done h1
               end in
    let* h3 := profile_free_node f h2 a in
    remove_loop f h3 sec nm flag (next n).
Proof. reflexivity. Qed.

Lemma remove_loop_spec s : forall (h : heap) sec par lvl prv p fuel nm flag,
  repr h par lvl prv p s -> NoDup (locs s) ->
  link_is h sec prv p -> link_loc sec prv ∉ locs s ->
  (weight s <= fuel)%nat ->
  exists (h' : heap) q, remove_loop fuel h sec nm flag p = Done h' /\
    repr h' par lvl prv q (remove_run nm flag s) /\
    h' !! link_loc sec prv = relink prv q <$> h !! link_loc sec prv /\
    (forall y, y ∉ locs s -> y <> link_loc sec prv -> h' !! y = h !! y) /\
    (forall y, y ∈ locs s -> y ∉ locs (remove_run nm flag s) ->
               h' !! y = None).
Proof.
  induction s as [|x d c IHc sb IHsb];
    intros h sec par lvl prv p fuel nm flag H Hnd Hlink Hll Hf;
    simpl in H, Hf, Hnd.
  - subst p. exists h, None. rewrite remove_loop_None.
    split; [done|]. split; [done|]. split.
    { destruct Hlink as (ln & Hln & Hl). rewrite Hln. simpl.
      by rewrite (relink_id _ _ _ Hl). }
    split; [done|]. intros y Hy. by apply elem_of_nil in Hy.
  - destruct H as (-> & nx & Hx & Hok & Hd & Hc & Hsb).
    pose proof Hok as (Hm & Hpar & Hlvl & Hprev & Hval).
    apply NoDup_cons in Hnd as [Hxn Hnd].
    apply NoDup_app in Hnd as (Hndc & Hdisj & Hndsb).
    destruct Hlink as (ln & Hln & Hl).
    assert (Hxl : x <> link_loc sec prv) by (intros ->; set_solver).
    destruct fuel as [|f]; [lia|].
    rewrite remove_loop_Some, (load_Some _ _ _ Hx). cbn [bind].
    subst d. simpl remove_run. unfold item_has_value. simpl item_value.
    change (match value nx with Some _ => true | None => false end)
      with (has_value nx).
    destruct (negb (strcmp (name nx) nm =? 0)) eqn:Ename.
    { (* the run of [nm] ends here *)
      exists h, (Some x). split; [done|]. split.
      { simpl. split; [done|]. by exists nx. }
      split. { rewrite Hln. simpl. by rewrite (relink_id _ _ _ Hl). }
      split; [done|]. intros y Hy Hy'. done. }
    destruct ((negb (flag =? 0) && has_value nx)
              || ((flag =? 0) && negb (has_value nx))) eqn:Ekind.
    { (* other kind: keep [x], go on behind it *)
      destruct (IHsb h sec par lvl (Some x) (next nx) f nm flag Hsb Hndsb)
        as (h' & q & E & Hr & Hlk & Hout & Hdel).
      { exists nx. done. }
      { simpl. set_solver. }
      { lia. }
      simpl link_loc in *. rewrite Hx in Hlk. simpl in Hlk.
      exists h', (Some x). split; [done|]. split.
      { apply (repr_cons_context h h' par lvl prv x nx _ c _ q); try done.
        - set_solver.
        - intros y Hy. apply Hout; [|set_solver].
          intros Hysb. by apply (Hdisj y). }
      split.
      { rewrite Hout; [|set_solver|done].
        rewrite Hln. simpl. by rewrite (relink_id _ _ _ Hl). }
      split.
      { intros y Hy Hyl. apply Hout; set_solver. }
      intros y Hy Hy'. apply Hdel.
      - apply elem_of_cons in Hy as [->|Hy]; [simpl in Hy'; set_solver|].
        apply elem_of_app in Hy as [Hy|Hy]; [simpl in Hy'; set_solver|done].
      - simpl in Hy'. set_solver. }
    (* right kind: unlink [x] and free its subtree *)
    set (h1 := <[link_loc sec prv := relink prv (next nx) ln]> h).
    assert (E1 : match prev nx with
                 | Some b => store h b (set_next (next nx))
                 | None => store h sec (set_first_child (next nx))
                 end = Done h1).
    { rewrite Hprev. unfold h1. destruct prv as [b|]; simpl in *;
        by rewrite (store_Some _ _ _ _ Hln). }
    rewrite E1. cbn [bind].
    assert (E2 : exists h2 : heap,
               match next nx with
               | Some z => store h1 z (set_prev (prev nx))
               | None => Done h1
               end = Done h2 /\
               (forall y, Some y <> next nx -> h2 !! y = h1 !! y) /\
               (forall z n, next nx = Some z -> h !! z = Some n ->
                            h2 !! z = Some (set_prev prv n))).
    { destruct (next nx) as [z|] eqn:Enext.
      - destruct sb as [|z' dz cz sbz]; simpl in Hsb; [done|].
        destruct Hsb as ([= <-] & nz & Hz & _).
        assert (Hzl : z <> link_loc sec prv) by (intros ->; set_solver).
        assert (Hz1 : h1 !! z = Some nz).
        { unfold h1. by rewrite lookup_insert_ne. }
        exists (<[z := set_prev (prev nx) nz]> h1).
        split; [by rewrite (store_Some _ _ _ _ Hz1)|]. split.
        + intros y Hy. rewrite lookup_insert_ne; [done|]. congruence.
        + intros z0 n [= <-] Hz0. rewrite lookup_insert_eq. congruence.
      - exists h1. split; [done|]. split; [done|]. intros; discriminate. }
    destruct E2 as (h2 & E2 & Hh2 & Hh2z). rewrite E2. cbn [bind].
    assert (Hhead : forall z, next nx = Some z -> z ∈ locs sb).
    { intros z Ez. destruct sb as [|z' dz cz sbz]; simpl in Hsb.
      - congruence.
      - destruct Hsb as (Hz & _). rewrite Ez in Hz. injection Hz as ->.
        simpl. set_solver. }
    assert (Hnz : forall y, y ∉ locs sb -> Some y <> next nx).
    { intros y Hy Hz. symmetry in Hz. by apply Hhead in Hz. }
    assert (Hh21 : forall y, y ∉ locs sb -> y <> link_loc sec prv ->
                             h2 !! y = h !! y).
    { intros y Hy Hyl. rewrite Hh2 by by apply Hnz.
      unfold h1. by rewrite lookup_insert_ne. }
    assert (Hxsb : x ∉ locs sb) by set_solver.
    assert (Hx2 : h2 !! x = Some nx) by by rewrite Hh21.
    destruct (profile_free_node_spec h2 x nx (succ_level lvl) c f Hx2 Hm)
      as (h3 & E3 & Hin3 & Hout3).
    { apply (repr_frame h); [done|]. intros y Hy. apply Hh21.
      - intros Hysb. by apply (Hdisj y).
      - intros ->. set_solver. }
    { apply NoDup_cons. split; [set_solver|done]. }
    { lia. }
    rewrite E3. cbn [bind].
    assert (Hl3 : h3 !! link_loc sec prv = Some (relink prv (next nx) ln)).
    { rewrite Hout3, Hh2.
      - unfold h1. by rewrite lookup_insert_eq.
      - apply Hnz. set_solver.
      - set_solver. }
    destruct (IHsb h3 sec par lvl prv (next nx) f nm flag)
      as (h' & q & E & Hr & Hlk & Hout & Hdel).
    { apply (repr_set_prev h _ par lvl (Some x)); [done|done| |].
      - intros y Hy Hyn.
        rewrite Hout3 by (intros Hyx; by apply (Hdisj y); set_solver).
        rewrite Hh2 by congruence.
        unfold h1. rewrite lookup_insert_ne; [done|]. intros <-. set_solver.
      - intros z n Ez Hz. rewrite Hout3; [by apply Hh2z|].
        apply Hhead in Ez. set_solver. }
    { done. }
    { exists (relink prv (next nx) ln). split; [done|apply link_of_relink]. }
    { set_solver. }
    { lia. }
    exists h', q. split; [done|]. split; [done|]. split.
    { rewrite Hlk, Hl3, Hln. simpl. by rewrite relink_relink. }
    split.
    { intros y Hy Hyl. rewrite Hout by set_solver.
      rewrite Hout3 by set_solver. apply Hh21; set_solver. }
    intros y Hy Hy'.
    destruct (decide (y ∈ locs sb)) as [Hysb|Hysb]; [by apply Hdel|].
    rewrite Hout; [|done|intros ->; set_solver].
    apply Hin3. set_solver.
Qed.

(** ** More fuel never changes a result *)

Lemma bind_Done {A B} (r : result A) (k : A -> result B) b :
  bind r k = Done b -> exists a, r = Done a /\ k a = Done b.
Proof. destruct r; simpl; [eauto|done|done]. Qed.

Ltac bind_inv H :=
  let a := fresh "a" in
  let E := fresh "E" in
  apply bind_Done in H as (a & E & H).

Lemma find_node_mono (h : heap) cond f : forall f' p r,
  find_node f h cond p = Done r -> (f <= f')%nat ->
  find_node f' h cond p = Done r.
Proof.
  induction f as [|f IH]; intros f' p r H Hf.
  - destruct p; simpl in H; [done|]. by destruct f'.
  - destruct p as [a|]; [|by destruct f'].
    destruct f' as [|f']; [lia|]. simpl in *.
    bind_inv H. rewrite E. simpl. destruct (cond a0); [done|].
    apply IH; [done|lia].
Qed.

Lemma free_mono f :
  (forall f' (h : heap) nd r, profile_free_node f h nd = Done r ->
     (f <= f')%nat -> profile_free_node f' h nd = Done r) /\
  (forall f' (h : heap) p r, free_children f h p = Done r ->
     (f <= f')%nat -> free_children f' h p = Done r).
Proof.
  induction f as [|f [IHn IHc]]; [split; intros; discriminate|].
  split.
  - intros f' h nd r H Hf. destruct f' as [|f']; [lia|].
    rewrite profile_free_node_S in *. bind_inv H. rewrite E. cbn [bind].
    destruct (negb _); [done|]. bind_inv H.
    rewrite (IHc f' _ _ _ E0) by lia. done.
  - intros f' h p r H Hf. destruct f' as [|f']; [lia|].
    destruct p as [c|]; [|done].
    rewrite free_children_Some in *. bind_inv H. rewrite E. cbn [bind].
    bind_inv H. rewrite (IHn f' _ _ _ E0) by lia. cbn [bind].
    apply IHc; [done|lia].
Qed.

Lemma remove_loop_mono sec nm flag f : forall f' (h : heap) p r,
  remove_loop f h sec nm flag p = Done r -> (f <= f')%nat ->
  remove_loop f' h sec nm flag p = Done r.
Proof.
  induction f as [|f IH]; intros f' h p r H Hf.
  - destruct p; [done|]. by rewrite remove_loop_None in *.
  - destruct p as [a|]; [|by rewrite remove_loop_None in *].
    destruct f' as [|f']; [lia|]. rewrite remove_loop_Some in *.
    bind_inv H. rewrite E. cbn [bind].
    destruct (negb _); [done|]. destruct (_ || _).
    { apply IH; [done|lia]. }
    bind_inv H. rewrite E0. cbn [bind]. bind_inv H. rewrite E1. cbn [bind].
    bind_inv H. rewrite (proj1 (free_mono f) f' _ _ _ E2) by lia.
    cbn [bind]. apply IH; [done|lia].
Qed.

(** ** profile_remove_node on the children of a section *)

Definition is_target (nm : string) (d : item) : bool :=
  (strcmp (item_name d) nm =? 0) && item_has_value d.

(** The children after [profile_remove_node], or [None] when it reports
    [PROF_NO_RELATION]: the deletion loop starts at the first relation
    called [nm]. *)
Fixpoint remove_spec (nm : string) (section_flag : Z) (s : shape)
  : option shape :=
  match s with
  | Leaf => None
  | Nd x d c sb =>
    if is_target nm d then Some (remove_run nm section_flag s)
    else Nd x d c <$> remove_spec nm section_flag sb
  end.

Lemma remove_spec_locs nm flag s s' y :
  remove_spec nm flag s = Some s' -> y ∈ locs s' -> y ∈ locs s.
Proof.
  revert s'. induction s as [|x d c IHc sb IHsb]; simpl; [done|].
  intros s'. destruct (is_target nm d).
  - intros [= <-]. apply (remove_run_locs nm flag (Nd x d c sb)).
  - destruct (remove_spec nm flag sb) as [sb'|]; simpl; [|done].
    intros [= <-]. simpl. specialize (IHsb sb' eq_refl). set_solver.
Qed.

Lemma remove_spec_NoDup nm flag s s' :
  remove_spec nm flag s = Some s' -> NoDup (locs s) -> NoDup (locs s').
Proof.
  revert s'. induction s as [|x d c IHc sb IHsb]; simpl; [done|].
  intros s'. destruct (is_target nm d).
  - intros [= <-]. apply (remove_run_NoDup nm flag (Nd x d c sb)).
  - destruct (remove_spec nm flag sb) as [sb'|] eqn:E; simpl; [|done].
    intros [= <-] Hnd. simpl.
    apply NoDup_cons in Hnd as [Hxn Hnd].
    apply NoDup_app in Hnd as (Hndc & Hdisj & Hndsb).
    pose proof (remove_spec_locs nm flag sb sb') as Hsub.
    apply NoDup_cons. split.
    + intros Hx. apply elem_of_app in Hx as [Hx|Hx]; [set_solver|].
      apply Hsub in Hx; [|done]. set_solver.
    + apply NoDup_app. split; [done|]. split; [|by apply IHsb].
      intros y Hy Hy'. apply Hsub in Hy'; [|done]. by apply (Hdisj y).
Qed.

Lemma remove_sibs_spec s : forall (h : heap) sec par lvl prv p fuel nm flag,
  repr h par lvl prv p s -> NoDup (locs s) ->
  link_is h sec prv p -> link_loc sec prv ∉ locs s ->
  (weight s <= fuel)%nat ->
  match remove_spec nm flag s with
  | None =>
    find_node fuel h (fun n => (strcmp (name n) nm =? 0) && has_value n) p
    = Done None
  | Some s' =>
    exists a (h' : heap) q,
      find_node fuel h (fun n => (strcmp (name n) nm =? 0) && has_value n) p
      = Done (Some a) /\
      remove_loop fuel h sec nm flag (Some a) = Done h' /\
      repr h' par lvl prv q s' /\
      h' !! link_loc sec prv = relink prv q <$> h !! link_loc sec prv /\
      (forall y, y ∉ locs s -> y <> link_loc sec prv -> h' !! y = h !! y) /\
      (forall y, y ∈ locs s -> y ∉ locs s' -> h' !! y = None)
  end.
Proof.
  induction s as [|x d c IHc sb IHsb];
    intros h sec par lvl prv p fuel nm flag H Hnd Hlink Hll Hf.
  - simpl in *. subst p. by destruct fuel.
  - pose proof H as H0. simpl in H, Hf, Hnd.
    destruct H as (-> & nx & Hx & Hok & Hd & Hc & Hsb).
    apply NoDup_cons in Hnd as [Hxn Hnd].
    apply NoDup_app in Hnd as (Hndc & Hdisj & Hndsb).
    destruct fuel as [|f]; [lia|].
    cbn [remove_spec find_node]. rewrite (load_Some _ _ _ Hx). cbn [bind].
    assert (Ht : (strcmp (name nx) nm =? 0) && has_value nx = is_target nm d)
      by by subst d.
    rewrite Ht. destruct (is_target nm d).
    + destruct (remove_loop_spec (Nd x d c sb) h sec par lvl prv (Some x)
                  (S f) nm flag H0) as (h' & q & E & Hr & Hlk & Hout & Hdel);
        [|done|done|simpl; lia|].
      { simpl. apply NoDup_cons. split; [done|]. by apply NoDup_app. }
      exists x, h', q. done.
    + specialize (IHsb h sec par lvl (Some x) (next nx) f nm flag Hsb Hndsb).
      destruct (remove_spec nm flag sb) as [sb'|];
        cbn [fmap option_fmap option_map].
      * destruct IHsb as (a & h' & q & Ef & E & Hr & Hlk & Hout & Hdel).
        { exists nx. done. }
        { simpl. set_solver. }
        { lia. }
        simpl link_loc in *. rewrite Hx in Hlk. simpl in Hlk.
        destruct Hlink as (ln & Hln & Hl).
        assert (Hxl : x <> link_loc sec prv) by (intros ->; set_solver).
        exists a, h', (Some x). split; [done|]. split.
        { apply (remove_loop_mono _ _ _ f); [done|lia]. }
        split.
        { apply (repr_cons_context h h' par lvl prv x nx _ c _ q); try done.
          - set_solver.
          - intros y Hy. apply Hout; [|set_solver].
            intros Hysb. by apply (Hdisj y). }
        split.
        { rewrite Hout; [|set_solver|done].
          rewrite Hln. simpl. by rewrite (relink_id _ _ _ Hl). }
        split.
        { intros y Hy Hyl. apply Hout; set_solver. }
        intros y Hy Hy'. apply Hdel; [|set_solver].
        apply elem_of_cons in Hy as [->|Hy]; [set_solver|].
        apply elem_of_app in Hy as [Hy|Hy]; [set_solver|done].
      * apply IHsb; [by exists nx|simpl; set_solver|lia].
Qed.

Lemma profile_remove_node_kids (h : heap) sec sn c fuel nm flag :
  h !! sec = Some sn ->
  repr h (Some sec) (succ_level (group_level sn)) None (first_child sn) c ->
  NoDup (sec :: locs c) -> (weight c <= fuel)%nat ->
  match remove_spec nm flag c with
  | None => profile_remove_node fuel h sec nm flag
            = Done (PROF_NO_RELATION, h)
  | Some c' =>
    exists (h' : heap) q,
      profile_remove_node fuel h sec nm flag = Done (0, h') /\
      h' !! sec = Some (set_first_child q sn) /\
      repr h' (Some sec) (succ_level (group_level sn)) None q c' /\
      (forall y, y ∉ locs c -> y <> sec -> h' !! y = h !! y) /\
      (forall y, y ∈ locs c -> y ∉ locs c' -> h' !! y = None)
  end.
Proof.
  intros Hs Hc Hnd Hf. apply NoDup_cons in Hnd as [Hsn Hnd].
  pose proof (remove_sibs_spec c h sec (Some sec) (succ_level (group_level sn)) None
                (first_child sn) fuel nm flag Hc Hnd) as H.
  unfold profile_remove_node. rewrite (load_Some _ _ _ Hs). cbn [bind].
  destruct (remove_spec nm flag c) as [c'|].
  - destruct H as (a & h' & q & Ef & E & Hr & Hlk & Hout & Hdel);
      [by exists sn|done|done|].
    rewrite Ef. cbn [bind]. rewrite E. cbn [bind].
    simpl in Hlk. rewrite Hs in Hlk. exists h', q. done.
  - rewrite H; [done|by exists sn|done|done].
Qed.

(** ** profile_add_node on the children of a section *)

(** The children after an insertion: the new entry goes right before the
    first entry whose name is strictly greater. *)
Fixpoint insert_sib (new : positive) (d : item) (s : shape) : shape :=
  match s with
  | Leaf => Nd new d Leaf Leaf
  | Nd x dx c sb =>
    if strcmp (item_name dx) (item_name d) >? 0 then Nd new d Leaf s
    else Nd x dx c (insert_sib new d sb)
  end.

Lemma insert_sib_locs new d s y :
  y ∈ locs (insert_sib new d s) <-> y = new \/ y ∈ locs s.
Proof.
  induction s as [|x dx c IHc sb IHsb]; simpl; [set_solver|].
  destruct (_ >? 0); simpl; set_solver.
Qed.

Lemma insert_sib_NoDup new d s :
  NoDup (locs s) -> new ∉ locs s -> NoDup (locs (insert_sib new d s)).
Proof.
  induction s as [|x dx c IHc sb IHsb]; simpl; intros Hnd Hnew.
  - apply NoDup_singleton.
  - destruct (_ >? 0); simpl; [by apply NoDup_cons|].
    apply NoDup_cons in Hnd as [Hxn Hnd].
    apply NoDup_app in Hnd as (Hndc & Hdisj & Hndsb).
    apply NoDup_cons. split.
    + rewrite elem_of_app, insert_sib_locs. set_solver.
    + apply NoDup_app. split; [done|]. split; [|apply IHsb; set_solver].
      intros y Hy. rewrite insert_sib_locs. set_solver.
Qed.

Lemma add_scan_None fuel (h : heap) nm last :
  add_scan fuel h nm None last = Done (None, last).
Proof. by destruct fuel. Qed.

Lemma add_scan_Some f (h : heap) nm a last :
  add_scan (S f) h nm (Some a) last =
  let* n := load h a in
  if strcmp (name n) nm >? 0 then Done (Some a, last)
  else add_scan f h nm (next n) (Some a).
Proof. reflexivity. Qed.

Lemma add_scan_mono (h : heap) nm f : forall f' p last r,
  add_scan f h nm p last = Done r -> (f <= f')%nat ->
  add_scan f' h nm p last = Done r.
Proof.
  induction f as [|f IH]; intros f' p last r H Hf.
  - destruct p; [done|]. by rewrite add_scan_None in *.
  - destruct p as [a|]; [|by rewrite add_scan_None in *].
    destruct f' as [|f']; [lia|]. rewrite add_scan_Some in *.
    bind_inv H. rewrite E. cbn [bind]. destruct (_ >? 0); [done|].
    apply IH; [done|lia].
Qed.

Lemma add_sibs_spec s : forall (h : heap) sec lvl prv p fuel new nn,
  repr h (Some sec) lvl prv p s -> NoDup (locs s) ->
  link_is h sec prv p -> link_loc sec prv ∉ locs s ->
  h !! new = None ->
  magic nn = PROF_MAGIC_NODE -> first_child nn = None ->
  (weight s <= fuel)%nat ->
  exists q lq (h3 : heap) p',
    add_scan fuel h (name nn) p prv = Done (q, lq) /\
    link_node (<[new := nn]> h) sec lvl new q lq = Done h3 /\
    repr h3 (Some sec) lvl prv p' (insert_sib new (item_of nn) s) /\
    h3 !! link_loc sec prv = relink prv p' <$> h !! link_loc sec prv /\
    (forall y, y ∉ locs s -> y <> link_loc sec prv -> y <> new ->
               h3 !! y = h !! y).
Proof.
  induction s as [|x d c IHc sb IHsb];
    intros h sec lvl prv p fuel new nn H Hnd Hlink Hll Hnew Hm Hfc Hf.
  - simpl in H. subst p. destruct Hlink as (ln & Hln & Hl).
    assert (Hnl : link_loc sec prv <> new) by congruence.
    exists None, prv.
    exists (<[link_loc sec prv := relink prv (Some new) ln]>
              (<[new := set_links lvl (Some sec) prv None nn]>
                 (<[new := nn]> h))), (Some new).
    split; [apply add_scan_None|]. split.
    { unfold link_node. rewrite (store_Some _ _ _ nn) by apply lookup_insert_eq.
      cbn [bind]. destruct prv as [b|]; simpl in *.
      - rewrite (store_Some _ _ _ ln); [done|].
        by rewrite !lookup_insert_ne.
      - rewrite (store_Some _ _ _ ln); [done|].
        by rewrite !lookup_insert_ne. }
    split.
    { simpl. split; [done|]. exists (set_links lvl (Some sec) prv None nn).
      split. { rewrite lookup_insert_ne by done. apply lookup_insert_eq. }
      split. { unfold node_ok. by destruct nn. }
      by destruct nn. }
    split.
    { rewrite lookup_insert_eq, Hln. done. }
    intros y _ Hyl Hyn. by rewrite !lookup_insert_ne.
  - assert (Hfresh : forall y, y ∈ locs (Nd x d c sb) -> y <> new).
    { intros y Hy ->.
      destruct (repr_lookup h _ _ _ _ _ new H Hy) as (? & ? & _).
      congruence. }
    simpl in H, Hf, Hnd, Hfresh.
    destruct H as (-> & nx & Hx & Hok & Hd & Hc & Hsb).
    apply NoDup_cons in Hnd as [Hxn Hnd].
    apply NoDup_app in Hnd as (Hndc & Hdisj & Hndsb).
    pose proof Hlink as (ln & Hln & Hl).
    assert (Hnl : link_loc sec prv <> new) by congruence.
    assert (Hxl : x <> link_loc sec prv) by (intros ->; set_solver).
    assert (Hxnew : x <> new) by congruence.
    destruct fuel as [|f]; [lia|].
    rewrite add_scan_Some, (load_Some _ _ _ Hx). cbn [bind].
    cbn [insert_sib]. subst d.
    change (item_name (item_of nx)) with (name nx).
    change (item_name (item_of nn)) with (name nn).
    destruct (strcmp (name nx) (name nn) >? 0) eqn:Ecmp.
    + (* insert before [x] *)
      exists (Some x), prv.
      exists (<[link_loc sec prv := relink prv (Some new) ln]>
                (<[x := set_prev (Some new) nx]>
                   (<[new := set_links lvl (Some sec) prv (Some x) nn]>
                      (<[new := nn]> h)))), (Some new).
      split; [done|]. split.
      { unfold link_node.
        rewrite (store_Some _ _ _ nn) by apply lookup_insert_eq. cbn [bind].
        rewrite (store_Some _ _ _ nx) by by rewrite !lookup_insert_ne.
        cbn [bind]. destruct prv as [b|]; simpl in *.
        - rewrite (store_Some _ _ _ ln); [done|].
          by rewrite !lookup_insert_ne.
        - rewrite (store_Some _ _ _ ln); [done|].
          by rewrite !lookup_insert_ne. }
      split.
      { cbn [repr]. split; [done|].
        exists (set_links lvl (Some sec) prv (Some x) nn).
        split. { rewrite !lookup_insert_ne by done. apply lookup_insert_eq. }
        split. { unfold node_ok. by destruct nn. }
        split; [by destruct nn|]. split; [by destruct nn|].
        change (next (set_links lvl (Some sec) prv (Some x) nn))
          with (Some x).
        apply (repr_set_prev h _ (Some sec) lvl prv (Some new) (Some x)
                 (Nd x (item_of nx) c sb)).
        - simpl. split; [done|]. by exists nx.
        - simpl. apply NoDup_cons. split; [done|]. by apply NoDup_app.
        - intros y Hy Hyx. apply Hfresh in Hy as Hyn.
          rewrite !lookup_insert_ne; congruence.
        - intros z n [= <-] Hz. rewrite lookup_insert_ne by done.
          rewrite lookup_insert_eq. congruence. }
      split. { rewrite lookup_insert_eq, Hln. done. }
      intros y Hy Hyl Hyn. rewrite !lookup_insert_ne; try done.
      intros <-. simpl in Hy. set_solver.
    + (* go on behind [x] *)
      destruct (IHsb h sec lvl (Some x) (next nx) f new nn Hsb Hndsb)
        as (q & lq & h3 & p' & Es & El & Hr & Hlk & Hout); try done.
      { by exists nx. }
      { simpl. set_solver. }
      { lia. }
      simpl link_loc in Hlk, Hout. rewrite Hx in Hlk. simpl in Hlk.
      exists q, lq, h3, (Some x). split; [done|]. split; [done|]. split.
      { apply (repr_cons_context h h3 (Some sec) lvl prv x nx _ c _ p');
          try done.
        - set_solver.
        - intros y Hy. apply Hout; [|set_solver|apply Hfresh; set_solver].
          intros Hysb. by apply (Hdisj y). }
      split.
      { rewrite Hout; [|set_solver|done|done].
        rewrite Hln. simpl. by rewrite (relink_id _ _ _ Hl). }
      intros y Hy Hyl Hyn. apply Hout; [set_solver|set_solver|done].
Qed.

(** ** Sections inside a tree *)

(** The child list of the node at [sec], and the tree with that child
    list replaced. *)
Fixpoint kids_of (sec : positive) (s : shape) : option shape :=
  match s with
  | Leaf => None
  | Nd x _ c sb =>
    if decide (x = sec) then Some c
    else match kids_of sec c with
         | Some r => Some r
         | None => kids_of sec sb
         end
  end.

Fixpoint update_kids (sec : positive) (c' : shape) (s : shape) : shape :=
  match s with
  | Leaf => Leaf
  | Nd x d c sb =>
    if decide (x = sec) then Nd x d c' sb
    else Nd x d (update_kids sec c' c) (update_kids sec c' sb)
  end.

Lemma kids_of_None sec s : kids_of sec s = None <-> sec ∉ locs s.
Proof.
  induction s as [|x d c IHc sb IHsb]; simpl; [set_solver|].
  destruct (decide (x = sec)) as [->|Hne]; [set_solver|].
  destruct (kids_of sec c) as [r|].
  - split; [done|]. intros Hn. exfalso.
    assert (sec ∉ locs c) by set_solver. by apply IHc in H.
  - rewrite IHsb. destruct IHc as [IHc _]. specialize (IHc eq_refl).
    set_solver.
Qed.

Lemma kids_of_Some sec s cs :
  kids_of sec s = Some cs ->
  sec ∈ locs s /\ forall y, y ∈ locs cs -> y ∈ locs s.
Proof.
  revert cs. induction s as [|x d c IHc sb IHsb]; simpl; intros cs; [done|].
  destruct (decide (x = sec)) as [->|Hne].
  - intros [= <-]. set_solver.
  - destruct (kids_of sec c) as [r|].
    + intros [= <-]. destruct (IHc r eq_refl). set_solver.
    + intros E. destruct (IHsb cs E). set_solver.
Qed.

Lemma update_kids_notin sec c' s : sec ∉ locs s -> update_kids sec c' s = s.
Proof.
  induction s as [|x d c IHc sb IHsb]; simpl; [done|]. intros Hn.
  destruct (decide (x = sec)) as [->|Hne]; [set_solver|].
  rewrite IHc, IHsb; set_solver.
Qed.

Lemma repr_kids_of s : forall (h : heap) par lvl prv p sec cs,
  repr h par lvl prv p s -> NoDup (locs s) -> kids_of sec s = Some cs ->
  exists sn, h !! sec = Some sn /\ magic sn = PROF_MAGIC_NODE /\
    (has_value sn = true -> first_child sn = None) /\
    repr h (Some sec) (succ_level (group_level sn)) None (first_child sn) cs /\
    NoDup (sec :: locs cs).
Proof.
  induction s as [|x d c IHc sb IHsb]; intros h par lvl prv p sec cs H Hnd E;
    simpl in *; [done|].
  destruct H as (-> & n & Hx & (Hm & Hpar & Hlvl & Hprev & Hval) & Hd & Hc & Hsb).
  apply NoDup_cons in Hnd as [Hxn Hnd].
  apply NoDup_app in Hnd as (Hndc & Hdisj & Hndsb).
  destruct (decide (x = sec)) as [->|Hne].
  - injection E as <-. exists n. rewrite Hlvl.
    repeat split; try done. apply NoDup_cons. set_solver.
  - destruct (kids_of sec c) as [r|] eqn:Ec.
    + injection E as <-. by eapply IHc.
    + by eapply IHsb.
Qed.

Lemma repr_update_kids s : forall (h h' : heap) par lvl prv p sec sn cs cs' q,
  repr h par lvl prv p s -> NoDup (locs s) -> kids_of sec s = Some cs ->
  h !! sec = Some sn ->
  h' !! sec = Some (set_first_child q sn) ->
  (has_value sn = true -> q = None) ->
  repr h' (Some sec) (succ_level (group_level sn)) None q cs' ->
  (forall y, y ∈ locs s -> y ∉ locs cs -> y <> sec -> h' !! y = h !! y) ->
  repr h' par lvl prv p (update_kids sec cs' s).
Proof.
  induction s as [|x d c IHc sb IHsb];
    intros h h' par lvl prv p sec sn cs cs' q H Hnd E Hs Hs' Hv Hr Hsame;
    simpl in *; [done|].
  destruct H as (-> & n & Hx & Hok & Hd & Hc & Hsb).
  apply NoDup_cons in Hnd as [Hxn Hnd].
  apply NoDup_app in Hnd as (Hndc & Hdisj & Hndsb).
  destruct (decide (x = sec)) as [->|Hne].
  - injection E as <-. assert (n = sn) as -> by congruence.
    destruct Hok as (Hm & Hpar & Hlvl & Hprev & Hval).
    simpl. split; [done|]. exists (set_first_child q sn).
    split; [done|]. split. { unfold node_ok. by destruct sn. }
    split; [by destruct sn|]. split.
    + rewrite <- Hlvl. by destruct sn.
    + apply (repr_frame h); [by destruct sn|]. intros y Hy.
      apply Hsame; [set_solver| |set_solver].
      intros Hyc. by apply (Hdisj y).
  - assert (Hxs : h' !! x = h !! x).
    { apply Hsame; [set_solver| |done]. intros Hxc.
      destruct (kids_of sec c) as [r|] eqn:Ec.
      - injection E as ->. apply kids_of_Some in Ec as [_ Hsub].
        apply Hsub in Hxc. set_solver.
      - apply kids_of_Some in E as [_ Hsub]. apply Hsub in Hxc. set_solver. }
    simpl. split; [done|]. exists n. split; [congruence|].
    split; [done|]. split; [done|].
    destruct (kids_of sec c) as [r|] eqn:Ec.
    + injection E as ->. pose proof (kids_of_Some _ _ _ Ec) as [Hin Hsub].
      split.
      * apply (IHc h h' (Some x) (succ_level lvl) None _ sec sn cs cs' q);
          try done.
        intros y Hy Hyc Hys. apply Hsame; [set_solver|done|done].
      * rewrite update_kids_notin by (intros Hsb'; by apply (Hdisj sec)).
        apply (repr_frame h); [done|]. intros y Hy.
        apply Hsame; [set_solver| |].
        -- intros Hyc. apply Hsub in Hyc. by apply (Hdisj y).
        -- intros ->. by apply (Hdisj sec).
    + pose proof (kids_of_Some _ _ _ E) as [Hin Hsub].
      apply kids_of_None in Ec. split.
      * rewrite update_kids_notin by done.
        apply (repr_frame h); [done|]. intros y Hy.
        apply Hsame; [set_solver| |].
        -- intros Hyc. apply Hsub in Hyc. by apply (Hdisj y).
        -- intros ->. done.
      * apply (IHsb h h' par lvl (Some x) _ sec sn cs cs' q); try done.
        intros y Hy Hyc Hys. apply Hsame; [set_solver|done|done].
Qed.

Lemma update_kids_locs sec cs cs' s y :
  NoDup (locs s) -> kids_of sec s = Some cs ->
  y ∈ locs (update_kids sec cs' s) ->
  y ∈ locs cs' \/ (y ∈ locs s /\ y ∉ locs cs).
Proof.
  induction s as [|x d c IHc sb IHsb]; simpl; [done|]. intros Hnd E.
  apply NoDup_cons in Hnd as [Hxn Hnd].
  apply NoDup_app in Hnd as (Hndc & Hdisj & Hndsb).
  destruct (decide (x = sec)) as [->|Hne].
  - injection E as <-. simpl. intros Hy.
    apply elem_of_cons in Hy as [->|Hy]; [set_solver|].
    apply elem_of_app in Hy as [Hy|Hy]; [by left|]. right.
    split; [set_solver|]. intros Hyc. by apply (Hdisj y).
  - simpl. destruct (kids_of sec c) as [r|] eqn:Ec.
    + injection E as ->. pose proof (kids_of_Some _ _ _ Ec) as [Hin Hsub].
      rewrite (update_kids_notin sec cs' sb)
        by (intros Hsb'; by apply (Hdisj sec)).
      intros Hy. apply elem_of_cons in Hy as [->|Hy].
      * right. split; [set_solver|]. intros Hxc. apply Hsub in Hxc.
        set_solver.
      * apply elem_of_app in Hy as [Hy|Hy].
        -- destruct (IHc Hndc eq_refl Hy) as [?|[? ?]]; [by left|].
           right. set_solver.
        -- right. split; [set_solver|]. intros Hyc. apply Hsub in Hyc.
           by apply (Hdisj y).
    + pose proof (kids_of_Some _ _ _ E) as [Hin Hsub].
      apply kids_of_None in Ec. rewrite (update_kids_notin sec cs' c) by done.
      intros Hy. apply elem_of_cons in Hy as [->|Hy].
      * right. split; [set_solver|]. intros Hxc. apply Hsub in Hxc.
        set_solver.
      * apply elem_of_app in Hy as [Hy|Hy].
        -- right. split; [set_solver|]. intros Hyc. apply Hsub in Hyc.
           by apply (Hdisj y).
        -- destruct (IHsb Hndsb E Hy) as [?|[? ?]]; [by left|].
           right. set_solver.
Qed.

Lemma update_kids_NoDup sec cs cs' s :
  NoDup (locs s) -> kids_of sec s = Some cs -> NoDup (locs cs') ->
  (forall y, y ∈ locs cs' -> y ∈ locs cs \/ y ∉ locs s) ->
  NoDup (locs (update_kids sec cs' s)).
Proof.
  induction s as [|x d c IHc sb IHsb]; simpl; [done|].
  intros Hnd E Hnd' Hnew. pose proof Hnd as Hnd0.
  apply NoDup_cons in Hnd as [Hxn Hnd].
  apply NoDup_app in Hnd as (Hndc & Hdisj & Hndsb).
  destruct (decide (x = sec)) as [->|Hne].
  - injection E as <-. simpl. apply NoDup_cons. split.
    + intros Hx. apply elem_of_app in Hx as [Hx|Hx]; [|set_solver].
      destruct (Hnew _ Hx); set_solver.
    + apply NoDup_app. split; [done|]. split; [|done].
      intros y Hy Hysb. destruct (Hnew _ Hy) as [Hyc|Hyn]; [|set_solver].
      by apply (Hdisj y).
  - simpl. destruct (kids_of sec c) as [r|] eqn:Ec.
    + injection E as ->. pose proof (kids_of_Some _ _ _ Ec) as [Hin Hsub].
      rewrite (update_kids_notin sec cs' sb)
        by (intros Hsb'; by apply (Hdisj sec)).
      assert (Hin' : forall y, y ∈ locs (update_kids sec cs' c) ->
                               y ∈ locs c \/ y ∉ x :: locs c ++ locs sb).
      { intros y Hy.
        destruct (update_kids_locs sec cs cs' c y Hndc Ec Hy) as [Hy'|[? ?]];
          [|by left].
        destruct (Hnew _ Hy'); [left; by apply Hsub|by right]. }
      apply NoDup_cons. split.
      * intros Hx. apply elem_of_app in Hx as [Hx|Hx]; [|set_solver].
        destruct (Hin' _ Hx); set_solver.
      * apply NoDup_app. split.
        -- apply IHc; try done. intros y Hy.
           destruct (Hnew _ Hy); [by left|right; set_solver].
        -- split; [|done]. intros y Hy Hysb.
           destruct (Hin' _ Hy) as [Hyc|Hyn]; [|set_solver].
           by apply (Hdisj y).
    + pose proof (kids_of_Some _ _ _ E) as [Hin Hsub].
      apply kids_of_None in Ec. rewrite (update_kids_notin sec cs' c) by done.
      assert (Hin' : forall y, y ∈ locs (update_kids sec cs' sb) ->
                               y ∈ locs sb \/ y ∉ x :: locs c ++ locs sb).
      { intros y Hy.
        destruct (update_kids_locs sec cs cs' sb y Hndsb E Hy) as [Hy'|[? ?]];
          [|by left].
        destruct (Hnew _ Hy'); [left; by apply Hsub|by right]. }
      apply NoDup_cons. split.
      * intros Hx. apply elem_of_app in Hx as [Hx|Hx]; [set_solver|].
        destruct (Hin' _ Hx); set_solver.
      * apply NoDup_app. split; [done|]. split.
        -- intros y Hyc Hy. destruct (Hin' _ Hy) as [Hysb|Hyn]; [|set_solver].
           by apply (Hdisj y).
        -- apply IHsb; try done. intros y Hy.
           destruct (Hnew _ Hy); [by left|right; set_solver].
Qed.

Definition tree_kids (root : positive) (c : shape) (sec : positive)
  : option shape :=
  if decide (sec = root) then Some c else kids_of sec c.

Definition tree_update (root : positive) (c : shape) (sec : positive)
    (cs' : shape) : shape :=
  if decide (sec = root) then cs' else update_kids sec cs' c.

Lemma tree_kids_is_Some root c sec :
  sec ∈ root :: locs c -> is_Some (tree_kids root c sec).
Proof.
  intros Hin. unfold tree_kids. destruct (decide (sec = root)); [by eexists|].
  destruct (kids_of sec c) eqn:E; [by eexists|].
  apply kids_of_None in E. set_solver.
Qed.

Lemma tree_kids_in root c sec cs :
  tree_kids root c sec = Some cs -> sec ∈ root :: locs c.
Proof.
  unfold tree_kids. destruct (decide (sec = root)) as [->|]; [set_solver|].
  intros E. apply kids_of_Some in E as [? _]. set_solver.
Qed.

Lemma kids_of_weight sec s cs :
  kids_of sec s = Some cs -> (weight cs <= weight s)%nat.
Proof.
  revert cs. induction s as [|x d c IHc sb IHsb]; simpl; intros cs; [done|].
  destruct (decide (x = sec)).
  - intros [= <-]. lia.
  - destruct (kids_of sec c) as [r|].
    + intros [= <-]. specialize (IHc r eq_refl). lia.
    + intros E. specialize (IHsb cs E). lia.
Qed.

Lemma tree_kids_weight root c sec cs :
  tree_kids root c sec = Some cs -> (weight cs <= weight c)%nat.
Proof.
  unfold tree_kids. destruct (decide (sec = root)).
  - by intros [= <-].
  - apply kids_of_weight.
Qed.

Lemma tree_section (h : heap) root c sec cs :
  tree h root c -> tree_kids root c sec = Some cs ->
  exists sn, h !! sec = Some sn /\ magic sn = PROF_MAGIC_NODE /\
    (has_value sn = true -> first_child sn = None) /\
    repr h (Some sec) (succ_level (group_level sn)) None (first_child sn) cs /\
    NoDup (sec :: locs cs).
Proof.
  intros (n & Hr & Hm & Hval & Hc & Hnd) E. unfold tree_kids in E.
  destruct (decide (sec = root)) as [->|Hne].
  - injection E as <-. by exists n.
  - apply NoDup_cons in Hnd as [_ Hnd]. by eapply repr_kids_of.
Qed.

Lemma tree_update_ok (h h' : heap) root c sec sn cs cs' q :
  tree h root c -> tree_kids root c sec = Some cs ->
  h !! sec = Some sn ->
  h' !! sec = Some (set_first_child q sn) ->
  (has_value sn = true -> q = None) ->
  repr h' (Some sec) (succ_level (group_level sn)) None q cs' ->
  NoDup (locs cs') ->
  (forall y, y ∈ locs cs' -> y ∈ locs cs \/ y ∉ root :: locs c) ->
  (forall y, y ∈ root :: locs c -> y ∉ locs cs -> y <> sec ->
             h' !! y = h !! y) ->
  tree h' root (tree_update root c sec cs').
Proof.
  intros (n & Hr & Hm & Hval & Hc & Hnd) E Hs Hs' Hv Hr' Hnd' Hnew Hsame.
  unfold tree_kids in E. unfold tree_update.
  apply NoDup_cons in Hnd as [Hrn Hndc].
  destruct (decide (sec = root)) as [->|Hne].
  - injection E as <-. assert (n = sn) as -> by congruence.
    exists (set_first_child q sn). split; [done|].
    split; [by destruct sn|]. split; [by destruct sn|].
    split; [by destruct sn|]. apply NoDup_cons. split; [|done].
    intros Hin. destruct (Hnew _ Hin); set_solver.
  - pose proof (kids_of_Some _ _ _ E) as [Hin Hsub].
    exists n. split.
    { rewrite Hsame; [done|set_solver| |done]. intros Hrc.
      by apply Hsub in Hrc. }
    split; [done|]. split; [done|]. split.
    + apply (repr_update_kids c h h' _ _ _ _ sec sn cs cs' q); try done.
      intros y Hy Hyc Hys. apply Hsame; [set_solver|done|done].
    + apply NoDup_cons. split.
      * intros Hin'.
        destruct (update_kids_locs sec cs cs' c root Hndc E Hin')
          as [Hy|[Hy _]]; [|done].
        destruct (Hnew _ Hy) as [Hy'|Hy']; [by apply Hsub in Hy'|set_solver].
      * apply (update_kids_NoDup sec cs cs' c); try done.
        intros y Hy. destruct (Hnew _ Hy); [by left|right; set_solver].
Qed.

(** ** Insertion and removal keep a tree well formed *)

Lemma remove_preserves_tree (h : heap) root c sec cs fuel nm flag :
  tree h root c -> tree_kids root c sec = Some cs ->
  (weight cs <= fuel)%nat ->
  match remove_spec nm flag cs with
  | None => profile_remove_node fuel h sec nm flag
            = Done (PROF_NO_RELATION, h)
  | Some cs' =>
    exists h' : heap,
      profile_remove_node fuel h sec nm flag = Done (0, h') /\
      tree h' root (tree_update root c sec cs')
  end.
Proof.
  intros Ht E Hf.
  destruct (tree_section h root c sec cs Ht E)
    as (sn & Hs & Hm & Hval & Hr & Hnd).
  pose proof (profile_remove_node_kids h sec sn cs fuel nm flag Hs Hr Hnd Hf)
    as H.
  destruct (remove_spec nm flag cs) as [cs'|] eqn:Espec; [|done].
  destruct H as (h' & q & Erem & Hs' & Hr' & Hout & Hdel).
  exists h'. split; [done|].
  apply (tree_update_ok h h' root c sec sn cs cs' q); try done.
  - intros Hv. specialize (Hval Hv). rewrite Hval in Hr.
    destruct cs; [done|]. simpl in Hr. by destruct Hr.
  - apply NoDup_cons in Hnd as [_ Hnd]. by eapply remove_spec_NoDup.
  - intros y Hy. left. by eapply remove_spec_locs.
  - intros y Hy Hyc Hys. by apply Hout.
Qed.

Section AddNode.

Variable malloc : heap -> option positive.
Variable malloc_bytes : nat -> bool.

(** [malloc] never returns a block that is still allocated. *)
Hypothesis malloc_fresh :
  forall (h : heap) l, malloc h = Some l -> h !! l = None.

Lemma profile_add_node_kids (h : heap) sec sn c fuel nm val new :
  h !! sec = Some sn -> magic sn = PROF_MAGIC_NODE -> has_value sn = false ->
  repr h (Some sec) (succ_level (group_level sn)) None (first_child sn) c ->
  NoDup (sec :: locs c) -> (weight c <= fuel)%nat ->
  malloc h = Some new ->
  malloc_bytes (String.length nm + 1) = true ->
  (forall v, val = Some v -> malloc_bytes (String.length v + 1) = true) ->
  exists (h3 : heap) p',
    profile_add_node malloc malloc_bytes fuel h sec nm val
    = Done (0, h3, Some new) /\
    h3 !! sec = Some (set_first_child p' sn) /\
    repr h3 (Some sec) (succ_level (group_level sn)) None p'
         (insert_sib new (mk_item nm val false) c) /\
    (forall y, y ∉ locs c -> y <> sec -> y <> new -> h3 !! y = h !! y).
Proof.
  intros Hs Hm Hv Hr Hnd Hf Hmal Hnm Hval.
  apply NoDup_cons in Hnd as [Hsn Hnd].
  pose proof (malloc_fresh _ _ Hmal) as Hnew.
  set (nn := mk_node PROF_MAGIC_NODE nm val 0 false None None None None).
  destruct (add_sibs_spec c h sec (succ_level (group_level sn)) None (first_child sn)
              fuel new nn Hr Hnd) as (q & lq & h3 & p' & Es & El & Hr' & Hlk & Hout);
    try done.
  { by exists sn. }
  unfold profile_add_node. rewrite (load_Some _ _ _ Hs). cbn [bind].
  rewrite (magic_test_ok _ Hm), Hv.
  change (name nn) with nm in Es. rewrite Es. cbn [bind].
  assert (Ecr : profile_create_node malloc malloc_bytes h nm val
                = (0, <[new := nn]> h, Some new)).
  { unfold profile_create_node. rewrite Hmal, Hnm. cbn [negb].
    destruct val as [v|]; [|done]. by rewrite (Hval v eq_refl). }
  rewrite Ecr, El. cbn [bind]. exists h3, p'.
  split; [done|]. simpl in Hlk. rewrite Hs in Hlk.
  split; [done|]. split; [done|]. done.
Qed.

Lemma add_preserves_tree (h : heap) root c sec cs sn fuel nm val new :
  tree h root c -> tree_kids root c sec = Some cs ->
  h !! sec = Some sn -> has_value sn = false ->
  (weight cs <= fuel)%nat ->
  malloc h = Some new ->
  malloc_bytes (String.length nm + 1) = true ->
  (forall v, val = Some v -> malloc_bytes (String.length v + 1) = true) ->
  exists h' : heap,
    profile_add_node malloc malloc_bytes fuel h sec nm val
    = Done (0, h', Some new) /\
    tree h' root
         (tree_update root c sec (insert_sib new (mk_item nm val false) cs)).
Proof.
  intros Ht E Hs Hv Hf Hmal Hnm Hval.
  destruct (tree_section h root c sec cs Ht E)
    as (sn' & Hs' & Hm & Hexcl & Hr & Hnd).
  assert (sn' = sn) as -> by congruence.
  destruct (profile_add_node_kids h sec sn cs fuel nm val new)
    as (h3 & p' & Eadd & Hs3 & Hr3 & Hout); try done.
  pose proof (malloc_fresh _ _ Hmal) as Hnew.
  assert (Hfresh : forall y, y ∈ root :: locs c -> y <> new).
  { intros y Hy ->. destruct Ht as (n & Hroot & _ & _ & Hc & _).
    apply elem_of_cons in Hy as [->|Hy]; [congruence|].
    destruct (repr_lookup h c _ _ _ _ new Hc Hy) as (? & ? & _).
    congruence. }
  exists h3. split; [done|].
  apply (tree_update_ok h h3 root c sec sn cs _ p'); try done.
  - by rewrite Hv.
  - apply insert_sib_NoDup.
    + by apply NoDup_cons in Hnd as [_ Hnd].
    + intros Hin. destruct (repr_lookup h cs _ _ _ _ new Hr Hin) as (? & ? & _).
      congruence.
  - intros y Hy. apply insert_sib_locs in Hy as [->|Hy]; [|by left].
    right. intros Hin. by apply (Hfresh new).
  - intros y Hy Hyc Hys. apply Hout; [done|done|by apply Hfresh].
Qed.

End AddNode.

(** ** Nodes of a tree, by pointers *)

(** The nodes one reaches from [root] through [first_child] and, below
    the root, [next]. *)
Inductive in_tree (h : heap) (root : positive) : positive -> Prop :=
| in_tree_root : in_tree h root root
| in_tree_child x n y :
    in_tree h root x -> h !! x = Some n -> first_child n = Some y ->
    in_tree h root y
| in_tree_next x n y :
    in_tree h root x -> x <> root -> h !! x = Some n -> next n = Some y ->
    in_tree h root y.

Lemma repr_head (h : heap) par lvl prv y s :
  repr h par lvl prv (Some y) s -> y ∈ locs s.
Proof.
  destruct s as [|x d c sb]; simpl; [done|]. intros ([= ->] & _). set_solver.
Qed.

Lemma repr_links_in s : forall (h : heap) par lvl prv p x n y,
  repr h par lvl prv p s -> x ∈ locs s -> h !! x = Some n ->
  first_child n = Some y \/ next n = Some y -> y ∈ locs s.
Proof.
  induction s as [|x0 d c IHc sb IHsb]; intros h par lvl prv p x n y H Hx Hn Hy;
    simpl in *; [set_solver|].
  destruct H as (-> & n0 & Hx0 & Hok & Hd & Hc & Hsb).
  apply elem_of_cons in Hx as [->|Hx].
  - assert (n0 = n) as -> by congruence. destruct Hy as [Hy|Hy].
    + rewrite Hy in Hc. apply repr_head in Hc. set_solver.
    + rewrite Hy in Hsb. apply repr_head in Hsb. set_solver.
  - apply elem_of_app in Hx as [Hx|Hx].
    + specialize (IHc _ _ _ _ _ _ _ _ Hc Hx Hn Hy). set_solver.
    + specialize (IHsb _ _ _ _ _ _ _ _ Hsb Hx Hn Hy). set_solver.
Qed.

Lemma in_tree_locs (h : heap) root c x :
  tree h root c -> in_tree h root x -> x ∈ root :: locs c.
Proof.
  intros (n & Hr & Hm & Hval & Hc & Hnd) Hin.
  induction Hin as [|x nx y Hin IH Hx Hy|x nx y Hin IH Hne Hx Hy].
  - set_solver.
  - apply elem_of_cons in IH as [->|IH].
    + assert (nx = n) as -> by congruence. rewrite Hy in Hc.
      apply repr_head in Hc. set_solver.
    + apply elem_of_cons. right.
      apply (repr_links_in c h _ _ _ _ x nx y Hc IH Hx). by left.
  - apply elem_of_cons in IH as [->|IH]; [done|].
    apply elem_of_cons. right.
    apply (repr_links_in c h _ _ _ _ x nx y Hc IH Hx). by right.
Qed.

Lemma profile_remove_node_mono f f' (h : heap) sec nm flag r :
  profile_remove_node f h sec nm flag = Done r -> (f <= f')%nat ->
  profile_remove_node f' h sec nm flag = Done r.
Proof.
  unfold profile_remove_node. intros H Hf.
  bind_inv H. rewrite E. cbn [bind]. bind_inv H.
  rewrite (find_node_mono _ _ _ _ _ _ E0 Hf). cbn [bind].
  destruct a0 as [p|]; [|done]. bind_inv H.
  by rewrite (remove_loop_mono _ _ _ _ _ _ _ _ E1 Hf).
Qed.

(** * What a successful verification establishes

    The converse of [verify_tree_ok]: when [profile_verify_node] returns
    0 the heap below the node is a tree.  The shape is read off the run of
    the verifier.  That no location occurs twice follows from the links
    it checked: the shape hanging from a pointer is fixed by the heap, so
    a node cannot occur below itself, and parent pointers tell the
    children of different nodes apart. *)

Lemma verify_shape fuel :
  (forall (h : heap) nd,
     profile_verify_node fuel h nd = Done 0 ->
     exists n c, h !! nd = Some n /\ magic n = PROF_MAGIC_NODE /\
       (has_value n = true -> first_child n = None) /\
       repr h (Some nd) (succ_level (group_level n)) None (first_child n) c) /\
  (forall (h : heap) nd n p last,
     verify_children fuel h nd n p last = Done 0 ->
     exists s, repr h (Some nd) (succ_level (group_level n)) last p s).
Proof.
  induction fuel as [|f [IHn IHc]]; [split; intros; discriminate|].
  split.
  - intros h nd H. rewrite profile_verify_node_S in H.
    unfold load in H. destruct (h !! nd) as [n|] eqn:Hn; [|done].
    cbn [bind] in H.
    destruct (magic n =? PROF_MAGIC_NODE) eqn:Hm; [|done]. cbn [negb] in H.
    destruct (has_value n && bool_decide (first_child n <> None)) eqn:Hv;
      [done|].
    destruct (IHc _ _ _ _ _ H) as (c & Hc).
    exists n, c. repeat split; [lia|..|done].
    intros Hval. rewrite Hval in Hv. simpl in Hv.
    apply bool_decide_eq_false_1 in Hv.
    destruct (first_child n); [|done]. by destruct Hv.
  - intros h nd n p last H. destruct p as [a|]; [|by exists Leaf].
    rewrite verify_children_Some in H.
    unfold load at 1 in H. destruct (h !! a) as [pn|] eqn:Ha; [|done].
    cbn [bind] in H.
    destruct (bool_decide (prev pn = last)) eqn:Hprev; [|done].
    apply bool_decide_eq_true_1 in Hprev. cbn [negb] in H.
    bind_inv H. clear E.
    destruct (bool_decide (a0 = Some a)); [|done]. cbn [negb] in H.
    destruct (succ_level (group_level n) =? group_level pn) eqn:Hlvl; [|done].
    apply Z.eqb_eq in Hlvl. cbn [negb] in H.
    destruct (bool_decide (parent pn = Some nd)) eqn:Hpar; [|done].
    apply bool_decide_eq_true_1 in Hpar. cbn [negb] in H.
    bind_inv H.
    destruct (a1 =? 0) eqn:Hz; cbn [negb] in H;
      [|injection H as ->; done].
    assert (a1 = 0) as -> by lia.
    destruct (IHn _ _ E) as (n' & c & Ha' & Hm & Hval & Hc).
    assert (n' = pn) as -> by congruence.
    destruct (IHc _ _ _ _ _ H) as (sb & Hsb).
    exists (Nd a (item_of pn) c sb). simpl. split; [done|].
    exists pn. repeat split; try done. by rewrite Hlvl.
Qed.

(** The shape hanging from a pointer is fixed by the heap. *)
Lemma repr_shape_eq s1 : forall (h : heap) par lvl prv par' lvl' prv' p s2,
  repr h par lvl prv p s1 -> repr h par' lvl' prv' p s2 -> s1 = s2.
Proof.
  induction s1 as [|x d c IHc sb IHsb];
    intros h par lvl prv par' lvl' prv' p s2 H1 H2;
    destruct s2 as [|x' d' c' sb']; simpl in H1, H2.
  - done.
  - destruct H2 as (-> & _). done.
  - destruct H1 as (-> & _). done.
  - destruct H1 as (-> & n & Hx & _ & Hd & Hc & Hsb).
    destruct H2 as (Hxx & n' & Hx' & _ & Hd' & Hc' & Hsb').
    injection Hxx as <-. assert (n' = n) as -> by congruence.
    rewrite <- Hd, <- Hd'. f_equal; [by eapply IHc|by eapply IHsb].
Qed.

(** Every location of a sibling list heads a part of it. *)
Lemma repr_sub s : forall (h : heap) par lvl prv p y,
  repr h par lvl prv p s -> y ∈ locs s ->
  exists par' lvl' prv' s',
    repr h par' lvl' prv' (Some y) s' /\ (weight s' <= weight s)%nat.
Proof.
  induction s as [|x d c IHc sb IHsb]; intros h par lvl prv p y H Hy;
    simpl in Hy.
  - by apply elem_of_nil in Hy.
  - pose proof H as (-> & n & Hx & _ & _ & Hc & Hsb).
    apply elem_of_cons in Hy as [->|Hy].
    { by exists par, lvl, prv, (Nd x d c sb). }
    apply elem_of_app in Hy as [Hy|Hy].
    + destruct (IHc _ _ _ _ _ _ Hc Hy) as (par' & lvl' & prv' & s' & Hs' & Hw).
      exists par', lvl', prv', s'. split; [done|]. simpl. lia.
    + destruct (IHsb _ _ _ _ _ _ Hsb Hy) as (par' & lvl' & prv' & s' & Hs' & Hw).
      exists par', lvl', prv', s'. split; [done|]. simpl. lia.
Qed.

(** A node does not occur among its own descendants. *)
Lemma parent_not_in_kids (h : heap) x nx par lvl prv c :
  h !! x = Some nx -> repr h par lvl prv (first_child nx) c -> x ∉ locs c.
Proof.
  intros Hx Hc Hin.
  destruct (repr_sub _ _ _ _ _ _ _ Hc Hin) as (par' & lvl' & prv' & s' & Hs' & Hw).
  destruct s' as [|x' d' c' sb']; simpl in Hs'; [discriminate Hs'|].
  destruct Hs' as ([= <-] & n' & Hx' & _ & _ & Hc' & _).
  assert (n' = nx) as -> by congruence.
  pose proof (repr_shape_eq _ _ _ _ _ _ _ _ _ _ Hc Hc') as ->.
  simpl in Hw. lia.
Qed.

(** The head of a sibling list does not occur behind itself. *)
Lemma head_not_in_tail (h : heap) par lvl prv p x d c sb :
  repr h par lvl prv p (Nd x d c sb) -> x ∉ locs sb.
Proof.
  intros H Hin. pose proof H as (-> & n & Hx & _ & _ & _ & Hsb).
  destruct (repr_sub _ _ _ _ _ _ _ Hsb Hin)
    as (par' & lvl' & prv' & s' & Hs' & Hw).
  pose proof (repr_shape_eq _ _ _ _ _ _ _ _ _ _ H Hs') as <-.
  simpl in Hw. lia.
Qed.

(** The parent of a node of a forest is the parent of the forest or a
    node of the forest. *)
Lemma repr_parent_in s : forall (h : heap) par lvl prv p y n,
  repr h par lvl prv p s -> y ∈ locs s -> h !! y = Some n ->
  parent n = par \/ exists m, parent n = Some m /\ m ∈ locs s.
Proof.
  induction s as [|x d c IHc sb IHsb]; intros h par lvl prv p y n H Hy Hn;
    simpl in H, Hy.
  - by apply elem_of_nil in Hy.
  - destruct H as (-> & nx & Hx & (_ & Hp & _) & _ & Hc & Hsb).
    apply elem_of_cons in Hy as [->|Hy]; [left; congruence|].
    apply elem_of_app in Hy as [Hy|Hy].
    + destruct (IHc _ _ _ _ _ _ _ Hc Hy Hn) as [Hq|(m & Hq & Hm)].
      * right. exists x. split; [done|]. simpl. set_solver.
      * right. exists m. split; [done|]. simpl. set_solver.
    + destruct (IHsb _ _ _ _ _ _ _ Hsb Hy Hn) as [Hq|(m & Hq & Hm)];
        [by left|].
      right. exists m. split; [done|]. simpl. set_solver.
Qed.

(** The descendants of [px] stay clear of a set [T] of nodes that is
    closed under [parent] up to the pointer [parT], when neither [px] nor
    [parT] is involved. *)
Lemma kids_apart (T : list positive) (parT : ptr) c :
  forall (h : heap) px lvl prv p,
  repr h (Some px) lvl prv p c ->
  (forall y n, y ∈ T -> h !! y = Some n ->
               parent n = parT \/ exists m, parent n = Some m /\ m ∈ T) ->
  px ∉ T -> parT <> Some px ->
  (forall u, u ∈ locs c -> parT <> Some u) ->
  forall y, y ∈ locs c -> y ∉ T.
Proof.
  induction c as [|u d cu IHc sbu IHsb]; intros h px lvl prv p H HT Hpx Hpar Hc y Hy;
    simpl in H, Hy.
  - by apply elem_of_nil in Hy.
  - destruct H as (-> & nu & Hu & (_ & Hp & _) & _ & Hcu & Hsbu).
    assert (HuT : u ∉ T).
    { intros Hin. destruct (HT u nu Hin Hu) as [Hq|(m & Hq & Hm)].
      - congruence.
      - assert (m = px) as -> by congruence. done. }
    apply elem_of_cons in Hy as [->|Hy]; [done|].
    apply elem_of_app in Hy as [Hy|Hy].
    + apply (IHc h u _ _ _ Hcu HT HuT); [|intros w Hw|done].
      * apply Hc. simpl. set_solver.
      * apply Hc. simpl. set_solver.
    + apply (IHsb h px _ _ _ Hsbu HT Hpx Hpar); [|done].
      intros w Hw. apply Hc. simpl. set_solver.
Qed.

Lemma repr_NoDup s : forall (h : heap) par lvl prv p,
  repr h par lvl prv p s ->
  (forall q, par = Some q -> q ∉ locs s) ->
  NoDup (locs s).
Proof.
  induction s as [|x d c IHc sb IHsb]; intros h par lvl prv p H Hpar.
  - constructor.
  - pose proof (head_not_in_tail _ _ _ _ _ _ _ _ _ H) as Htail.
    pose proof H as (-> & n & Hx & _ & _ & Hc & Hsb).
    pose proof (parent_not_in_kids _ _ _ _ _ _ _ Hx Hc) as Hkids.
    simpl. apply NoDup_cons. split; [set_solver|].
    apply NoDup_app. split; [|split].
    + eapply IHc; [done|]. by intros q [= <-].
    + intros y Hyc.
      apply (kids_apart (locs sb) par c h x _ _ _ Hc); try done.
      * intros z nz Hz Hnz. by eapply repr_parent_in.
      * intros ->. apply (Hpar x eq_refl). simpl. set_solver.
      * intros u Hu ->. apply (Hpar u eq_refl). simpl. set_solver.
    + eapply IHsb; [done|]. intros q Hq. specialize (Hpar q Hq).
      simpl in Hpar. set_solver.
Qed.

Lemma verify_tree (h : heap) root fuel :
  profile_verify_node fuel h root = Done 0 -> exists c, tree h root c.
Proof.
  intros H. destruct (verify_shape fuel) as [Hn _].
  destruct (Hn _ _ H) as (n & c & Hr & Hm & Hval & Hc).
  pose proof (parent_not_in_kids _ _ _ _ _ _ _ Hr Hc) as Hroot.
  exists c, n. repeat split; try done.
  apply NoDup_cons. split; [done|].
  eapply repr_NoDup; [done|]. by intros q [= <-].
Qed.

Section Mutations.

Variable malloc : heap -> option positive.
Variable malloc_bytes : nat -> bool.
Hypothesis malloc_fresh :
  forall (h : heap) l, malloc h = Some l -> h !! l = None.

Lemma profile_add_node_mono f f' (h : heap) sec nm val r :
  profile_add_node malloc malloc_bytes f h sec nm val = Done r ->
  (f <= f')%nat ->
  profile_add_node malloc malloc_bytes f' h sec nm val = Done r.
Proof.
  unfold profile_add_node. intros H Hf.
  bind_inv H. rewrite E. cbn [bind].
  destruct (negb _); [done|]. destruct (has_value a); [done|].
  bind_inv H. by rewrite (add_scan_mono _ _ _ _ _ _ _ E0 Hf).
Qed.

(** A successful insertion got its memory and was given a section. *)
Lemma profile_add_node_success fuel (h h' : heap) sec sn nm val r :
  profile_add_node malloc malloc_bytes fuel h sec nm val = Done (0, h', r) ->
  h !! sec = Some sn ->
  has_value sn = false /\ exists new, malloc h = Some new /\
    malloc_bytes (String.length nm + 1) = true /\
    (forall v, val = Some v -> malloc_bytes (String.length v + 1) = true).
Proof.
  unfold profile_add_node. intros H Hs.
  rewrite (load_Some _ _ _ Hs) in H. cbn [bind] in H.
  destruct (negb _); [done|]. destruct (has_value sn); [done|].
  split; [done|]. bind_inv H. destruct a as [p last].
  unfold profile_create_node in H.
  destruct (malloc h) as [new|]; [|done]. exists new. split; [done|].
  destruct (malloc_bytes (String.length nm + 1)); [|done]. split; [done|].
  intros v ->. cbn [negb] in H.
  by destruct (malloc_bytes (String.length v + 1)).
Qed.

(** A failed insertion changes nothing, or leaves behind the zeroed node
    it could not fill. *)
Lemma profile_add_node_outcome fuel (h h' : heap) sec nm val code r :
  profile_add_node malloc malloc_bytes fuel h sec nm val
  = Done (code, h', r) ->
  code = 0 \/ h' = h \/
  exists l, malloc h = Some l /\ h' = <[l := zero_node]> h.
Proof.
  unfold profile_add_node. intros H. bind_inv H.
  destruct (negb _); [injection H as <- <- <-; auto|].
  destruct (has_value a); [injection H as <- <- <-; auto|].
  bind_inv H. destruct a0 as [p last].
  unfold profile_create_node in H.
  destruct (malloc h) as [new|]; [|injection H as <- <- <-; auto].
  destruct (negb (malloc_bytes (String.length nm + 1)));
    [injection H as <- <- <-; eauto|].
  destruct val as [v|].
  - destruct (negb (malloc_bytes (String.length v + 1)));
      [injection H as <- <- <-; eauto|].
    bind_inv H. injection H as <- <- <-. auto.
  - bind_inv H. injection H as <- <- <-. auto.
Qed.

Lemma profile_remove_node_outcome fuel (h h' : heap) sec nm flag code :
  profile_remove_node fuel h sec nm flag = Done (code, h') ->
  code = 0 \/ h' = h.
Proof.
  unfold profile_remove_node. intros H. bind_inv H. bind_inv H.
  destruct a0; [bind_inv H|]; injection H as <- <-; auto.
Qed.

Lemma tree_alloc (h : heap) root c l n :
  tree h root c -> h !! l = None -> tree (<[l := n]> h) root c.
Proof.
  intros (rn & Hr & Hm & Hval & Hc & Hnd) Hl.
  exists rn. split; [|split; [done|split; [done|split; [|done]]]].
  - rewrite lookup_insert_ne; [done|]. congruence.
  - eapply repr_frame; [done|]. intros x Hx.
    destruct (repr_lookup _ _ _ _ _ _ _ Hc Hx) as (nx & Hnx & _).
    rewrite lookup_insert_ne; [done|]. congruence.
Qed.

(** One call of insertion or removal at a node of the tree, whatever
    status it returns. *)
Inductive mutates (root : positive) (h h' : heap) : Prop :=
| mutates_add sec nm val fuel code new :
    in_tree h root sec ->
    profile_add_node malloc malloc_bytes fuel h sec nm val
    = Done (code, h', new) ->
    mutates root h h'
| mutates_remove sec nm flag fuel code :
    in_tree h root sec ->
    profile_remove_node fuel h sec nm flag = Done (code, h') ->
    mutates root h h'.

Lemma mutates_tree (h h' : heap) root c :
  tree h root c -> mutates root h h' -> exists c', tree h' root c'.
Proof.
  intros Ht [sec nm val fuel code new Hin Hadd|sec nm flag fuel code Hin Hrem].
  - destruct (profile_add_node_outcome _ _ _ _ _ _ _ _ Hadd)
      as [->|[->|(l & Hl & ->)]]; [|by eauto|].
    2:{ exists c. apply tree_alloc; [done|]. by apply malloc_fresh. }
    pose proof (in_tree_locs _ _ _ _ Ht Hin) as Hsec.
    destruct (tree_kids_is_Some root c sec Hsec) as (cs & E).
    destruct (tree_section h root c sec cs Ht E) as (sn & Hs & _).
    destruct (profile_add_node_success _ _ _ _ _ _ _ _ Hadd Hs)
      as (Hv & new' & Hmal & Hnm & Hval).
    destruct (add_preserves_tree malloc malloc_bytes malloc_fresh h root c
                sec cs sn (Nat.max fuel (weight cs)) nm val new' Ht E Hs Hv)
      as (h3 & Eadd & Ht3); try done; [lia|].
    rewrite (profile_add_node_mono fuel _ _ _ _ _ _ Hadd) in Eadd by lia.
    injection Eadd as -> ->. eauto.
  - destruct (profile_remove_node_outcome _ _ _ _ _ _ _ Hrem) as [->| ->];
      [|by eauto].
    pose proof (in_tree_locs _ _ _ _ Ht Hin) as Hsec.
    destruct (tree_kids_is_Some root c sec Hsec) as (cs & E).
    pose proof (remove_preserves_tree h root c sec cs
                  (Nat.max fuel (weight cs)) nm flag Ht E) as H.
    rewrite (profile_remove_node_mono fuel _ _ _ _ _ _ Hrem) in H by lia.
    destruct (remove_spec nm flag cs) as [cs'|].
    + destruct H as (h3 & Erem & Ht3); [lia|]. injection Erem as ->. eauto.
    + specialize (H ltac:(lia)). discriminate.
Qed.

Lemma tree_after_mutations (h h' : heap) root c :
  tree h root c -> rtc (mutates root) h h' ->
  exists c', tree h' root c' /\
    forall fuel, (weight c' < fuel)%nat ->
                 profile_verify_node fuel h' root = Done 0.
Proof.
  intros Ht Hsteps. revert c Ht.
  induction Hsteps as [h|h h1 h2 Hstep Hsteps IH]; intros c Ht.
  - exists c. split; [done|]. intros fuel Hf. by eapply verify_tree_ok.
  - destruct (mutates_tree _ _ _ _ Ht Hstep) as (c1 & Ht1). by eapply IH.
Qed.

(** C7.  If [profile_verify_node] succeeds on a root -- the four checks
    hold throughout the tree below it: value and children exclusive,
    [prev]/[next] mutually consistent, every child one level below its
    parent, every child's [parent] pointing at the node that lists it --
    then after any finite sequence of calls of [profile_add_node] and
    [profile_remove_node] on nodes of that tree (whatever status each call
    returns), [profile_verify_node] on the root again returns 0: it does
    so for every recursion bound beyond some point. *)
Theorem verify_after_mutations (h h' : heap) root fuel0 :
  profile_verify_node fuel0 h root = Done 0 ->
  rtc (mutates root) h h' ->
  exists bound, forall fuel, (bound <= fuel)%nat ->
    profile_verify_node fuel h' root = Done 0.
Proof.
  intros Hv Hsteps. destruct (verify_tree _ _ _ Hv) as (c & Ht).
  destruct (tree_after_mutations _ _ _ _ Ht Hsteps) as (c' & _ & Hok).
  exists (S (weight c')). intros fuel Hf. apply Hok. lia.
Qed.

End Mutations.

(** * Handle validation (C8) *)

(** A section whose magic tag has been cleared, with one relation left
    below it. *)
Definition dead_section : heap :=
  <[1%positive := mk_node 0 "s"%string None 0 true (Some 2%positive)
                          (Some 9%positive) None None]>
  (<[2%positive := mk_node PROF_MAGIC_NODE "k"%string (Some "v"%string) 1 false None
                           (Some 1%positive) None None]> ∅).

(** C8, counterexample.  On a node whose magic tag is not
    [PROF_MAGIC_NODE], [profile_remove_node], [profile_get_node_parent]
    and [profile_is_node_final] read the other fields and return as for
    a live node: the first removes the relation and returns 0, the second
    returns 0 with the parent pointer, the third returns the flag. *)
Lemma unchecked_entry_points :
  (exists h', profile_remove_node 5 dead_section 1%positive "k"%string 0
              = Done (0, h') /\ h' !! 2%positive = None) /\
  profile_get_node_parent dead_section 1%positive
  = Done (0, Some 9%positive) /\
  profile_is_node_final dead_section 1%positive = Done true.
Proof.
  split; [|split; reflexivity].
  eexists. split; [vm_compute; reflexivity|]. vm_compute. reflexivity.
Qed.

Section Validation.

Variable malloc : heap -> option positive.
Variable malloc_bytes : nat -> bool.
Variable profile_update_file : world -> option nat -> Z * world.

(** C8, as the code has it.  [profile_verify_node], [profile_add_node],
    [profile_make_node_final], both scanners (for the section and for a
    non-null cursor) and [profile_node_iterator] return
    [PROF_MAGIC_NODE] / [PROF_MAGIC_ITERATOR] when the handle does not
    carry the live tag, whatever the other fields and the rest of the
    heap hold, and change nothing; [profile_free_node] and
    [profile_node_iterator_free] return without touching such an object;
    [profile_is_node_final], whose result is a plain truth value, returns
    the flag without looking at the tag. *)
Theorem magic_validated (h : heap) (x : positive) (n : profile_node)
    (f : nat) (w : world) (it : profile_iterator) :
  h !! x = Some n -> magic n <> PROF_MAGIC_NODE ->
  iter_magic it <> PROF_MAGIC_ITERATOR ->
  profile_verify_node (S f) h x = Done PROF_MAGIC_NODE /\
  (forall nm val,
      profile_add_node malloc malloc_bytes f h x nm val
      = Done (PROF_MAGIC_NODE, h, None)) /\
  profile_make_node_final h x = Done (PROF_MAGIC_NODE, h) /\
  (forall nm state,
      profile_find_node_relation f h x nm state
      = Done (PROF_MAGIC_NODE, state, None) /\
      profile_find_node_subsection f h x nm state
      = Done (PROF_MAGIC_NODE, state, None)) /\
  (forall sec sn nm,
      h !! sec = Some sn -> magic sn = PROF_MAGIC_NODE ->
      profile_find_node_relation f h sec nm (Some x)
      = Done (PROF_MAGIC_NODE, Some x, None) /\
      profile_find_node_subsection f h sec nm (Some x)
      = Done (PROF_MAGIC_NODE, Some x, None)) /\
  profile_free_node (S f) h x = Done h /\
  profile_is_node_final h x = Done (final n) /\
  profile_node_iterator profile_update_file f w (Some it)
  = Done (mk_result PROF_MAGIC_ITERATOR (Some it) None w) /\
  profile_node_iterator profile_update_file f w None
  = Done (mk_result PROF_MAGIC_ITERATOR None None w) /\
  profile_node_iterator_free (Some it) = Some it.
Proof.
  intros Hx Hm Hi.
  pose proof (magic_test_bad _ Hm) as Eb.
  assert (Ei : negb (iter_magic it =? PROF_MAGIC_ITERATOR) = true)
    by by apply negb_true_iff, Z.eqb_neq.
  repeat split.
  - by rewrite profile_verify_node_S, (load_Some _ _ _ Hx); cbn [bind];
      rewrite Eb.
  - intros nm val. unfold profile_add_node.
    rewrite (load_Some _ _ _ Hx). cbn [bind]. by rewrite Eb.
  - unfold profile_make_node_final.
    rewrite (load_Some _ _ _ Hx). cbn [bind]. by rewrite Eb.
  - unfold profile_find_node_relation.
    rewrite (load_Some _ _ _ Hx). cbn [bind]. by rewrite Eb.
  - unfold profile_find_node_subsection.
    rewrite (load_Some _ _ _ Hx). cbn [bind]. by rewrite Eb.
  - unfold profile_find_node_relation.
    rewrite (load_Some _ _ _ H). cbn [bind]. rewrite (magic_test_ok _ H0).
    rewrite (load_Some _ _ _ Hx). cbn [bind]. by rewrite Eb.
  - unfold profile_find_node_subsection.
    rewrite (load_Some _ _ _ H). cbn [bind]. rewrite (magic_test_ok _ H0).
    rewrite (load_Some _ _ _ Hx). cbn [bind]. by rewrite Eb.
  - by rewrite profile_free_node_S, (load_Some _ _ _ Hx); cbn [bind];
      rewrite Eb.
  - unfold profile_is_node_final. by rewrite (load_Some _ _ _ Hx).
  - unfold profile_node_iterator. by rewrite Ei.
  - unfold profile_node_iterator_free. by rewrite Ei.
Qed.

End Validation.

(** The routines accept the dead section of the counterexample as the
    theorem says. *)
Lemma magic_validated_witness :
  dead_section !! 1%positive
  = Some (mk_node 0 "s"%string None 0 true (Some 2%positive) (Some 9%positive)
                  None None) /\
  profile_verify_node 1 dead_section 1%positive = Done PROF_MAGIC_NODE /\
  profile_make_node_final dead_section 1%positive
  = Done (PROF_MAGIC_NODE, dead_section).
Proof.
  pose proof (magic_validated (fun _ => None) (fun _ => true)
                (fun w _ => (0, w)) dead_section 1%positive
                (mk_node 0 "s"%string None 0 true (Some 2%positive)
                         (Some 9%positive) None None)
                0%nat (mk_world ∅ [])
                (mk_iter 0 (mk_profile 0 None) 0 [] None None 0 0 None 0)
                eq_refl) as H.
  destruct H as (Hv & _ & Hf & _).
  - discriminate.
  - discriminate.
  - split; [reflexivity|]. split; [exact Hv|exact Hf].
Defined.

(** * The merge iterator *)

Section IteratorFacts.

Variable profile_update_file : world -> option nat -> Z * world.

Local Notation pass := (get_new_file_pass profile_update_file).
Local Notation gnf := (get_new_file profile_update_file).
Local Notation advance := (profile_node_iterator profile_update_file).

Lemma get_new_file_S f inner w it skip_num :
  gnf (S f) inner w it skip_num =
  let* j := pass inner w it skip_num in
  match j with
  | Again w' it' skip' => gnf f inner w' it' skip'
  | Return r => Done r
  end.
Proof. reflexivity. Qed.


Lemma free_live it :
  iter_magic it = PROF_MAGIC_ITERATOR ->
  profile_node_iterator_free (Some it) = None.
Proof. unfold profile_node_iterator_free. intros ->. reflexivity. Qed.




End IteratorFacts.

(** * Sibling lists as sequences *)

(** The entries of a sibling list, in link order. *)
Fixpoint sibs (s : shape) : list (positive * item) :=
  match s with
  | Leaf => []
  | Nd x d _ sb => (x, d) :: sibs sb
  end.

Lemma sibs_weight s : (length (sibs s) < weight s)%nat.
Proof. induction s as [|x d c IHc sb IHsb]; simpl; lia. Qed.

Lemma sibs_locs s e : e ∈ sibs s -> e.1 ∈ locs s.
Proof.
  induction s as [|x d c IHc sb IHsb]; simpl; [by intros ?%elem_of_nil|].
  intros [->|He]%elem_of_cons; simpl; set_solver.
Qed.

(** A search loop returns the first entry that passes its test. *)
Lemma find_node_spec s :
  forall (h : heap) par lvl prv p fuel cond (condi : item -> bool),
  (forall n, cond n = condi (item_of n)) ->
  repr h par lvl prv p s -> (length (sibs s) <= fuel)%nat ->
  find_node fuel h cond p
  = Done (fst <$> head (List.filter (fun e => condi e.2) (sibs s))).
Proof.
  induction s as [|x d c IHc sb IHsb];
    intros h par lvl prv p fuel cond condi Hcond H Hf; simpl in H, Hf.
  - subst p. by destruct fuel.
  - destruct H as (-> & n & Hx & Hok & Hd & Hc & Hsb).
    destruct fuel as [|f]; [lia|]. cbn [find_node sibs List.filter].
    rewrite (load_Some _ _ _ Hx). cbn [bind]. rewrite Hcond, Hd. simpl.
    destruct (condi d); [done|].
    apply (IHsb h par lvl (Some x)); [done|done|lia].
Qed.

(** The node of the first entry that passes a test, and the list behind
    it. *)
Lemma repr_filter_head s : forall (h : heap) par lvl prv p P a d rest,
  repr h par lvl prv p s ->
  List.filter P (sibs s) = (a, d) :: rest ->
  exists n c s2,
    h !! a = Some n /\ node_ok par lvl (prev n) n /\ item_of n = d /\
    repr h (Some a) (succ_level lvl) None (first_child n) c /\
    repr h par lvl (Some a) (next n) s2 /\
    List.filter P (sibs s2) = rest /\
    (weight c + weight s2 < weight s)%nat /\
    (forall y, y ∈ locs s2 -> y ∈ locs s) /\ a ∈ locs s.
Proof.
  induction s as [|x dx c IHc sb IHsb]; intros h par lvl prv p P a d rest H E;
    simpl in H, E; [done|].
  destruct H as (-> & n & Hx & Hok & Hd & Hc & Hsb).
  destruct (P (x, dx)) eqn:EP.
  - injection E as -> -> <-. exists n, c, sb.
    split; [done|]. split.
    { destruct Hok as (? & ? & ? & <- & ?). by repeat split. }
    split; [done|]. split; [done|]. split; [done|]. split; [done|].
    split; [simpl; lia|]. split; simpl; set_solver.
  - destruct (IHsb h par lvl (Some x) (next n) P a d rest Hsb E)
      as (n' & c' & s2 & ? & ? & ? & ? & ? & ? & ? & ? & ?).
    exists n', c', s2. split; [done|]. split; [done|]. split; [done|].
    split; [done|]. split; [done|]. split; [done|].
    split; [simpl; lia|]. split; simpl; set_solver.
Qed.

Lemma strcmp_eq a b : strcmp a b = 0 <-> a = b.
Proof.
  unfold strcmp. rewrite <- String_as_OT.cmp_eq. unfold String_as_OT.cmp.
  destruct (String.compare a b); split; (done || lia).
Qed.

Lemma strcmp_gt a b : strcmp a b > 0 <-> String_as_OT.lt b a.
Proof.
  rewrite <- String_as_OT.cmp_lt, (String_as_OT.cmp_antisym b a).
  unfold strcmp, String_as_OT.cmp.
  destruct (String.compare a b); simpl; split; (done || lia).
Qed.

Lemma strcmp_le a b : strcmp a b <= 0 <-> a = b \/ String_as_OT.lt a b.
Proof.
  rewrite <- String_as_OT.cmp_lt, <- String_as_OT.cmp_eq.
  unfold strcmp, String_as_OT.cmp.
  destruct (String.compare a b); simpl; split; try (tauto || lia).
  intros [|]; discriminate.
Qed.

Lemma strcmp_gt_le_trans a b nm :
  strcmp a nm > 0 -> strcmp a b <= 0 -> strcmp b nm > 0.
Proof.
  rewrite !strcmp_gt, strcmp_le. intros Hlt [<-|Hab]; [done|].
  by eapply String_as_OT.lt_trans.
Qed.

Lemma strcmp_le_gt_trans a b nm :
  strcmp a nm <= 0 -> strcmp b nm > 0 -> strcmp a b <= 0.
Proof.
  rewrite strcmp_gt, !strcmp_le. intros [->|Ha] Hb; right; [done|].
  by eapply String_as_OT.lt_trans.
Qed.

(** The children of a section as the C code sees them: the chain of
    [next] pointers from [first_child].  A chain without repetition is no
    longer than the heap is large. *)
Fixpoint walk (fuel : nat) (h : heap) (p : ptr) : list (positive * item) :=
  match fuel, p with
  | S f, Some a =>
    match h !! a with
    | Some n => (a, item_of n) :: walk f h (next n)
    | None => []
    end
  | _, _ => []
  end.

Definition children (h : heap) (sec : positive) : list (positive * item) :=
  match h !! sec with
  | Some n => walk (size h) h (first_child n)
  | None => []
  end.

Lemma repr_walk s : forall (h : heap) par lvl prv p fuel,
  repr h par lvl prv p s -> (length (sibs s) <= fuel)%nat ->
  walk fuel h p = sibs s.
Proof.
  induction s as [|x d c IHc sb IHsb]; intros h par lvl prv p fuel H Hf;
    simpl in H, Hf.
  - subst p. by destruct fuel.
  - destruct H as (-> & n & Hx & Hok & Hd & Hc & Hsb).
    destruct fuel as [|f]; [lia|]. simpl. rewrite Hx, Hd. f_equal.
    apply (IHsb h par lvl (Some x)); [done|lia].
Qed.

Lemma sibs_length_locs s : (length (sibs s) <= length (locs s))%nat.
Proof.
  induction s as [|x d c IHc sb IHsb]; simpl; [done|].
  rewrite length_app. lia.
Qed.

Lemma locs_length_size (h : heap) par lvl prv p s :
  repr h par lvl prv p s -> NoDup (locs s) ->
  (length (locs s) <= size h)%nat.
Proof.
  intros Hr Hnd. rewrite <- size_dom, <- (size_list_to_set (C := gset positive))
    by done.
  apply subseteq_size. intros y Hy. apply elem_of_list_to_set in Hy.
  destruct (repr_lookup h s _ _ _ _ y Hr Hy) as (n & Hn & _).
  apply elem_of_dom. by exists n.
Qed.

Lemma repr_children (h : heap) sec sn cs :
  h !! sec = Some sn ->
  repr h (Some sec) (succ_level (group_level sn)) None (first_child sn) cs ->
  NoDup (locs cs) ->
  children h sec = sibs cs.
Proof.
  intros Hs Hr Hnd. unfold children. rewrite Hs.
  apply (repr_walk cs h _ _ _ _ _ Hr).
  pose proof (sibs_length_locs cs).
  pose proof (locs_length_size _ _ _ _ _ _ Hr Hnd). lia.
Qed.

(** * Where an insertion lands (C5) *)

Definition name_le (e1 e2 : positive * item) : Prop :=
  strcmp (item_name e1.2) (item_name e2.2) <= 0.

Lemma insert_sib_split new d s :
  exists l1 l2,
    sibs s = l1 ++ l2 /\
    sibs (insert_sib new d s) = l1 ++ (new, d) :: l2 /\
    Forall (fun e => strcmp (item_name e.2) (item_name d) <= 0) l1 /\
    (forall e, head l2 = Some e -> strcmp (item_name e.2) (item_name d) > 0).
Proof.
  induction s as [|x dx c IHc sb IHsb]; simpl.
  - exists [], []. by repeat split.
  - destruct (strcmp (item_name dx) (item_name d) >? 0) eqn:E.
    + exists [], ((x, dx) :: sibs sb). repeat split; try done.
      intros e [= <-]. simpl. lia.
    + destruct IHsb as (l1 & l2 & E1 & E2 & Hl1 & Hl2).
      exists ((x, dx) :: l1), l2. simpl. rewrite E1, E2.
      repeat split; try done. apply Forall_cons. split; [simpl; lia|done].
Qed.

Lemma sorted_tail_gt l1 l2 nm :
  StronglySorted name_le (l1 ++ l2) ->
  (forall e, head l2 = Some e -> strcmp (item_name e.2) nm > 0) ->
  Forall (fun e => strcmp (item_name e.2) nm > 0) l2.
Proof.
  intros Hs Hh. induction l1 as [|e1 l1 IH].
  - simpl in Hs. destruct l2 as [|e l2]; [done|].
    apply StronglySorted_inv in Hs as [_ Hall].
    specialize (Hh e eq_refl). apply Forall_cons. split; [done|].
    eapply Forall_impl; [exact Hall|]. intros e' Hle.
    by eapply strcmp_gt_le_trans.
  - apply IH. simpl in Hs. by apply StronglySorted_inv in Hs as [? _].
Qed.

Lemma strcmp_gt_flip a b : strcmp a b > 0 -> strcmp b a <= 0.
Proof. rewrite strcmp_gt, strcmp_le. tauto. Qed.

Lemma sorted_insert l1 l2 e :
  StronglySorted name_le (l1 ++ l2) ->
  Forall (fun e1 => name_le e1 e) l1 ->
  Forall (fun e2 => strcmp (item_name e2.2) (item_name e.2) > 0) l2 ->
  StronglySorted name_le (l1 ++ e :: l2).
Proof.
  rewrite !StronglySorted_app, !Forall_forall. intros (H12 & H1 & H2) Hl1 Hl2.
  split; [|split; [done|]].
  - intros x1 x2 Hx1 [->|Hx2]%elem_of_cons; [by apply Hl1|by apply H12].
  - apply StronglySorted_cons. split; [|done].
    apply Forall_forall. intros x2 Hx2. by apply strcmp_gt_flip, Hl2.
Qed.

(** An allocator for the examples: the least location not in use. *)
Definition bump_alloc (h : heap) : option positive := Some (fresh (dom h)).

Lemma bump_alloc_fresh (h : heap) l : bump_alloc h = Some l -> h !! l = None.
Proof.
  intros [= <-]. apply not_elem_of_dom, is_fresh.
Qed.

Lemma insert_sib_new_node s : forall (h : heap) par lvl prv p new d,
  repr h par lvl prv p (insert_sib new d s) ->
  exists nn, h !! new = Some nn /\ parent nn = par /\ group_level nn = lvl /\
    item_of nn = d /\ first_child nn = None.
Proof.
  induction s as [|x dx c IHc sb IHsb]; intros h par lvl prv p new d Hr;
    cbn [insert_sib] in Hr.
  - destruct Hr as (_ & n & Hn & (? & ? & ? & ? & ?) & Hd & Hc & _).
    exists n. simpl in Hc. by repeat split.
  - destruct (strcmp (item_name dx) (item_name d) >? 0).
    + destruct Hr as (_ & n & Hn & (? & ? & ? & ? & ?) & Hd & Hc & _).
      exists n. simpl in Hc. by repeat split.
    + destruct Hr as (_ & n & Hn & Hok & Hd & Hc & Hsb). by eapply IHsb.
Qed.

Lemma succ_level_in_range l :
  INT_MIN <= l < INT_MAX -> succ_level l = l + 1.
Proof.
  unfold succ_level, int_wrap, INT_MIN, INT_MAX. intros Hl.
  rewrite Z.mod_small by lia. lia.
Qed.

(** ** Name order

    [profile_add_node] is the only function that links a node into a
    sibling list, and it keeps the list in name order.  [ordered] says
    that every sibling list of a shape is in name order. *)
Fixpoint ordered (s : shape) : Prop :=
  match s with
  | Leaf => True
  | Nd x d c sb => Forall (name_le (x, d)) (sibs sb) /\ ordered c /\ ordered sb
  end.

Lemma strcmp_le_trans a b c :
  strcmp a b <= 0 -> strcmp b c <= 0 -> strcmp a c <= 0.
Proof.
  rewrite !strcmp_le. intros [->|Hab] [->|Hbc]; auto.
  right. by eapply String_as_OT.lt_trans.
Qed.

Lemma ordered_sorted s : ordered s -> StronglySorted name_le (sibs s).
Proof.
  induction s as [|x d c _ sb IH]; simpl; [constructor|].
  intros (Hall & _ & Hsb). apply StronglySorted_cons. split; [done|].
  by apply IH.
Qed.

Lemma insert_sib_sibs new d s e :
  e ∈ sibs (insert_sib new d s) -> e = (new, d) \/ e ∈ sibs s.
Proof.
  induction s as [|x dx c _ sb IH]; simpl.
  - set_solver.
  - destruct (_ >? 0); simpl; [set_solver|].
    intros [->|He]%elem_of_cons; [set_solver|].
    destruct (IH He); [by left|set_solver].
Qed.

Lemma ordered_insert_sib new d s :
  ordered s -> ordered (insert_sib new d s).
Proof.
  induction s as [|x dx c _ sb IH]; simpl; [done|].
  intros (Hall & Hc & Hsb).
  destruct (strcmp (item_name dx) (item_name d) >? 0) eqn:E; simpl.
  - repeat split; try done. apply Forall_cons. split.
    + unfold name_le. simpl. apply strcmp_gt_flip. lia.
    + eapply Forall_impl; [exact Hall|]. intros e He.
      unfold name_le in *. simpl in *.
      eapply strcmp_le_trans; [|exact He]. apply strcmp_gt_flip. lia.
  - repeat split; [|done|by apply IH].
    apply Forall_forall. intros e He.
    apply insert_sib_sibs in He as [->|He].
    + unfold name_le. simpl. lia.
    + rewrite Forall_forall in Hall. by apply Hall.
Qed.

Lemma remove_run_in nm flag s e :
  e ∈ sibs (remove_run nm flag s) -> e ∈ sibs s.
Proof.
  induction s as [|x d c _ sb IH]; simpl; [done|].
  destruct (negb _); [done|]. destruct (_ || _); simpl; set_solver.
Qed.

Lemma ordered_remove_run nm flag s :
  ordered s -> ordered (remove_run nm flag s).
Proof.
  induction s as [|x d c _ sb IH]; simpl; [done|].
  intros (Hall & Hc & Hsb). destruct (negb _); [done|].
  destruct (_ || _); simpl; [|by apply IH].
  repeat split; [|done|by apply IH].
  apply Forall_forall. intros e He%remove_run_in.
  rewrite Forall_forall in Hall. by apply Hall.
Qed.

Lemma remove_spec_in nm flag s s' e :
  remove_spec nm flag s = Some s' -> e ∈ sibs s' -> e ∈ sibs s.
Proof.
  revert s'. induction s as [|x d c _ sb IH]; intros s'; cbn [remove_spec];
    [done|].
  destruct (is_target nm d).
  - intros [= <-]. apply (remove_run_in nm flag (Nd x d c sb)).
  - destruct (remove_spec nm flag sb) as [sb'|]; [|done].
    intros [= <-]. specialize (IH sb' eq_refl). simpl. set_solver.
Qed.

Lemma ordered_remove_spec nm flag s s' :
  remove_spec nm flag s = Some s' -> ordered s -> ordered s'.
Proof.
  revert s'. induction s as [|x d c _ sb IH]; intros s'; cbn [remove_spec];
    [done|].
  destruct (is_target nm d).
  - intros [= <-]. apply (ordered_remove_run nm flag (Nd x d c sb)).
  - destruct (remove_spec nm flag sb) as [sb'|] eqn:E; [|done].
    intros [= <-] (Hall & Hc & Hsb). simpl.
    repeat split; [|done|by apply IH].
    apply Forall_forall. intros e He.
    rewrite Forall_forall in Hall. apply Hall.
    by eapply remove_spec_in.
Qed.

Lemma ordered_kids_of sec s cs :
  kids_of sec s = Some cs -> ordered s -> ordered cs.
Proof.
  revert cs. induction s as [|x d c IHc sb IHsb]; simpl; intros cs; [done|].
  intros E (Hall & Hc & Hsb). destruct (decide (x = sec)).
  - by injection E as <-.
  - destruct (kids_of sec c) as [r|].
    + injection E as <-. by apply IHc.
    + by apply IHsb.
Qed.

Lemma sibs_update_kids sec c' s : sibs (update_kids sec c' s) = sibs s.
Proof.
  induction s as [|x d c _ sb IH]; simpl; [done|].
  destruct (decide (x = sec)); simpl; [done|]. by f_equal.
Qed.

Lemma ordered_update_kids sec c' s :
  ordered s -> ordered c' -> ordered (update_kids sec c' s).
Proof.
  intros Hs Hc'. induction s as [|x d c IHc sb IHsb]; simpl; [done|].
  destruct Hs as (Hall & Hc & Hsb). destruct (decide (x = sec)); simpl.
  - by repeat split.
  - rewrite sibs_update_kids. repeat split; [done|by apply IHc|by apply IHsb].
Qed.

Lemma ordered_tree_kids root c sec cs :
  tree_kids root c sec = Some cs -> ordered c -> ordered cs.
Proof.
  unfold tree_kids. destruct (decide (sec = root)).
  - by intros [= <-].
  - apply ordered_kids_of.
Qed.

Lemma ordered_tree_update root c sec cs' :
  ordered c -> ordered cs' -> ordered (tree_update root c sec cs').
Proof.
  unfold tree_update. destruct (decide (sec = root)); [done|].
  apply ordered_update_kids.
Qed.

Section InsertPosition.

Variable malloc : heap -> option positive.
Variable malloc_bytes : nat -> bool.
Hypothesis malloc_fresh :
  forall (h : heap) l, malloc h = Some l -> h !! l = None.

(** One call of [profile_add_node] or [profile_remove_node] keeps the
    sibling lists of a tree in name order. *)
Lemma mutates_ordered (h h' : heap) root c :
  tree h root c -> ordered c -> mutates malloc malloc_bytes root h h' ->
  exists c', tree h' root c' /\ ordered c'.
Proof.
  intros Ht Ho [sec nm val fuel code new Hin Hadd|sec nm flag fuel code Hin Hrem].
  - destruct (profile_add_node_outcome _ _ _ _ _ _ _ _ _ _ Hadd)
      as [->|[->|(l & Hl & ->)]]; [|by eauto|].
    2:{ exists c. split; [|done]. apply tree_alloc; [done|].
        by apply malloc_fresh. }
    pose proof (in_tree_locs _ _ _ _ Ht Hin) as Hsec.
    destruct (tree_kids_is_Some root c sec Hsec) as (cs & E).
    destruct (tree_section h root c sec cs Ht E) as (sn & Hs & _).
    destruct (profile_add_node_success _ _ _ _ _ _ _ _ _ _ Hadd Hs)
      as (Hv & new' & Hmal & Hnm & Hval).
    destruct (add_preserves_tree malloc malloc_bytes malloc_fresh h root c
                sec cs sn (Nat.max fuel (weight cs)) nm val new' Ht E Hs Hv)
      as (h3 & Eadd & Ht3); try done; [lia|].
    rewrite (profile_add_node_mono _ _ fuel _ _ _ _ _ _ Hadd) in Eadd by lia.
    injection Eadd as -> ->. eexists. split; [done|].
    apply ordered_tree_update; [done|]. apply ordered_insert_sib.
    by eapply ordered_tree_kids.
  - destruct (profile_remove_node_outcome _ _ _ _ _ _ _ Hrem) as [->| ->];
      [|by eauto].
    pose proof (in_tree_locs _ _ _ _ Ht Hin) as Hsec.
    destruct (tree_kids_is_Some root c sec Hsec) as (cs & E).
    pose proof (remove_preserves_tree h root c sec cs
                  (Nat.max fuel (weight cs)) nm flag Ht E) as H.
    rewrite (profile_remove_node_mono fuel _ _ _ _ _ _ Hrem) in H by lia.
    destruct (remove_spec nm flag cs) as [cs'|] eqn:Espec.
    + destruct H as (h3 & Erem & Ht3); [lia|]. injection Erem as ->.
      eexists. split; [done|].
      apply ordered_tree_update; [done|].
      eapply ordered_remove_spec; [done|]. by eapply ordered_tree_kids.
    + specialize (H ltac:(lia)). discriminate.
Qed.

(** The children of every node are in name order in every tree that is
    built by calls of [profile_add_node] and [profile_remove_node]:
    from a root without children ([c0] is [Leaf]), or from any tree in
    name order. *)
Lemma children_in_name_order (h0 h : heap) root c0 sec :
  tree h0 root c0 -> ordered c0 ->
  rtc (mutates malloc malloc_bytes root) h0 h ->
  in_tree h root sec ->
  StronglySorted name_le (children h sec).
Proof.
  intros Ht Ho Hsteps Hin.
  assert (Hc : exists c, tree h root c /\ ordered c).
  { clear Hin. revert c0 Ht Ho.
    induction Hsteps as [h|h h1 h2 Hstep Hsteps IH]; intros c0 Ht Ho;
      [by eauto|].
    destruct (mutates_ordered _ _ _ _ Ht Ho Hstep) as (c1 & Ht1 & Ho1).
    by eapply IH. }
  destruct Hc as (c & Htc & Hoc).
  pose proof (in_tree_locs _ _ _ _ Htc Hin) as Hsec.
  destruct (tree_kids_is_Some root c sec Hsec) as (cs & E).
  destruct (tree_section h root c sec cs Htc E)
    as (sn & Hs & _ & _ & Hr & Hnd).
  rewrite (repr_children h sec sn cs Hs Hr)
    by by apply NoDup_cons in Hnd as [_ ?].
  apply ordered_sorted. by eapply ordered_tree_kids.
Qed.

(** Where the new child lands whatever the order of the children: right
    before the first child whose name is strictly greater than the new
    name (at the end when there is none), so every child before it has a
    name that is equal or smaller. *)
Lemma add_node_before_first_greater (h : heap) sec sn cs fuel nm val new :
  h !! sec = Some sn -> magic sn = PROF_MAGIC_NODE -> has_value sn = false ->
  repr h (Some sec) (succ_level (group_level sn)) None (first_child sn) cs ->
  NoDup (sec :: locs cs) -> (weight cs <= fuel)%nat ->
  malloc h = Some new ->
  malloc_bytes (String.length nm + 1) = true ->
  (forall v, val = Some v -> malloc_bytes (String.length v + 1) = true) ->
  exists (h' : heap) l1 l2 nn,
    profile_add_node malloc malloc_bytes fuel h sec nm val
    = Done (0, h', Some new) /\
    children h sec = l1 ++ l2 /\
    children h' sec = l1 ++ (new, mk_item nm val false) :: l2 /\
    Forall (fun e => strcmp (item_name e.2) nm <= 0) l1 /\
    (forall e, head l2 = Some e -> strcmp (item_name e.2) nm > 0) /\
    h' !! new = Some nn /\
    group_level nn = succ_level (group_level sn) /\ parent nn = Some sec /\
    name nn = nm /\ value nn = val /\ first_child nn = None.
Proof.
  intros Hs Hm Hv Hr Hnd Hf Hmal Hnm Hval.
  destruct (profile_add_node_kids malloc malloc_bytes malloc_fresh
              h sec sn cs fuel nm val new)
    as (h3 & p' & Eadd & Hs3 & Hr3 & Hout); try done.
  pose proof (malloc_fresh _ _ Hmal) as Hnew.
  assert (Hndc : NoDup (locs cs)) by by apply NoDup_cons in Hnd as [_ ?].
  assert (Hnewc : new ∉ locs cs).
  { intros Hin. destruct (repr_lookup h cs _ _ _ _ new Hr Hin) as (? & ? & _).
    congruence. }
  set (d := mk_item nm val false) in *.
  destruct (insert_sib_split new d cs) as (l1 & l2 & E1 & E2 & Hl1 & Hl2).
  assert (Hch : children h sec = sibs cs) by by eapply repr_children.
  assert (Hch3 : children h3 sec = sibs (insert_sib new d cs)).
  { apply (repr_children h3 sec (set_first_child p' sn)); [done| |].
    - by destruct sn.
    - by apply insert_sib_NoDup. }
  destruct (insert_sib_new_node cs h3 _ _ _ _ new d Hr3)
    as (nn & Hnn & Hpar & Hlvl & Hd & Hfc).
  exists h3, l1, l2, nn. rewrite Hch, Hch3.
  split; [done|]. split; [done|]. split; [done|]. split; [done|].
  split; [done|]. split; [done|]. split; [done|]. split; [done|].
  assert (name nn = item_name d) as -> by by rewrite <- Hd.
  assert (value nn = item_value d) as -> by by rewrite <- Hd.
  done.
Qed.

(** C5.  Take a live section whose children form a well-formed sibling
    list in name order -- as they are in every tree built by
    [profile_add_node] and [profile_remove_node], see
    [children_in_name_order].  A call of [profile_add_node] that gets its
    memory returns 0 and links the new child between [l1] and [l2], where
    [l1 ++ l2] are the children there were: every child in [l1] has a name
    that equals or precedes the new name, every child in [l2] a name that
    is strictly greater.  So the new child stands right behind the last
    child whose name equals or precedes its own -- behind the children of
    the same name that were there before -- and right before the first
    child whose name is greater, and the children are in name order
    again.  The new child has the section as parent and the section's
    level plus one as level: [succ_level] is the addition of the C type
    [int], which is [+ 1] for every level below [INT_MAX]. *)
Theorem add_node_position (h : heap) sec sn cs fuel nm val new :
  h !! sec = Some sn -> magic sn = PROF_MAGIC_NODE -> has_value sn = false ->
  repr h (Some sec) (succ_level (group_level sn)) None (first_child sn) cs ->
  NoDup (sec :: locs cs) -> (weight cs <= fuel)%nat ->
  StronglySorted name_le (children h sec) ->
  malloc h = Some new ->
  malloc_bytes (String.length nm + 1) = true ->
  (forall v, val = Some v -> malloc_bytes (String.length v + 1) = true) ->
  exists (h' : heap) l1 l2 nn,
    profile_add_node malloc malloc_bytes fuel h sec nm val
    = Done (0, h', Some new) /\
    children h sec = l1 ++ l2 /\
    children h' sec = l1 ++ (new, mk_item nm val false) :: l2 /\
    Forall (fun e => strcmp (item_name e.2) nm <= 0) l1 /\
    Forall (fun e => strcmp (item_name e.2) nm > 0) l2 /\
    StronglySorted name_le (children h' sec) /\
    h' !! new = Some nn /\
    group_level nn = succ_level (group_level sn) /\
    (INT_MIN <= group_level sn < INT_MAX ->
     group_level nn = group_level sn + 1) /\
    parent nn = Some sec /\
    name nn = nm /\ value nn = val /\ first_child nn = None.
Proof.
  intros Hs Hm Hv Hr Hnd Hf Hsorted Hmal Hnm Hval.
  destruct (add_node_before_first_greater h sec sn cs fuel nm val new)
    as (h' & l1 & l2 & nn & Eadd & E1 & E2 & Hl1 & Hl2 & Hnn & Hlvl & Hrest);
    try done.
  rewrite E1 in Hsorted.
  pose proof (sorted_tail_gt l1 l2 nm Hsorted Hl2) as Hgt.
  exists h', l1, l2, nn.
  split; [done|]. split; [done|]. split; [done|]. split; [done|].
  split; [done|]. split.
  { rewrite E2. by apply sorted_insert. }
  split; [done|]. split; [done|]. split; [|done].
  intros Hrange. rewrite Hlvl. by apply succ_level_in_range.
Qed.

End InsertPosition.

(** A section with no children yet, at location 1. *)
Definition empty_section : heap :=
  <[1%positive := mk_node PROF_MAGIC_NODE "top"%string None 0 false
                          None None None None]> ∅.

Definition add_named (h : heap) (nm : string) : heap :=
  match profile_add_node bump_alloc (fun _ => true) 8 h 1%positive nm None
  with
  | Done (_, h', _) => h'
  | _ => h
  end.

(** C5, the example: inserting b, a, b, c under an empty section gives the
    order a, b, b, c, the first inserted b (location 2) before the second
    (location 4). *)
Example insert_b_a_b_c :
  children (add_named (add_named (add_named (add_named empty_section
              "b"%string) "a"%string) "b"%string) "c"%string) 1%positive
  = [(3%positive, mk_item "a"%string None false);
     (2%positive, mk_item "b"%string None false);
     (4%positive, mk_item "b"%string None false);
     (5%positive, mk_item "c"%string None false)].
Proof. vm_compute. reflexivity. Qed.

(** The level of a child of a section at level [INT_MAX]: the addition
    wraps around. *)
Example level_wraps : succ_level INT_MAX = INT_MIN.
Proof. reflexivity. Qed.

(** * Removal: when it reports not-found (C2) and what it removes (C3) *)

Lemma is_target_iff nm d :
  is_target nm d = true <-> item_name d = nm /\ item_value d <> None.
Proof.
  unfold is_target, item_has_value. rewrite andb_true_iff, Z.eqb_eq, strcmp_eq.
  destruct (item_value d); split; intros [? ?]; (done || by split).
Qed.

Lemma remove_spec_None nm flag s :
  remove_spec nm flag s = None <->
  forall e, e ∈ sibs s -> ~ (item_name e.2 = nm /\ item_value e.2 <> None).
Proof.
  induction s as [|x d c IHc sb IHsb]; simpl.
  - split; [|done]. intros _ e He. by apply elem_of_nil in He.
  - destruct (is_target nm d) eqn:E.
    + split; [done|]. intros H. exfalso. apply (H (x, d)); [set_solver|].
      by apply is_target_iff.
    + destruct (remove_spec nm flag sb) as [sb'|]; simpl.
      * split; [done|]. intros H. destruct IHsb as [_ IH].
        discriminate IH. intros e He. apply H. set_solver.
      * split; [|done]. intros _ e [->|He]%elem_of_cons.
        -- simpl. rewrite <- is_target_iff. by rewrite E.
        -- destruct IHsb as [IH _]. by apply IH.
Qed.

(** C2, as the code has it.  Removing relations ([section_flag] 0) from a
    live section with a well-formed child list always returns, with
    [PROF_NO_RELATION] and the heap untouched exactly when no child is a
    relation of that name, and with 0 otherwise; children of that name
    that are subsections do not count. *)
Theorem remove_relation_not_found (h : heap) sec sn cs fuel nm :
  h !! sec = Some sn ->
  repr h (Some sec) (succ_level (group_level sn)) None (first_child sn) cs ->
  NoDup (sec :: locs cs) -> (weight cs <= fuel)%nat ->
  exists rv (h' : heap),
    profile_remove_node fuel h sec nm 0 = Done (rv, h') /\
    (rv = PROF_NO_RELATION <->
     forall e, e ∈ children h sec ->
               ~ (item_name e.2 = nm /\ item_value e.2 <> None)) /\
    (rv = PROF_NO_RELATION -> h' = h) /\
    (rv <> PROF_NO_RELATION -> rv = 0).
Proof.
  intros Hs Hr Hnd Hf.
  pose proof (profile_remove_node_kids h sec sn cs fuel nm 0 Hs Hr Hnd Hf)
    as H.
  assert (Hch : children h sec = sibs cs).
  { eapply repr_children; [done|done|]. by apply NoDup_cons in Hnd as [_ ?]. }
  rewrite Hch. pose proof (remove_spec_None nm 0 cs) as Hspec.
  destruct (remove_spec nm 0 cs) as [cs'|].
  - destruct H as (h' & q & E & _). exists 0, h'. split; [done|].
    split; [|done]. split; [discriminate|].
    intros Hno. destruct Hspec as [_ Hspec]. by discriminate Hspec.
  - exists PROF_NO_RELATION, h. split; [done|]. split; [|done].
    split; [|done]. intros _. by apply Hspec.
Qed.

(** A section whose only child is a subsection called n. *)
Definition only_subsection : heap :=
  <[1%positive := mk_node PROF_MAGIC_NODE "top"%string None 0 false
                          (Some 2%positive) None None None]>
  (<[2%positive := mk_node PROF_MAGIC_NODE "n"%string None 1 false None
                           (Some 1%positive) None None]> ∅).

(** C2, counterexample.  A direct child has the name, yet removal reports
    [PROF_NO_RELATION]: the existence test looks for relations only. *)
Lemma not_found_despite_named_child :
  children only_subsection 1%positive
  = [(2%positive, mk_item "n"%string None false)] /\
  profile_remove_node 5 only_subsection 1%positive "n"%string 0
  = Done (PROF_NO_RELATION, only_subsection).
Proof. split; vm_compute; reflexivity. Qed.

Lemma remove_relation_not_found_witness :
  exists rv (h' : heap),
    profile_remove_node 5 only_subsection 1%positive "n"%string 0
    = Done (rv, h') /\
    (rv = PROF_NO_RELATION <->
     forall e, e ∈ children only_subsection 1%positive ->
               ~ (item_name e.2 = "n"%string /\ item_value e.2 <> None)) /\
    (rv = PROF_NO_RELATION -> h' = only_subsection) /\
    (rv <> PROF_NO_RELATION -> rv = 0).
Proof.
  apply (remove_relation_not_found only_subsection 1%positive
           (mk_node PROF_MAGIC_NODE "top"%string None 0 false
                    (Some 2%positive) None None None)
           (Nd 2%positive (mk_item "n"%string None false) Leaf Leaf)).
  - reflexivity.
  - simpl. split; [reflexivity|]. eexists. split; [reflexivity|].
    unfold node_ok. simpl. repeat split; reflexivity.
  - apply NoDup_cons. split; [|apply NoDup_singleton].
    simpl. intros Hin. apply list_elem_of_singleton in Hin. discriminate.
  - simpl. lia.
Defined.

Definition add_valued (h : heap) (nm v : string) : heap :=
  match profile_add_node bump_alloc (fun _ => true) 8 h 1%positive nm
                         (Some v)
  with
  | Done (_, h', _) => h'
  | _ => h
  end.

(** C3, the failing input.  A subsection n was inserted before a relation
    n = v.  Removing the subsections called n returns 0 and removes
    nothing: the deletion loop starts at the first relation called n, so
    a subsection in front of it is never reached.  With the subsection
    alone, the call returns [PROF_NO_RELATION]. *)
Lemma remove_subsection_misses :
  let h := add_valued (add_named empty_section "n"%string)
                      "n"%string "v"%string in
  children h 1%positive
  = [(2%positive, mk_item "n"%string None false);
     (3%positive, mk_item "n"%string (Some "v"%string) false)] /\
  profile_remove_node 5 h 1%positive "n"%string 1 = Done (0, h) /\
  profile_remove_node 5 (add_named empty_section "n"%string) 1%positive
                      "n"%string 1
  = Done (PROF_NO_RELATION, add_named empty_section "n"%string).
Proof. repeat split; vm_compute; reflexivity. Qed.

(** * The single-section scanners (C6) *)

Definition item_matches (nm : option string) (d : item) : bool :=
  match nm with
  | None => true
  | Some s => strcmp (item_name d) s =? 0
  end.

Definition relation_item (nm : option string) (e : positive * item) : bool :=
  item_matches nm e.2 && item_has_value e.2.

Definition subsection_item (nm : option string) (e : positive * item)
  : bool :=
  item_matches nm e.2 && negb (item_has_value e.2).

(** The caller's loop: [k] successive calls, each given the cursor the
    previous one stored. *)
Fixpoint calls {A : Type} (call : ptr -> result (Z * ptr * A)) (k : nat)
    (state : ptr) : list (result (Z * ptr * A)) :=
  match k with
  | O => []
  | S k' =>
    match call state with
    | Done (rv, state', out) => Done (rv, state', out) :: calls call k' state'
    | r => [r]
    end
  end.

(** What the calls return over the qualifying children [ms]: each one its
    entry, with the next qualifying child as the cursor. *)
Fixpoint expected {A : Type} (payload : positive * item -> A)
    (ms : list (positive * item)) : list (result (Z * ptr * option A)) :=
  match ms with
  | [] => []
  | e :: rest =>
    Done (0, fst <$> head rest, Some (payload e)) :: expected payload rest
  end.

Section ScanSequence.

Context {A : Type}.
Variable h : heap.
Variable fuel : nat.
Variable scan : ptr -> result (Z * ptr * option A).
Variable call : ptr -> result (Z * ptr * option A).
Variable payload : positive * item -> A.
Variable P : positive * item -> bool.
Variable notfound : Z.
Variable par : ptr.
Variable lvl : Z.

Hypothesis scan_spec : forall s prv p,
  repr h par lvl prv p s -> (weight s <= fuel)%nat ->
  scan p = Done (match List.filter P (sibs s) with
                 | [] => (notfound, None, None)
                 | e :: rest => (0, fst <$> head rest, Some (payload e))
                 end).

Hypothesis call_cursor : forall a n,
  h !! a = Some n -> magic n = PROF_MAGIC_NODE -> call (Some a) = scan (Some a).

Lemma filter_head_true (l : list (positive * item)) e rest :
  List.filter P l = e :: rest -> P e = true.
Proof.
  intros E. assert (Hin : In e (List.filter P l)) by (rewrite E; by left).
  by apply List.filter_In in Hin as [_ ?].
Qed.

(** Calls from a cursor that sits on a qualifying child go through the
    remaining qualifying children and leave a null cursor. *)
Lemma calls_run ms : forall s prv a d k,
  repr h par lvl prv (Some a) s -> (weight s <= fuel)%nat ->
  List.filter P (sibs s) = (a, d) :: ms ->
  calls call (S (length ms) + k) (Some a)
  = expected payload ((a, d) :: ms) ++ calls call k None.
Proof.
  induction ms as [|[a1 d1] ms IH]; intros s prv a d k Hr Hf E.
  - pose proof (repr_head _ _ _ _ _ _ Hr) as Ha.
    destruct (repr_lookup h s _ _ _ _ a Hr Ha) as (n & Hn & Hm).
    cbn [length Nat.add calls expected app].
    rewrite (call_cursor a n Hn Hm), (scan_spec s prv _ Hr Hf), E.
    reflexivity.
  - pose proof (repr_head _ _ _ _ _ _ Hr) as Ha.
    destruct (repr_lookup h s _ _ _ _ a Hr Ha) as (n & Hn & Hm).
    cbn [length Nat.add calls expected app].
    rewrite (call_cursor a n Hn Hm), (scan_spec s prv _ Hr Hf), E.
    cbn [head fmap option_fmap option_map fst]. f_equal.
    destruct (repr_filter_head s h par lvl prv (Some a) P a d
                ((a1, d1) :: ms) Hr E)
      as (m1 & k1 & t1 & Hm1 & Hk1 & Hdd1 & Hcc1 & Ht1 & F1 & W1 & _).
    destruct (repr_filter_head t1 h par lvl (Some a) (next m1) P a1 d1
                ms Ht1 F1)
      as (m2 & k2 & t2 & Hm2 & Hk2 & Hdd2 & Hcc2 & Ht2 & F2 & W2 & _).
    apply (IH (Nd a1 d1 k2 t2) (prev m2) a1 d1 k).
    + simpl. split; [done|]. by exists m2.
    + simpl. lia.
    + simpl. by rewrite (filter_head_true _ _ _ F1), F2.
Qed.

(** From the null cursor the calls walk through all qualifying children
    and end with a null cursor; one more call starts over. *)
Lemma calls_from_start s p e ms :
  repr h par lvl None p s -> (weight s <= fuel)%nat ->
  call None = scan p ->
  List.filter P (sibs s) = e :: ms ->
  calls call (S (S (length ms))) None
  = expected payload (e :: ms)
    ++ [Done (0, fst <$> head ms, Some (payload e))].
Proof.
  intros Hr Hf Hcall E.
  assert (Hfirst : call None
                   = Done (0, fst <$> head ms, Some (payload e))).
  { by rewrite Hcall, (scan_spec s None p Hr Hf), E. }
  destruct ms as [|[a' d'] ms].
  - simpl. rewrite Hfirst. simpl. by rewrite Hfirst.
  - change (calls call (S (S (length ((a', d') :: ms)))) None)
      with (match call None with
            | Done (rv, state', out) =>
              Done (rv, state', out)
              :: calls call (S (length ((a', d') :: ms))) state'
            | r => [r]
            end).
    rewrite Hfirst. cbn [expected app head fmap option_fmap option_map fst].
    f_equal. destruct e as [a d].
    destruct (repr_filter_head s h par lvl None p P a d ((a', d') :: ms)
                Hr E)
      as (n1 & c1 & s1 & Hn1 & Hok1 & Hd1 & Hc1 & Hs1 & E1 & Hw1 & _).
    destruct (repr_filter_head s1 h par lvl (Some a) (next n1) P a' d' ms
                Hs1 E1)
      as (n2 & c2 & s2 & Hn2 & Hok2 & Hd2 & Hc2 & Hs2 & E2 & Hw2 & _).
    pose proof (calls_run ms (Nd a' d' c2 s2) (prev n2) a' d' 1%nat) as Hrun.
    replace (S (length ms) + 1)%nat with (S (length ((a', d') :: ms))) in Hrun
      by (simpl; lia).
    rewrite Hrun.
    + f_equal. simpl. by rewrite Hfirst.
    + simpl. split; [done|]. by exists n2.
    + simpl. lia.
    + simpl. by rewrite (filter_head_true _ _ _ E1), E2.
Qed.

End ScanSequence.

Definition relation_payload (e : positive * item) : string * option string :=
  (item_name e.2, item_value e.2).

Definition subsection_payload (e : positive * item) : string * positive :=
  (item_name e.2, e.1).

Lemma name_matches_item nm n : name_matches nm n = item_matches nm (item_of n).
Proof. by destruct nm. Qed.

Lemma relation_scan_spec (h : heap) fuel nm par lvl s prv p :
  repr h par lvl prv p s -> (weight s <= fuel)%nat ->
  relation_scan fuel h nm p
  = Done (match List.filter (relation_item nm) (sibs s) with
          | [] => (PROF_NO_RELATION, None, None)
          | e :: rest => (0, fst <$> head rest, Some (relation_payload e))
          end).
Proof.
  intros Hr Hf. unfold relation_scan.
  pose proof (sibs_weight s) as Hw.
  rewrite (find_node_spec s h par lvl prv p fuel (is_relation nm)
             (fun d => item_matches nm d && item_has_value d));
    [|intros n; unfold is_relation; by rewrite name_matches_item|done|lia].
  change (fun e : positive * item => item_matches nm e.2 && item_has_value e.2)
    with (relation_item nm).
  destruct (List.filter (relation_item nm) (sibs s)) as [|[a d] rest] eqn:E;
    [done|].
  cbn [head fmap option_fmap option_map fst bind].
  destruct (repr_filter_head s h par lvl prv p _ a d rest Hr E)
    as (n & c & s2 & Hn & Hok & Hd & Hc & Hs2 & E2 & Hw2 & _).
  rewrite (load_Some _ _ _ Hn). cbn [bind].
  pose proof (sibs_weight s2) as Hw3.
  rewrite (find_node_spec s2 h par lvl (Some a) (next n) fuel (is_relation nm)
             (fun d => item_matches nm d && item_has_value d));
    [|intros n'; unfold is_relation; by rewrite name_matches_item|done|lia].
  change (fun e : positive * item => item_matches nm e.2 && item_has_value e.2)
    with (relation_item nm).
  rewrite E2. cbn [bind]. unfold relation_payload. by rewrite <- Hd.
Qed.

Lemma subsection_scan_spec (h : heap) fuel nm par lvl s prv p :
  repr h par lvl prv p s -> (weight s <= fuel)%nat ->
  subsection_scan fuel h nm p
  = Done (match List.filter (subsection_item nm) (sibs s) with
          | [] => (PROF_NO_SECTION, None, None)
          | e :: rest => (0, fst <$> head rest, Some (subsection_payload e))
          end).
Proof.
  intros Hr Hf. unfold subsection_scan.
  pose proof (sibs_weight s) as Hw.
  rewrite (find_node_spec s h par lvl prv p fuel (is_subsection nm)
             (fun d => item_matches nm d && negb (item_has_value d)));
    [|intros n; unfold is_subsection; by rewrite name_matches_item|done|lia].
  change (fun e : positive * item =>
            item_matches nm e.2 && negb (item_has_value e.2))
    with (subsection_item nm).
  destruct (List.filter (subsection_item nm) (sibs s)) as [|[a d] rest] eqn:E;
    [done|].
  cbn [head fmap option_fmap option_map fst bind].
  destruct (repr_filter_head s h par lvl prv p _ a d rest Hr E)
    as (n & c & s2 & Hn & Hok & Hd & Hc & Hs2 & E2 & Hw2 & _).
  rewrite (load_Some _ _ _ Hn). cbn [bind].
  pose proof (sibs_weight s2) as Hw3.
  rewrite (find_node_spec s2 h par lvl (Some a) (next n) fuel
             (is_subsection nm)
             (fun d => item_matches nm d && negb (item_has_value d)));
    [|intros n'; unfold is_subsection; by rewrite name_matches_item|done|lia].
  change (fun e : positive * item =>
            item_matches nm e.2 && negb (item_has_value e.2))
    with (subsection_item nm).
  rewrite E2. cbn [bind]. unfold subsection_payload. by rewrite <- Hd.
Qed.

Lemma repr_sibs_lookup s : forall (h : heap) par lvl prv p a d,
  repr h par lvl prv p s -> (a, d) ∈ sibs s ->
  exists n, h !! a = Some n /\ item_of n = d.
Proof.
  induction s as [|x dx c IHc sb IHsb]; intros h par lvl prv p a d H Hin;
    simpl in *; [by apply elem_of_nil in Hin|].
  destruct H as (-> & n & Hx & Hok & Hd & Hc & Hsb).
  apply elem_of_cons in Hin as [[= -> ->]|Hin]; [by exists n|].
  by eapply IHsb.
Qed.

(** C6, as the code has it.  For a live section with a well-formed child
    list, and for either scanner: every cursor it stores is null or points
    at a child that qualifies; with no qualifying child the call from the
    null cursor clears the cursor and returns [PROF_NO_RELATION] (resp.
    [PROF_NO_SECTION]); otherwise the calls from the null cursor return
    the qualifying children one by one in sibling order, each with the
    next qualifying child as cursor, the last one with the null cursor --
    that null cursor, not an error, is the end signal -- and one more call
    starts over with the first qualifying child. *)
Theorem scanners_resume (h : heap) sec sn cs fuel nm :
  h !! sec = Some sn -> magic sn = PROF_MAGIC_NODE ->
  repr h (Some sec) (succ_level (group_level sn)) None (first_child sn) cs ->
  NoDup (sec :: locs cs) -> (weight cs <= fuel)%nat ->
  let rels := List.filter (relation_item nm) (children h sec) in
  let subs := List.filter (subsection_item nm) (children h sec) in
  (forall a d, (a, d) ∈ rels ->
     exists n, h !! a = Some n /\ is_relation nm n = true) /\
  (rels = [] ->
   profile_find_node_relation fuel h sec nm None
   = Done (PROF_NO_RELATION, None, None)) /\
  (forall e ms, rels = e :: ms ->
     calls (profile_find_node_relation fuel h sec nm) (S (S (length ms))) None
     = expected relation_payload rels
       ++ [Done (0, fst <$> head ms, Some (relation_payload e))]) /\
  (forall a d, (a, d) ∈ subs ->
     exists n, h !! a = Some n /\ is_subsection nm n = true) /\
  (subs = [] ->
   profile_find_node_subsection fuel h sec nm None
   = Done (PROF_NO_SECTION, None, None)) /\
  (forall e ms, subs = e :: ms ->
     calls (profile_find_node_subsection fuel h sec nm) (S (S (length ms)))
           None
     = expected subsection_payload subs
       ++ [Done (0, fst <$> head ms, Some (subsection_payload e))]).
Proof.
  intros Hs Hm Hr Hnd Hf rels subs.
  assert (Hch : children h sec = sibs cs).
  { eapply repr_children; [done|done|]. by apply NoDup_cons in Hnd as [_ ?]. }
  subst rels subs. rewrite Hch.
  assert (Hrel0 : profile_find_node_relation fuel h sec nm None
                  = relation_scan fuel h nm (first_child sn)).
  { unfold profile_find_node_relation. rewrite (load_Some _ _ _ Hs).
    cbn [bind]. by rewrite (magic_test_ok _ Hm). }
  assert (Hsub0 : profile_find_node_subsection fuel h sec nm None
                  = subsection_scan fuel h nm (first_child sn)).
  { unfold profile_find_node_subsection. rewrite (load_Some _ _ _ Hs).
    cbn [bind]. by rewrite (magic_test_ok _ Hm). }
  split; [|split; [|split; [|split; [|split]]]].
  - intros a d Hin. apply list_elem_of_In, List.filter_In in Hin as [Hin HP].
    apply list_elem_of_In in Hin.
    destruct (repr_sibs_lookup cs h _ _ _ _ a d Hr Hin) as (n & Hn & Hd).
    exists n. split; [done|]. unfold is_relation.
    rewrite name_matches_item. subst d. exact HP.
  - intros E. rewrite Hrel0, (relation_scan_spec h fuel nm _ _ cs _ _ Hr Hf).
    by rewrite E.
  - intros e ms E. rewrite E.
    apply (calls_from_start h fuel (relation_scan fuel h nm)
             (profile_find_node_relation fuel h sec nm) relation_payload
             (relation_item nm) PROF_NO_RELATION (Some sec)
             (succ_level (group_level sn))) with (s := cs) (p := first_child sn);
      try done.
    + intros s prv p. apply relation_scan_spec.
    + intros a n Hn Hma. unfold profile_find_node_relation.
      rewrite (load_Some _ _ _ Hs). cbn [bind]. rewrite (magic_test_ok _ Hm).
      rewrite (load_Some _ _ _ Hn). cbn [bind].
      by rewrite (magic_test_ok _ Hma).
  - intros a d Hin. apply list_elem_of_In, List.filter_In in Hin as [Hin HP].
    apply list_elem_of_In in Hin.
    destruct (repr_sibs_lookup cs h _ _ _ _ a d Hr Hin) as (n & Hn & Hd).
    exists n. split; [done|]. unfold is_subsection.
    rewrite name_matches_item. subst d. exact HP.
  - intros E. rewrite Hsub0, (subsection_scan_spec h fuel nm _ _ cs _ _ Hr Hf).
    by rewrite E.
  - intros e ms E. rewrite E.
    apply (calls_from_start h fuel (subsection_scan fuel h nm)
             (profile_find_node_subsection fuel h sec nm) subsection_payload
             (subsection_item nm) PROF_NO_SECTION (Some sec)
             (succ_level (group_level sn))) with (s := cs) (p := first_child sn);
      try done.
    + intros s prv p. apply subsection_scan_spec.
    + intros a n Hn Hma. unfold profile_find_node_subsection.
      rewrite (load_Some _ _ _ Hs). cbn [bind]. rewrite (magic_test_ok _ Hm).
      rewrite (load_Some _ _ _ Hn). cbn [bind].
      by rewrite (magic_test_ok _ Hma).
Qed.

(** Relations x = 1, x = 2, x = 3 with subsections called x between
    them, built by insertion (locations 2 to 6). *)
Definition three_relations : heap :=
  add_valued (add_named (add_valued (add_named (add_valued empty_section
    "x"%string "1"%string) "x"%string) "x"%string "2"%string) "x"%string)
    "x"%string "3"%string.

(** C6, counterexample.  Three calls return (x,1), (x,2), (x,3), the
    third leaving the cursor null; the fourth call does not report
    [PROF_NO_RELATION]: it returns (x,1) again. *)
Lemma fourth_call_restarts :
  calls (profile_find_node_relation 9 three_relations 1%positive
                                    (Some "x"%string)) 4 None
  = [Done (0, Some 4%positive, Some ("x"%string, Some "1"%string));
     Done (0, Some 6%positive, Some ("x"%string, Some "2"%string));
     Done (0, None, Some ("x"%string, Some "3"%string));
     Done (0, Some 4%positive, Some ("x"%string, Some "1"%string))].
Proof. vm_compute. reflexivity. Qed.

(** * The merge iterator on unchanging sources *)

(** ** Flag bits *)

Lemma test_flag_set_final fl :
  test_flag (Z.lor fl PROFILE_ITER_FINAL_SEEN) PROFILE_ITER_FINAL_SEEN = true.
Proof.
  unfold test_flag. apply negb_true_iff, Z.eqb_neq.
  rewrite Z.land_lor_distr_l. intros H. apply Z.lor_eq_0_iff in H as [_ H].
  discriminate.
Qed.

Lemma test_flag_set_other fl bit :
  Z.land PROFILE_ITER_FINAL_SEEN bit = 0 ->
  test_flag (Z.lor fl PROFILE_ITER_FINAL_SEEN) bit = test_flag fl bit.
Proof.
  intros H. unfold test_flag. by rewrite Z.land_lor_distr_l, H, Z.lor_0_r.
Qed.

Lemma test_flag_clear_final fl :
  test_flag (Z.land fl (Z.lnot PROFILE_ITER_FINAL_SEEN))
            PROFILE_ITER_FINAL_SEEN = false.
Proof.
  unfold test_flag. rewrite <- Z.land_assoc.
  change (Z.land (Z.lnot PROFILE_ITER_FINAL_SEEN) PROFILE_ITER_FINAL_SEEN)
    with 0.
  by rewrite Z.land_0_r.
Qed.

Lemma test_flag_clear_other fl bit :
  Z.land (Z.lnot PROFILE_ITER_FINAL_SEEN) bit = bit ->
  test_flag (Z.land fl (Z.lnot PROFILE_ITER_FINAL_SEEN)) bit
  = test_flag fl bit.
Proof. intros H. unfold test_flag. by rewrite <- Z.land_assoc, H. Qed.

(** ** The search loop *)

(** The candidates of the search: the name filter and the two kind
    flags. *)
Definition iter_item (nm : option string) (fl : Z) (e : positive * item)
  : bool :=
  item_matches nm e.2
  && negb (test_flag fl PROFILE_ITER_SECTIONS_ONLY && item_has_value e.2)
  && negb (test_flag fl PROFILE_ITER_RELATIONS_ONLY
           && negb (item_has_value e.2)).

Lemma iter_item_kind_bits nm fl fl' e :
  test_flag fl' PROFILE_ITER_SECTIONS_ONLY
  = test_flag fl PROFILE_ITER_SECTIONS_ONLY ->
  test_flag fl' PROFILE_ITER_RELATIONS_ONLY
  = test_flag fl PROFILE_ITER_RELATIONS_ONLY ->
  iter_item nm fl' e = iter_item nm fl e.
Proof. unfold iter_item. by intros -> ->. Qed.

Lemma scan_loop_None fuel (h : heap) nm fl skip_num :
  scan_loop fuel h nm fl None skip_num = Done None.
Proof. by destruct fuel. Qed.

Lemma scan_loop_Some f (h : heap) nm fl a skip_num :
  scan_loop (S f) h nm fl (Some a) skip_num =
  let* n := load h a in
  if negb (name_matches nm n) then scan_loop f h nm fl (next n) skip_num
  else if test_flag fl PROFILE_ITER_SECTIONS_ONLY && has_value n
  then scan_loop f h nm fl (next n) skip_num
  else if test_flag fl PROFILE_ITER_RELATIONS_ONLY && negb (has_value n)
  then scan_loop f h nm fl (next n) skip_num
  else if skip_num >? 0 then scan_loop f h nm fl (next n) (skip_num - 1)
  else Done (Some a).
Proof. reflexivity. Qed.

(** The search returns the candidate number [skip_num] (counting from
    zero) of the list it walks, or null. *)
Lemma scan_loop_spec s : forall (h : heap) par lvl prv p fuel nm fl skip_num,
  repr h par lvl prv p s -> (length (sibs s) <= fuel)%nat ->
  scan_loop fuel h nm fl p skip_num
  = Done (fst <$> List.filter (iter_item nm fl) (sibs s)
                  !! Z.to_nat skip_num).
Proof.
  induction s as [|x d c IHc sb IHsb];
    intros h par lvl prv p fuel nm fl skip_num H Hf; simpl in H, Hf.
  - subst p. by rewrite scan_loop_None.
  - destruct H as (-> & n & Hx & Hok & Hd & Hc & Hsb).
    destruct fuel as [|f]; [lia|].
    rewrite scan_loop_Some, (load_Some _ _ _ Hx). cbn [bind].
    specialize (IHsb h par lvl (Some x) (next n) f nm fl).
    cbn [sibs List.filter]. unfold iter_item at 1. cbn [snd].
    rewrite name_matches_item, Hd.
    change (has_value n) with (item_has_value (item_of n)). rewrite Hd.
    destruct (item_matches nm d); cbn [negb andb]; [|apply IHsb; [done|lia]].
    destruct (test_flag fl PROFILE_ITER_SECTIONS_ONLY && item_has_value d);
      cbn [negb andb]; [apply IHsb; [done|lia]|].
    destruct (test_flag fl PROFILE_ITER_RELATIONS_ONLY
              && negb (item_has_value d));
      cbn [negb andb]; [apply IHsb; [done|lia]|].
    destruct (skip_num >? 0) eqn:Es.
    + rewrite IHsb by (done || lia).
      replace (Z.to_nat skip_num) with (S (Z.to_nat (skip_num - 1))) by lia.
      done.
    + replace (Z.to_nat skip_num) with 0%nat by lia. done.
Qed.

(** ** Path resolution *)

Definition is_section_named (nm : string) (d : item) : bool :=
  (strcmp (item_name d) nm =? 0) && negb (item_has_value d).

(** The first subsection called [nm] in a sibling list, with its
    children. *)
Fixpoint find_section (nm : string) (s : shape)
  : option (positive * item * shape) :=
  match s with
  | Leaf => None
  | Nd x d c sb =>
    if is_section_named nm d then Some (x, d, c) else find_section nm sb
  end.

(** The walk down the path: the children of the section reached (if
    every component but the last [didx] resolved), whether a final
    section was passed, and the names left. *)
Fixpoint resolve (didx : nat) (cpp : list string) (kids : shape) (fin : bool)
  : option shape * bool * list string :=
  match cpp !! didx with
  | None => (Some kids, fin, cpp)
  | Some _ =>
    match cpp with
    | [] => (None, fin, cpp)
    | nm :: cpp' =>
      match find_section nm kids with
      | None => (None, fin, cpp)
      | Some (_, d, c) => resolve didx cpp' c (fin || item_final d)
      end
    end
  end.

Lemma find_section_spec s : forall (h : heap) par lvl prv p fuel nm,
  repr h par lvl prv p s -> (length (sibs s) <= fuel)%nat ->
  match find_section nm s with
  | None =>
    find_node fuel h
      (fun n => (strcmp (name n) nm =? 0) && negb (has_value n)) p
    = Done None
  | Some (x, d, c) =>
    find_node fuel h
      (fun n => (strcmp (name n) nm =? 0) && negb (has_value n)) p
    = Done (Some x) /\
    exists n, h !! x = Some n /\ item_of n = d /\ group_level n = lvl /\
      repr h (Some x) (succ_level lvl) None (first_child n) c /\
      (weight c < weight s)%nat
  end.
Proof.
  induction s as [|x d c IHc sb IHsb]; intros h par lvl prv p fuel nm H Hf;
    simpl in H, Hf.
  - subst p. by destruct fuel.
  - destruct H as (-> & n & Hx & Hok & Hd & Hc & Hsb).
    destruct fuel as [|f]; [lia|]. cbn [find_section find_node].
    rewrite (load_Some _ _ _ Hx). cbn [bind].
    assert (E : (strcmp (name n) nm =? 0) && negb (has_value n)
                = is_section_named nm d) by by subst d.
    rewrite E. destruct (is_section_named nm d).
    + split; [done|]. exists n. destruct Hok as (? & ? & ? & ? & ?).
      repeat split; try done. simpl. lia.
    + specialize (IHsb h par lvl (Some x) (next n) f nm Hsb ltac:(lia)).
      destruct (find_section nm sb) as [[[x' d'] c']|]; [|done].
      destruct IHsb as (Ef & n' & ? & ? & ? & ? & ?). split; [done|].
      exists n'. repeat split; try done. simpl. lia.
Qed.

Definition with_final (fin : bool) (fl : Z) : Z :=
  if fin then Z.lor fl PROFILE_ITER_FINAL_SEEN else fl.

Lemma with_final_orb (fin b : bool) fl :
  (if b then Z.lor (with_final fin fl) PROFILE_ITER_FINAL_SEEN
   else with_final fin fl)
  = with_final (fin || b) fl.
Proof.
  destruct fin, b; simpl; try done.
  by rewrite <- Z.lor_assoc, Z.lor_diag.
Qed.

Lemma resolve_path_spec cpp :
  forall (h : heap) fuel didx sec sn kids fin fl,
  h !! sec = Some sn ->
  repr h (Some sec) (succ_level (group_level sn)) None (first_child sn) kids ->
  (weight kids <= fuel)%nat -> (didx <= length cpp)%nat ->
  match resolve didx cpp kids fin with
  | (None, fin', cpp') =>
    resolve_path fuel h didx cpp (Some sec) (with_final fin fl)
    = Done (None, with_final fin' fl, cpp')
  | (Some kids', fin', cpp') =>
    exists s' sn',
      resolve_path fuel h didx cpp (Some sec) (with_final fin fl)
      = Done (Some s', with_final fin' fl, cpp') /\
      h !! s' = Some sn' /\
      repr h (Some s') (succ_level (group_level sn')) None (first_child sn') kids' /\
      (weight kids' <= weight kids)%nat
  end.
Proof.
  induction cpp as [|nm cpp IH];
    intros h fuel didx sec sn kids fin fl Hs Hr Hf Hd.
  - simpl in Hd. assert (didx = 0)%nat as -> by lia. simpl.
    exists sec, sn. by repeat split.
  - cbn [resolve resolve_path].
    destruct ((nm :: cpp) !! didx) eqn:El.
    + rewrite (load_Some _ _ _ Hs). cbn [bind].
      pose proof (sibs_weight kids) as Hw.
      pose proof (find_section_spec kids h _ _ _ _ fuel nm Hr ltac:(lia))
        as Hfind.
      destruct (find_section nm kids) as [[[x d] c]|].
      * destruct Hfind as (Ef & n & Hn & Hdn & Hlvl & Hc & Hwc). rewrite Ef.
        cbn [bind]. rewrite (load_Some _ _ _ Hn). cbn [bind].
        assert (Hfin : final n = item_final d) by by rewrite <- Hdn.
        rewrite Hfin, with_final_orb.
        rewrite <- Hlvl in Hc.
        assert (Hd' : (didx <= length cpp)%nat).
        { apply lookup_lt_Some in El. simpl in El. lia. }
        specialize (IH h fuel didx x n c (fin || item_final d) fl Hn Hc
                      ltac:(lia) Hd').
        destruct (resolve didx cpp c (fin || item_final d))
          as [[[k'|] fin'] cpp']; [|done].
        destruct IH as (s' & sn' & ? & ? & ? & ?). exists s', sn'.
        repeat split; try done. lia.
      * by rewrite Hfind.
    + apply lookup_ge_None in El.
      assert (E : (length (nm :: cpp) <? didx)%nat = false)
        by (apply Nat.ltb_ge; lia).
      rewrite E. exists sec, sn. by repeat split.
Qed.

(** ** What a full traversal yields *)

(** The entries a traversal yields over the sources [srcs] (the children
    of each file's root), in the words of the specification: the sources
    in list order; in each source the candidates among the children of
    the section the path leads to, in sibling order; when that section has
    no (more) candidates the traversal moves on to the next source; a
    final section matched on the way suppresses all sources behind. *)
Fixpoint spec_merge (didx : nat) (nms : list string) (fl : Z)
    (srcs : list shape) : list (positive * item) :=
  match srcs with
  | [] => []
  | c :: rest =>
    match resolve didx nms c false with
    | (None, fin, _) => if fin then [] else spec_merge didx nms fl rest
    | (Some kids, fin, cpp) =>
      List.filter (iter_item (head cpp) fl) (sibs kids)
      ++ (if fin then [] else spec_merge didx nms fl rest)
    end
  end.

(** A traversal ends with the sentinel, or never returns. *)
Inductive ending : Type := Ends | Hangs.

(** What the calls of [profile_node_iterator] yield over the same
    sources, as the C code computes it.  The difference to [spec_merge]
    is the source in which the path leads to a section that has no
    children at all, no final section passed: [iter->node] is set to the
    null [first_child], the file is not advanced, and the
    [while (iter->node == 0)] loop starts over on the same file. *)
Fixpoint code_merge (didx : nat) (nms : list string) (fl : Z)
    (srcs : list shape) : list (positive * item) * ending :=
  match srcs with
  | [] => ([], Ends)
  | c :: rest =>
    match resolve didx nms c false with
    | (None, fin, _) =>
      if fin then ([], Ends) else code_merge didx nms fl rest
    | (Some Leaf, fin, _) => if fin then ([], Ends) else ([], Hangs)
    | (Some kids, fin, cpp) =>
      let tail := if fin then ([], Ends) else code_merge didx nms fl rest in
      (List.filter (iter_item (head cpp) fl) (sibs kids) ++ tail.1, tail.2)
    end
  end.

(** What the code yields is an initial part of what the specification
    lists, and all of it when the traversal ends. *)
Lemma code_merge_spec didx nms fl srcs :
  (code_merge didx nms fl srcs).1 `prefix_of` spec_merge didx nms fl srcs /\
  ((code_merge didx nms fl srcs).2 = Ends ->
   (code_merge didx nms fl srcs).1 = spec_merge didx nms fl srcs).
Proof.
  induction srcs as [|c rest [IH1 IH2]]; cbn [code_merge spec_merge];
    [done|].
  destruct (resolve didx nms c false) as [[[kids|] fin] cpp].
  - destruct kids as [|x d ck sb].
    + destruct fin; cbn [sibs List.filter app fst snd];
        [done|]. split; [apply prefix_nil|done].
    + destruct fin; cbn [fst snd].
      * done.
      * split; [by apply prefix_app|]. intros He. by rewrite IH2.
  - by destruct fin.
Qed.

(** A childless section that blocks the traversal is the only
    difference. *)
Lemma code_merge_hangs didx nms fl srcs :
  (code_merge didx nms fl srcs).2 = Hangs ->
  exists c cpp, c ∈ srcs /\ resolve didx nms c false = (Some Leaf, false, cpp).
Proof.
  induction srcs as [|c rest IH]; cbn [code_merge]; [done|].
  destruct (resolve didx nms c false) as [[[kids|] fin] cpp] eqn:E.
  - destruct kids as [|x d ck sb].
    + destruct fin; [done|]. intros _. exists c, cpp. split; [set_solver|done].
    + destruct fin; cbn [snd]; [done|]. intros H.
      destruct (IH H) as (c' & cpp' & ? & ?). exists c', cpp'.
      split; [set_solver|done].
  - destruct fin; [done|]. intros H.
    destruct (IH H) as (c' & cpp' & ? & ?). exists c', cpp'.
    split; [set_solver|done].
Qed.

Definition source_ok (h : heap) (f : prf_file) (c : shape) : Prop :=
  exists r n, root f = Some r /\ h !! r = Some n /\
    repr h (Some r) (succ_level (group_level n)) None (first_child n) c.

Lemma repr_head_sibs (h : heap) par lvl prv p s :
  repr h par lvl prv p s -> p = fst <$> head (sibs s).
Proof. destruct s; simpl; [done|]. by intros (-> & _). Qed.

(** The node of the candidate number [k], and the list behind it. *)
Lemma repr_filter_nth s : forall (h : heap) par lvl prv p P k x d,
  repr h par lvl prv p s ->
  List.filter P (sibs s) !! k = Some (x, d) ->
  exists n s2,
    h !! x = Some n /\ item_of n = d /\
    repr h par lvl (Some x) (next n) s2 /\
    List.filter P (sibs s2) = drop (S k) (List.filter P (sibs s)) /\
    (weight s2 < weight s)%nat.
Proof.
  induction s as [|y dy c IHc sb IHsb]; intros h par lvl prv p P k x d H E;
    simpl in H, E; [done|].
  destruct H as (-> & n & Hy & Hok & Hd & Hc & Hsb).
  cbn [sibs List.filter]. destruct (P (y, dy)) eqn:EP.
  - destruct k as [|k].
    + injection E as -> ->. exists n, sb. repeat split; try done.
      simpl. lia.
    + destruct (IHsb h par lvl (Some y) (next n) P k x d Hsb E)
        as (n' & s2 & ? & ? & ? & ? & ?).
      exists n', s2. repeat split; try done. simpl. lia.
  - destruct (IHsb h par lvl (Some y) (next n) P k x d Hsb E)
      as (n' & s2 & ? & ? & ? & ? & ?).
    exists n', s2. repeat split; try done. simpl. lia.
Qed.

Section StaticSources.

Variable profile_update_file : world -> option nat -> Z * world.

(** No file changes during the traversal. *)
Hypothesis update_noop : forall w fp, profile_update_file w fp = (0, w).

Variable w : world.
Variable srcs : list shape.
Hypothesis sources : Forall2 (source_ok (nodes w)) (files w) srcs.

Variable inner : nat.
Hypothesis inner_ok : Forall (fun c => (weight c <= inner)%nat) srcs.

Variable didx : nat.
Variable nms : list string.
Variable fl0 : Z.
Hypothesis didx_ok : (didx <= length nms)%nat.

Local Notation pass := (get_new_file_pass profile_update_file).
Local Notation gnf := (get_new_file profile_update_file).
Local Notation advance := (profile_node_iterator profile_update_file).

(** The file pointer for index [i]: null behind the last file. *)
Definition file_ptr (i : nat) : option nat :=
  match files w !! i with Some _ => Some i | None => None end.

(** What stays the same in the iterator during a traversal. *)
Definition iter_fixed (it : profile_iterator) : Prop :=
  iter_magic it = PROF_MAGIC_ITERATOR /\ names it = nms /\
  done_idx it = didx /\
  test_flag (flags it) PROFILE_ITER_SECTIONS_ONLY
  = test_flag fl0 PROFILE_ITER_SECTIONS_ONLY /\
  test_flag (flags it) PROFILE_ITER_RELATIONS_ONLY
  = test_flag fl0 PROFILE_ITER_RELATIONS_ONLY.

Definition final_seen (it : profile_iterator) : bool :=
  test_flag (flags it) PROFILE_ITER_FINAL_SEEN.

Lemma pass_end it skip_num :
  iter_magic it = PROF_MAGIC_ITERATOR -> node it = None ->
  file it = None \/ final_seen it = true ->
  pass inner w it skip_num
  = Done (Return (mk_result 0 None (Some (None, None, None)) w)).
Proof.
  intros Hm Hn Hex. unfold get_new_file_pass. rewrite Hn.
  assert (E : bool_decide (file it = None)
              || test_flag (flags it) PROFILE_ITER_FINAL_SEEN = true).
  { unfold final_seen in Hex. destruct Hex as [->| ->]; [done|].
    apply orb_true_r. }
  rewrite E. by rewrite (free_live _ Hm).
Qed.

Lemma file_next_ptr i f :
  files w !! i = Some f -> file_next w (Some i) = Done (file_ptr (S i)).
Proof. intros Hf. unfold file_next, file_ptr. by rewrite Hf. Qed.

Lemma pass_resolve it skip_num i f c :
  iter_fixed it -> node it = None -> file it = Some i ->
  final_seen it = false ->
  files w !! i = Some f -> srcs !! i = Some c ->
  let it1 := set_file_serial (upd_serial f) it in
  match resolve didx nms c false with
  | (None, fin, _) =>
    pass inner w it skip_num
    = Done (Again w (set_file (file_ptr (S i))
                              (set_flags (with_final fin (flags it)) it1)) 0)
  | (Some kids, fin, cpp) =>
    pass inner w it skip_num
    = Done (Again w (set_node (fst <$> head (sibs kids))
                       (set_iter_name (head cpp)
                          (set_flags (with_final fin (flags it)) it1)))
                  skip_num) /\
    exists par lvl,
      repr (nodes w) par lvl None (fst <$> head (sibs kids)) kids /\
      (weight kids <= inner)%nat
  end.
Proof.
  intros (Hm & Hnms & Hdidx & _) Hn Hfile Hfin Hf Hc it1.
  pose proof (Forall2_lookup_lr _ _ _ _ _ _ sources Hf Hc)
    as (r & n & Hroot & Hr & Hrepr).
  pose proof (proj1 (Forall_lookup _ _) inner_ok _ _ Hc) as Hw. simpl in Hw.
  pose proof (resolve_path_spec nms (nodes w) inner didx r n c false
                (flags it) Hr Hrepr Hw didx_ok) as Hres.
  unfold get_new_file_pass. rewrite Hn.
  assert (E : bool_decide (file it = None)
              || test_flag (flags it) PROFILE_ITER_FINAL_SEEN = false).
  { rewrite Hfile. apply orb_false_iff. split; [|exact Hfin].
    by apply bool_decide_eq_false_2. }
  rewrite E, update_noop. change (negb (0 =? 0)) with false. cbv iota.
  unfold load_file. rewrite Hfile, Hf. cbn [bind]. rewrite Hroot.
  change (done_idx (set_file_serial (upd_serial f) it)) with (done_idx it).
  change (names (set_file_serial (upd_serial f) it)) with (names it).
  change (flags (set_file_serial (upd_serial f) it)) with (flags it).
  rewrite Hdidx, Hnms.
  change (with_final false (flags it)) with (flags it) in Hres.
  destruct (resolve didx nms c false) as [[[kids|] fin] cpp].
  - destruct Hres as (s' & sn' & Eres & Hs' & Hr' & Hw').
    rewrite Eres. cbn [bind]. rewrite (load_Some _ _ _ Hs'). cbn [bind].
    rewrite (repr_head_sibs _ _ _ _ _ _ Hr'). split; [done|].
    exists (Some s'), (succ_level (group_level sn')).
    rewrite <- (repr_head_sibs _ _ _ _ _ _ Hr'). split; [done|lia].
  - rewrite Hres. cbn [bind].
    change (file (set_flags (with_final fin (flags it))
                            (set_file_serial (upd_serial f) it)))
      with (file it).
    rewrite Hfile, (file_next_ptr _ _ Hf). done.
Qed.

Lemma pass_scan it skip_num i f a par lvl prv s :
  node it = Some a -> file it = Some i -> files w !! i = Some f ->
  repr (nodes w) par lvl prv (Some a) s -> (weight s <= inner)%nat ->
  let cands := List.filter (iter_item (iter_name it) (flags it)) (sibs s) in
  let it1 := set_num (num it + 1) it in
  match cands !! Z.to_nat skip_num with
  | None =>
    pass inner w it skip_num
    = Done (Again w (set_node None (set_file (file_ptr (S i)) it1)) 0)
  | Some (x, d) =>
    exists s2,
      repr (nodes w) par lvl (Some x) (fst <$> head (sibs s2)) s2 /\
      (weight s2 <= inner)%nat /\
      List.filter (iter_item (iter_name it) (flags it)) (sibs s2)
      = drop (S (Z.to_nat skip_num)) cands /\
      pass inner w it skip_num
      = Done (Return (mk_result 0
                (Some (match head (sibs s2) with
                       | Some _ => set_node (fst <$> head (sibs s2)) it1
                       | None => set_file (file_ptr (S i))
                                          (set_node None it1)
                       end))
                (Some (Some x, Some (item_name d), item_value d)) w))
  end.
Proof.
  intros Hn Hfile Hf Hr Hw cands it1.
  pose proof (sibs_weight s) as Hsw.
  pose proof (scan_loop_spec s (nodes w) par lvl prv (Some a) inner
                (iter_name it) (flags it) skip_num Hr ltac:(lia)) as Hscan.
  fold cands in Hscan.
  unfold get_new_file_pass. rewrite Hn, Hscan. cbn [bind].
  destruct (cands !! Z.to_nat skip_num) as [[x d]|] eqn:Ec;
    cbn [fmap option_fmap option_map fst].
  - destruct (repr_filter_nth s (nodes w) par lvl prv (Some a) _ _ x d Hr Ec)
      as (n & s2 & Hx & Hd & Hr2 & E2 & Hw2).
    exists s2. rewrite <- (repr_head_sibs _ _ _ _ _ _ Hr2).
    split; [done|]. split; [lia|]. split; [done|].
    rewrite (load_Some _ _ _ Hx). cbn [bind].
    rewrite (repr_head_sibs _ _ _ _ _ _ Hr2).
    assert (name n = item_name d) as -> by by rewrite <- Hd.
    assert (value n = item_value d) as -> by by rewrite <- Hd.
    destruct (head (sibs s2)) as [e|]; cbn [fmap option_fmap option_map].
    + done.
    + change (file (set_node None (set_num (num it + 1) it))) with (file it).
      rewrite Hfile, (file_next_ptr _ _ Hf). done.
  - change (file (set_num (num it + 1) it)) with (file it).
    rewrite Hfile, (file_next_ptr _ _ Hf). done.
Qed.

(** ** The state between two calls *)

(** What is still to come once the current file is done. *)
Definition tail_of (it : profile_iterator) (i : nat)
  : list (positive * item) * ending :=
  if final_seen it then ([], Ends) else code_merge didx nms fl0 (drop i srcs).

(** At the head of the loop, about to look at file [i]. *)
Definition at_head (it : profile_iterator)
    (out : list (positive * item) * ending) : Prop :=
  iter_fixed it /\ node it = None /\
  exists i, file it = file_ptr i /\ out = tail_of it i.

(** Inside the child list of the section found in file [i]. *)
Definition at_node (it : profile_iterator)
    (out : list (positive * item) * ending) : Prop :=
  iter_fixed it /\
  exists a i f par lvl prv s,
    node it = Some a /\ file it = Some i /\ files w !! i = Some f /\
    file_serial it = upd_serial f /\
    repr (nodes w) par lvl prv (Some a) s /\ (weight s <= inner)%nat /\
    out = (List.filter (iter_item (iter_name it) fl0) (sibs s)
           ++ (tail_of it (S i)).1, (tail_of it (S i)).2).

Definition positioned (it : profile_iterator)
    (out : list (positive * item) * ending) : Prop :=
  at_head it out \/ at_node it out.

(** What a call does when [out] is still to come. *)
Definition yields (r : result iter_result)
    (out : list (positive * item) * ending) : Prop :=
  match out with
  | (e :: l, en) =>
    exists it',
      r = Done (mk_result 0 (Some it')
                  (Some (Some e.1, Some (item_name e.2), item_value e.2)) w)
      /\ positioned it' (l, en)
  | ([], Ends) => r = Done (mk_result 0 None (Some (None, None, None)) w)
  | ([], Hangs) => r = OutOfFuel
  end.

Lemma iter_fixed_filter it nm (l : list (positive * item)) :
  iter_fixed it ->
  List.filter (iter_item nm (flags it)) l = List.filter (iter_item nm fl0) l.
Proof.
  intros (_ & _ & _ & Hs & Hr). apply List.filter_ext. intros e.
  by apply iter_item_kind_bits.
Qed.

Lemma final_seen_with_final it fin :
  final_seen it = false ->
  test_flag (with_final fin (flags it)) PROFILE_ITER_FINAL_SEEN = fin.
Proof.
  intros H. destruct fin; simpl; [apply test_flag_set_final|exact H].
Qed.

Lemma kind_bits_with_final it fin :
  iter_fixed it ->
  test_flag (with_final fin (flags it)) PROFILE_ITER_SECTIONS_ONLY
  = test_flag fl0 PROFILE_ITER_SECTIONS_ONLY /\
  test_flag (with_final fin (flags it)) PROFILE_ITER_RELATIONS_ONLY
  = test_flag fl0 PROFILE_ITER_RELATIONS_ONLY.
Proof.
  intros (_ & _ & _ & Hs & Hr). destruct fin; simpl; [|done].
  by rewrite !test_flag_set_other.
Qed.

(** A pass that leads back to the very same state never ends. *)
Lemma gnf_spins it skip_num :
  pass inner w it skip_num = Done (Again w it skip_num) ->
  forall fuel, gnf fuel inner w it skip_num = OutOfFuel.
Proof.
  intros Hp fuel. induction fuel as [|f IH]; [done|].
  simpl. rewrite Hp. cbn [bind]. exact IH.
Qed.

Lemma sources_lookup i :
  match srcs !! i with
  | Some c => exists f, files w !! i = Some f /\ drop i srcs = c :: drop (S i) srcs
  | None => files w !! i = None /\ drop i srcs = []
  end.
Proof.
  pose proof (Forall2_length _ _ _ sources) as Hlen.
  destruct (srcs !! i) as [c|] eqn:E.
  - destruct (lookup_lt_is_Some_2 (files w) i) as (f & Hf).
    { apply lookup_lt_Some in E. lia. }
    exists f. split; [done|]. by apply drop_S.
  - apply lookup_ge_None in E. split.
    + apply lookup_ge_None. lia.
    + by apply drop_ge.
Qed.

Lemma pair_eta {A B} (x : A * B) : (x.1, x.2) = x.
Proof. by destruct x. Qed.

(** A call that starts inside a child list. *)
Lemma gnf_node it a i f par lvl prv s fuel :
  iter_fixed it -> node it = Some a -> file it = Some i ->
  files w !! i = Some f -> file_serial it = upd_serial f ->
  repr (nodes w) par lvl prv (Some a) s -> (weight s <= inner)%nat ->
  (forall it' fuel',
      iter_fixed it' -> node it' = None -> file it' = file_ptr (S i) ->
      final_seen it' = final_seen it -> (fuel <= fuel' + 1)%nat ->
      yields (gnf fuel' inner w it' 0) (tail_of it' (S i))) ->
  (1 <= fuel)%nat ->
  yields (gnf fuel inner w it 0)
         (List.filter (iter_item (iter_name it) fl0) (sibs s)
          ++ (tail_of it (S i)).1, (tail_of it (S i)).2).
Proof.
  intros Hfix Hn Hfile Hf Hser Hr Hw Hcont Hfuel.
  destruct fuel as [|fuel]; [lia|]. rewrite get_new_file_S.
  pose proof (pass_scan it 0 i f a par lvl prv s Hn Hfile Hf Hr Hw) as Hp.
  cbv zeta in Hp. rewrite (iter_fixed_filter it _ _ Hfix) in Hp.
  change (Z.to_nat 0) with 0%nat in Hp.
  destruct (List.filter (iter_item (iter_name it) fl0) (sibs s))
    as [|[x d] rest] eqn:Ec.
  - simpl in Hp. rewrite Hp. cbn [bind app]. rewrite pair_eta.
    set (it' := set_node None
                  (set_file (file_ptr (S i)) (set_num (num it + 1) it))).
    assert (Ht : tail_of it (S i) = tail_of it' (S i)) by done.
    rewrite Ht. apply Hcont; try done. lia.
  - simpl in Hp. destruct Hp as (s2 & Hr2 & Hw2 & E2 & Hp).
    rewrite Hp. cbn [bind]. rewrite drop_0 in E2.
    rewrite (iter_fixed_filter it _ _ Hfix) in E2.
    eexists. split; [reflexivity|].
    destruct (head (sibs s2)) as [e|] eqn:Eh.
    + right. split; [exact Hfix|].
      exists e.1, i, f, par, lvl, (Some x), s2.
      split; [done|]. split; [done|]. split; [done|]. split; [done|].
      split; [done|]. split; [done|].
      change (iter_name (set_node (fst <$> Some e) (set_num (num it + 1) it)))
        with (iter_name it).
      rewrite E2. done.
    + left. split; [exact Hfix|]. split; [done|]. exists (S i).
      split; [done|].
      assert (rest = []) as ->.
      { rewrite <- E2. destruct s2; [done|discriminate]. }
      cbn [app]. by rewrite pair_eta.
Qed.

(** A call that starts at the head of the loop, with [k] files left. *)
Lemma gnf_head k : forall i it fuel,
  (length srcs - i <= k)%nat ->
  iter_fixed it -> node it = None -> file it = file_ptr i ->
  (2 * k + 1 <= fuel)%nat ->
  yields (gnf fuel inner w it 0) (tail_of it i).
Proof.
  induction k as [|k IH]; intros i it fuel Hk Hfix Hn Hfile Hfuel.
  - pose proof (sources_lookup i) as Hl.
    destruct (srcs !! i) as [c|] eqn:Ec.
    { apply lookup_lt_Some in Ec. lia. }
    destruct Hl as (Hf & Hd). unfold file_ptr in Hfile. rewrite Hf in Hfile.
    destruct fuel as [|fuel]; [lia|]. rewrite get_new_file_S.
    rewrite (pass_end it 0); [|apply Hfix|done|by left].
    unfold tail_of. rewrite Hd. by destruct (final_seen it).
  - pose proof (sources_lookup i) as Hl.
    destruct fuel as [|fuel]; [lia|]. rewrite get_new_file_S.
    destruct (srcs !! i) as [c|] eqn:Ec.
    2:{ destruct Hl as (Hf & Hd). unfold file_ptr in Hfile.
        rewrite Hf in Hfile.
        rewrite (pass_end it 0); [|apply Hfix|done|by left].
        unfold tail_of. rewrite Hd. by destruct (final_seen it). }
    destruct Hl as (f & Hf & Hd). unfold file_ptr in Hfile.
    rewrite Hf in Hfile. unfold tail_of.
    destruct (final_seen it) eqn:Efin.
    { rewrite (pass_end it 0); [done|apply Hfix|done|by right]. }
    rewrite Hd. cbn [code_merge].
    pose proof (pass_resolve it 0 i f c Hfix Hn Hfile Efin Hf Ec) as Hp.
    cbv zeta in Hp.
    pose proof (kind_bits_with_final it) as Hbits.
    destruct (resolve didx nms c false) as [[[kids|] fin] cpp] eqn:Er.
    + destruct Hp as (Hp & par & lvl & Hr & Hw). rewrite Hp. cbn [bind].
      set (it' := set_node (fst <$> head (sibs kids))
                    (set_iter_name (head cpp)
                       (set_flags (with_final fin (flags it))
                          (set_file_serial (upd_serial f) it)))) in *.
      assert (Hfix' : iter_fixed it').
      { destruct Hfix as (? & ? & ? & ? & ?).
        destruct (Hbits fin) as [? ?]; [by repeat split|].
        by repeat split. }
      assert (Hfin' : final_seen it' = fin)
        by by apply final_seen_with_final.
      destruct kids as [|x d c' sb].
      * (* a section without children *)
        destruct fin.
        -- destruct fuel as [|fuel]; [lia|]. rewrite get_new_file_S.
           rewrite (pass_end it' 0); [done|apply Hfix'|done|by right].
        -- apply gnf_spins.
           pose proof (pass_resolve it' 0 i f c Hfix' eq_refl Hfile Hfin'
                         Hf Ec) as Hp'.
           cbv zeta in Hp'. rewrite Er in Hp'. destruct Hp' as [Hp' _].
           etransitivity; [exact Hp'|]. reflexivity.
      * (* a section with children: search them *)
        pose proof (gnf_node it' x i f par lvl None (Nd x d c' sb) fuel
                      Hfix' eq_refl Hfile Hf eq_refl Hr Hw) as Hnode.
        unfold tail_of in Hnode. rewrite Hfin' in Hnode.
        change (iter_name it') with (head cpp) in Hnode.
        apply Hnode; [|lia].
        intros it'' fuel' Hfix'' Hn'' Hfile'' Hfin'' Hfuel'.
        apply (IH (S i) it'' fuel'); try done; lia.
    + rewrite Hp. cbn [bind].
      set (it' := set_file (file_ptr (S i))
                    (set_flags (with_final fin (flags it))
                       (set_file_serial (upd_serial f) it))) in *.
      assert (Hfix' : iter_fixed it').
      { destruct Hfix as (? & ? & ? & ? & ?).
        destruct (Hbits fin) as [? ?]; [by repeat split|].
        by repeat split. }
      assert (Hfin' : final_seen it' = fin)
        by by apply final_seen_with_final.
      pose proof (IH (S i) it' fuel) as HIH. unfold tail_of in HIH.
      rewrite Hfin' in HIH. apply HIH; try done; lia.
Qed.

(** ** A call after a reload of the current file *)

(** The file the iterator is in has a new serial number.  The call walks
    the path again in the tree as it is now, at the same place in the file
    list, and returns the candidate number [num] (counting from zero) of
    the section reached: the [num] candidates before it are skipped.  The
    counter goes up by one. *)
Lemma stale_gnf itc i f c kids fin cpp x d skip_num fuel :
  iter_fixed itc -> node itc = None -> file itc = Some i ->
  final_seen itc = false ->
  files w !! i = Some f -> srcs !! i = Some c ->
  resolve didx nms c false = (Some kids, fin, cpp) ->
  List.filter (iter_item (head cpp) fl0) (sibs kids) !! Z.to_nat skip_num
  = Some (x, d) ->
  (2 <= fuel)%nat ->
  exists it',
    gnf fuel inner w itc skip_num
    = Done (mk_result 0 (Some it')
              (Some (Some x, Some (item_name d), item_value d)) w) /\
    num it' = num itc + 1.
Proof.
  intros Hfixc Hn Hfile Hfinc Hf Hc Er Hcand Hfuel.
  destruct fuel as [|[|fu]]; [lia|lia|]. rewrite get_new_file_S.
  pose proof (pass_resolve itc skip_num i f c Hfixc Hn Hfile Hfinc Hf Hc)
    as Hp.
  cbv zeta in Hp. rewrite Er in Hp. destruct Hp as (Hp & par & lvl & Hr & Hw).
  rewrite Hp. cbn [bind]. rewrite get_new_file_S.
  set (it1 := set_node (fst <$> head (sibs kids))
                (set_iter_name (head cpp)
                   (set_flags (with_final fin (flags itc))
                      (set_file_serial (upd_serial f) itc)))) in *.
  assert (Hfix1 : iter_fixed it1).
  { destruct Hfixc as (? & ? & ? & ? & ?).
    destruct (kind_bits_with_final itc fin) as [? ?]; [by repeat split|].
    by repeat split. }
  destruct kids as [|y dy cy sby]; [discriminate Hcand|].
  pose proof (pass_scan it1 skip_num i f y par lvl None (Nd y dy cy sby)
                eq_refl Hfile Hf Hr Hw) as Hs.
  cbv zeta in Hs. rewrite (iter_fixed_filter it1 _ _ Hfix1) in Hs.
  change (iter_name it1) with (head cpp) in Hs. rewrite Hcand in Hs.
  destruct Hs as (s2 & _ & _ & _ & Hs). rewrite Hs. cbn [bind].
  eexists. split; [reflexivity|]. by destruct (head (sibs s2)).
Qed.

Lemma stale_call it i f a c kids fin cpp x d :
  iter_fixed it -> node it = Some a -> file it = Some i ->
  files w !! i = Some f -> upd_serial f <> file_serial it ->
  srcs !! i = Some c ->
  resolve didx nms c false = (Some kids, fin, cpp) ->
  List.filter (iter_item (head cpp) fl0) (sibs kids) !! Z.to_nat (num it)
  = Some (x, d) ->
  (2 <= inner)%nat ->
  exists it',
    advance inner w (Some it)
    = Done (mk_result 0 (Some it')
              (Some (Some x, Some (item_name d), item_value d)) w) /\
    num it' = num it + 1.
Proof.
  intros Hfix Hn Hfile Hf Hser Hc Er Hcand Hfuel.
  unfold profile_node_iterator.
  assert (Hm : iter_magic it = PROF_MAGIC_ITERATOR) by apply Hfix.
  rewrite Hm. change (negb (PROF_MAGIC_ITERATOR =? PROF_MAGIC_ITERATOR))
    with false. cbv iota. rewrite Hn.
  unfold load_file. rewrite Hfile, Hf. cbn [bind].
  assert (Es : negb (upd_serial f =? file_serial it) = true)
    by by apply negb_true_iff, Z.eqb_neq.
  rewrite Es.
  set (itc := set_node None
                (set_flags (Z.land (flags it)
                                   (Z.lnot PROFILE_ITER_FINAL_SEEN)) it)).
  assert (Hfixc : iter_fixed itc).
  { destruct Hfix as (? & ? & ? & Hso & Hro). unfold iter_fixed, itc.
    cbn [iter_magic names done_idx flags set_node set_flags].
    rewrite !test_flag_clear_other by reflexivity. by repeat split. }
  assert (Hfinc : final_seen itc = false) by apply test_flag_clear_final.
  apply (stale_gnf itc i f c kids fin cpp x d (num it) inner); done.
Qed.

(** One call of [profile_node_iterator] from a state of the traversal. *)
Lemma advance_positioned it out :
  positioned it out -> (2 * length srcs + 2 <= inner)%nat ->
  yields (advance inner w (Some it)) out.
Proof.
  intros Hpos Hfuel. unfold profile_node_iterator.
  assert (Hm : iter_magic it = PROF_MAGIC_ITERATOR).
  { destruct Hpos as [(Hfix & _)|(Hfix & _)]; apply Hfix. }
  rewrite Hm. change (negb (PROF_MAGIC_ITERATOR =? PROF_MAGIC_ITERATOR))
    with false. cbv iota.
  destruct Hpos as [(Hfix & Hn & i & Hfile & ->)|
                    (Hfix & a & i & f & par & lvl & prv & s & Hn & Hfile
                     & Hf & Hser & Hr & Hw & ->)].
  - rewrite Hn. apply (gnf_head (length srcs)); try done; lia.
  - rewrite Hn. unfold load_file. rewrite Hfile, Hf. cbn [bind].
    rewrite Hser, Z.eqb_refl. cbn [negb].
    apply (gnf_node it a i f par lvl prv s); try done; [|lia].
    intros it' fuel' Hfix' Hn' Hfile' Hfin' Hfuel'.
    apply (gnf_head (length srcs)); try done; lia.
Qed.

End StaticSources.

(** What the caller sees of a call: the status and the out-parameters. *)
Definition observed (r : result iter_result)
  : result (Z * option (ptr * option string * option string)) :=
  match r with
  | Done r' => Done (retval r', outs r')
  | Fault => Fault
  | OutOfFuel => OutOfFuel
  end.

Definition yield_of (e : positive * item)
  : result (Z * option (ptr * option string * option string)) :=
  Done (0, Some (Some e.1, Some (item_name e.2), item_value e.2)).

Definition end_of (en : ending)
  : result (Z * option (ptr * option string * option string)) :=
  match en with
  | Ends => Done (0, Some (None, None, None))
  | Hangs => OutOfFuel
  end.

Section Traversal.

Variable profile_update_file : world -> option nat -> Z * world.

(** [k] successive calls on the caller's handle. *)
Fixpoint traverse (k fuel : nat) (w : world) (hd : option profile_iterator)
  : list (result (Z * option (ptr * option string * option string))) :=
  match k with
  | O => []
  | S k' =>
    let r := profile_node_iterator profile_update_file fuel w hd in
    observed r ::
    match r with
    | Done r' => traverse k' fuel (world_after r') (handle r')
    | _ => []
    end
  end.

Hypothesis update_noop : forall w fp, profile_update_file w fp = (0, w).

Lemma traverse_positioned w srcs fuel didx nms fl0 l : forall it en,
  Forall2 (source_ok (nodes w)) (files w) srcs ->
  Forall (fun c => (weight c <= fuel)%nat) srcs ->
  (didx <= length nms)%nat -> (2 * length srcs + 2 <= fuel)%nat ->
  positioned w srcs fuel didx nms fl0 it (l, en) ->
  traverse (S (length l)) fuel w (Some it) = (yield_of <$> l) ++ [end_of en].
Proof.
  induction l as [|e l IH]; intros it en Hsrc Hw Hd Hfuel Hpos.
  - pose proof (advance_positioned profile_update_file update_noop w srcs
                  Hsrc fuel Hw didx nms fl0 Hd it _ Hpos Hfuel) as Hy.
    cbv beta iota delta [yields] in Hy. cbn [length traverse].
    destruct en; rewrite Hy; done.
  - pose proof (advance_positioned profile_update_file update_noop w srcs
                  Hsrc fuel Hw didx nms fl0 Hd it _ Hpos Hfuel) as Hy.
    cbv beta iota delta [yields] in Hy. destruct Hy as (it' & Hy & Hpos').
    change (traverse (S (length (e :: l))) fuel w (Some it))
      with (let r := profile_node_iterator profile_update_file fuel w
                       (Some it) in
            observed r ::
            match r with
            | Done r' => traverse (S (length l)) fuel (world_after r')
                                  (handle r')
            | _ => []
            end).
    rewrite Hy. cbv zeta. cbn [observed world_after handle retval outs].
    rewrite (IH it' en); done.
Qed.

(** Over well-formed sources that do not change during the traversal,
    the calls on a freshly created iterator return exactly the entries of
    [code_merge], then the end sentinel -- unless the path leads to a
    section without children in some source, where the call does not
    return.  Measured against the specification: what is yielded is an
    initial part of [spec_merge], so the entries come with the sources in
    list order and in sibling order within a source, and it is all of
    [spec_merge] when the traversal ends.  Nothing behind a source in
    which the path walk passed a final section influences either list. *)
Theorem traversal_of_static_sources (w : world) (srcs : list shape)
    (fuel : nat) (mem : bool) (prof : profile_rec) (nms : list string)
    (fl : Z) (it0 : profile_iterator) :
  Forall2 (source_ok (nodes w)) (files w) srcs ->
  Forall (fun c => (weight c <= fuel)%nat) srcs ->
  (2 * length srcs + 2 <= fuel)%nat ->
  first_file prof = match files w with [] => None | _ => Some 0%nat end ->
  profile_node_iterator_create mem (Some prof) (Some nms) fl
  = (0, Some it0) ->
  let out := if test_flag fl PROFILE_ITER_FINAL_SEEN then ([], Ends)
             else code_merge (done_idx it0) nms fl srcs in
  traverse (S (length out.1)) fuel w (Some it0)
  = (yield_of <$> out.1) ++ [end_of out.2] /\
  (out.1 `prefix_of` spec_merge (done_idx it0) nms fl srcs /\
   (test_flag fl PROFILE_ITER_FINAL_SEEN = false -> out.2 = Ends ->
    out.1 = spec_merge (done_idx it0) nms fl srcs)) /\
  (forall c rest rest' sec cpp,
      resolve (done_idx it0) nms c false = (sec, true, cpp) ->
      code_merge (done_idx it0) nms fl (c :: rest)
      = code_merge (done_idx it0) nms fl (c :: rest') /\
      spec_merge (done_idx it0) nms fl (c :: rest)
      = spec_merge (done_idx it0) nms fl (c :: rest')).
Proof.
  intros Hsrc Hw Hfuel Hfirst Hcreate out. split; [|split].
  - assert (Hit : iter_magic it0 = PROF_MAGIC_ITERATOR /\ names it0 = nms /\
                  flags it0 = fl /\ node it0 = None /\
                  file it0 = first_file prof /\
                  (done_idx it0 <= length nms)%nat).
    { unfold profile_node_iterator_create, alloc_iterator in Hcreate.
      destruct (negb (profile_magic prof =? PROF_MAGIC_PROFILE)); [done|].
      destruct (negb mem); [by destruct (negb _), nms|].
      destruct (negb (test_flag fl PROFILE_ITER_LIST_SECTION)).
      - destruct nms as [|nm nms']; [done|]. injection Hcreate as <-.
        simpl. repeat split; lia.
      - injection Hcreate as <-. simpl. repeat split; lia. }
    destruct Hit as (Hm & Hn & Hfl & Hnode & Hfile & Hd).
    apply (traverse_positioned w srcs fuel (done_idx it0) nms fl out.1 it0
             out.2); try done.
    rewrite pair_eta. left. split.
    { unfold iter_fixed. rewrite Hfl. by repeat split. }
    split; [done|].
    exists 0%nat. split.
    + rewrite Hfile, Hfirst. unfold file_ptr. by destruct (files w).
    + unfold tail_of, final_seen. by rewrite Hfl, drop_0.
  - subst out.
    destruct (code_merge_spec (done_idx it0) nms fl srcs) as [Hpre Heq].
    destruct (test_flag fl PROFILE_ITER_FINAL_SEEN).
    + split; [apply prefix_nil|done].
    + split; [done|]. intros _. exact Heq.
  - intros c rest rest' sec cpp Hres. cbn [code_merge spec_merge].
    rewrite Hres. by destruct sec as [[|]|].
Qed.

End Traversal.

(** ** The example of the specification *)

Definition no_update (w : world) (fp : option nat) : Z * world := (0, w).

(** Source 1 (root at 1): section a, final, holding k = 1.  Source 2
    (root at 4): section a holding k = 2. *)
Definition two_sources_heap (fin : bool) : heap :=
  <[1%positive := mk_node PROF_MAGIC_NODE "(root)"%string None 0 false
                          (Some 2%positive) None None None]>
  (<[2%positive := mk_node PROF_MAGIC_NODE "a"%string None 1 fin
                           (Some 3%positive) (Some 1%positive) None None]>
  (<[3%positive := mk_node PROF_MAGIC_NODE "k"%string (Some "1"%string) 2
                           false None (Some 2%positive) None None]>
  (<[4%positive := mk_node PROF_MAGIC_NODE "(root)"%string None 0 false
                           (Some 5%positive) None None None]>
  (<[5%positive := mk_node PROF_MAGIC_NODE "a"%string None 1 false
                           (Some 6%positive) (Some 4%positive) None None]>
  (<[6%positive := mk_node PROF_MAGIC_NODE "k"%string (Some "2"%string) 2
                           false None (Some 5%positive) None None]> ∅))))).

Definition two_sources (fin : bool) (root2 : positive) : world :=
  mk_world (two_sources_heap fin)
           [mk_file (Some 1%positive) 0; mk_file (Some root2) 0].

Definition two_sources_profile : profile_rec :=
  mk_profile PROF_MAGIC_PROFILE (Some 0%nat).

Definition path_a_k : option profile_iterator :=
  (profile_node_iterator_create true (Some two_sources_profile)
     (Some ["a"%string; "k"%string]) 0).2.

(** C1, the example: with the final flag on section a of the first
    source, the iterator for the path a, k yields 1 and then the end
    sentinel.  The second source is not touched: the result is the same
    when its root pointer dangles.  Without the flag, 2 follows 1. *)
Example final_section_hides_later_source :
  traverse no_update 2 8 (two_sources true 4%positive) path_a_k
  = [Done (0, Some (Some 3%positive, Some "k"%string, Some "1"%string));
     Done (0, Some (None, None, None))] /\
  traverse no_update 2 8 (two_sources true 99%positive) path_a_k
  = [Done (0, Some (Some 3%positive, Some "k"%string, Some "1"%string));
     Done (0, Some (None, None, None))] /\
  traverse no_update 3 8 (two_sources false 4%positive) path_a_k
  = [Done (0, Some (Some 3%positive, Some "k"%string, Some "1"%string));
     Done (0, Some (Some 6%positive, Some "k"%string, Some "2"%string));
     Done (0, Some (None, None, None))].
Proof. repeat split; vm_compute; reflexivity. Qed.

Ltac concrete_repr :=
  repeat first [ reflexivity | discriminate
               | match goal with
                 | |- _ /\ _ => split
                 | |- exists _, _ => eexists
                 | |- node_ok _ _ _ _ => unfold node_ok
                 | |- repr _ _ _ _ _ _ => progress hnf
                 | |- _ -> _ => intros _
                 end ].

Definition source1_shape : shape :=
  Nd 2%positive (mk_item "a"%string None true)
     (Nd 3%positive (mk_item "k"%string (Some "1"%string) false) Leaf Leaf)
     Leaf.

Definition source2_shape : shape :=
  Nd 5%positive (mk_item "a"%string None false)
     (Nd 6%positive (mk_item "k"%string (Some "2"%string) false) Leaf Leaf)
     Leaf.

Lemma traversal_of_static_sources_example :
  traverse no_update 2 8 (two_sources true 4%positive) path_a_k
  = [Done (0, Some (Some 3%positive, Some "k"%string, Some "1"%string));
     Done (0, Some (None, None, None))].
Proof.
  assert (Hc : profile_node_iterator_create true (Some two_sources_profile)
                 (Some ["a"%string; "k"%string]) 0
               = (0, path_a_k)) by reflexivity.
  destruct (traversal_of_static_sources no_update (fun w fp => eq_refl)
              (two_sources true 4%positive) [source1_shape; source2_shape]
              8 true two_sources_profile ["a"%string; "k"%string] 0
              (mk_iter PROF_MAGIC_ITERATOR two_sources_profile 0
                       ["a"%string; "k"%string] None (Some 0%nat) 0 1 None 0))
    as [H _].
  - apply Forall2_cons. split.
    + exists 1%positive. concrete_repr.
    + apply Forall2_cons. split; [|apply Forall2_nil_2].
      exists 4%positive. concrete_repr.
  - repeat apply Forall_cons_2; [simpl; lia..|apply Forall_nil_2].
  - simpl. lia.
  - reflexivity.
  - reflexivity.
  - exact H.
Defined.

(** ** A section without children

    The trees of two files as [profile_create_node] and
    [profile_add_node] build them.  The first file holds the section a
    and nothing below it; the second holds the section a with the
    relation k = 2. *)
Definition new_root (h : heap) : heap :=
  (profile_create_node bump_alloc (fun _ => true) h "(root)"%string None).1.2.

Definition add_under (h : heap) (sec : positive) (nm : string)
    (val : option string) : heap :=
  match profile_add_node bump_alloc (fun _ => true) 8 h sec nm val with
  | Done (_, h', _) => h'
  | _ => h
  end.

Definition blocked_heap : heap :=
  add_under (add_under (new_root (add_under (new_root ∅) 1%positive
                                            "a"%string None))
                       3%positive "a"%string None)
            4%positive "k"%string (Some "2"%string).

Definition blocked_sources : world :=
  mk_world blocked_heap [mk_file (Some 1%positive) 0;
                         mk_file (Some 3%positive) 0].

Definition blocked_shape1 : shape :=
  Nd 2%positive (mk_item "a"%string None false) Leaf Leaf.

Definition blocked_shape2 : shape :=
  Nd 4%positive (mk_item "a"%string None false)
     (Nd 5%positive (mk_item "k"%string (Some "2"%string) false) Leaf Leaf)
     Leaf.

(** The same two files, the section a of the first one holding a
    relation of another name, x = 0. *)
Definition passing_heap : heap :=
  add_under (add_under (new_root (add_under (add_under (new_root ∅)
                                    1%positive "a"%string None)
                                    2%positive "x"%string (Some "0"%string)))
                       4%positive "a"%string None)
            5%positive "k"%string (Some "2"%string).

Definition passing_sources : world :=
  mk_world passing_heap [mk_file (Some 1%positive) 0;
                         mk_file (Some 4%positive) 0].

(** C1, on sources where the code departs from it.  The first source
    holds the section a without children, not final; the second holds a
    with k = 2; both trees are well-formed.  For the path a, k the
    specification lists the 2 of the second source: the section of the
    first source has no candidates, so the traversal moves on.  The first
    call of [profile_node_iterator] does not return, whatever bound is put
    on its loops: the walk finds a, [iter->node] becomes the null
    [first_child], [iter->file] stays, and [while (iter->node == 0)]
    starts over on the same file.  The search loop behind it does move on
    when it finds no candidate ([if (!p)] advances [iter->file]): with
    x = 0 below the section a of the first source, the same calls yield 2
    and then the end sentinel. *)
Theorem childless_section_blocks_later_sources :
  profile_verify_node 8 blocked_heap 1%positive = Done 0 /\
  profile_verify_node 8 blocked_heap 3%positive = Done 0 /\
  Forall2 (source_ok (nodes blocked_sources)) (files blocked_sources)
          [blocked_shape1; blocked_shape2] /\
  spec_merge 1 ["a"%string; "k"%string] 0 [blocked_shape1; blocked_shape2]
  = [(5%positive, mk_item "k"%string (Some "2"%string) false)] /\
  (forall fuel,
     profile_node_iterator no_update fuel blocked_sources path_a_k
     = OutOfFuel) /\
  traverse no_update 2 8 passing_sources path_a_k
  = [Done (0, Some (Some 6%positive, Some "k"%string, Some "2"%string));
     Done (0, Some (None, None, None))].
Proof.
  split; [vm_compute; reflexivity|]. split; [vm_compute; reflexivity|].
  split.
  { apply Forall2_cons. split.
    - exists 1%positive. concrete_repr.
    - apply Forall2_cons. split; [|apply Forall2_nil_2].
      exists 3%positive. concrete_repr. }
  split; [vm_compute; reflexivity|].
  split; [|vm_compute; reflexivity].
  intros fuel.
  do 4 (destruct fuel as [|fuel]; [vm_compute; reflexivity|]).
  set (inner := S (S (S (S fuel)))).
  set (it0 := mk_iter PROF_MAGIC_ITERATOR two_sources_profile 0
                      ["a"%string; "k"%string] None (Some 0%nat) 0 1
                      None 0).
  set (it1 := mk_iter PROF_MAGIC_ITERATOR two_sources_profile 0
                      ["a"%string; "k"%string] (Some "k"%string)
                      (Some 0%nat) 0 1 None 0).
  assert (H1 : get_new_file_pass no_update inner blocked_sources it0 0
               = Done (Again blocked_sources it1 0)).
  { vm_compute. reflexivity. }
  assert (H2 : get_new_file_pass no_update inner blocked_sources it1 0
               = Done (Again blocked_sources it1 0)).
  { vm_compute. reflexivity. }
  change (get_new_file no_update inner inner blocked_sources it0 0
          = OutOfFuel).
  unfold inner at 1. rewrite get_new_file_S, H1. cbn [bind].
  by apply gnf_spins.
Qed.

(** * The counter [num] (C10) *)

Lemma resolve_path_kind_bits cpp : forall fuel (h : heap) didx sec fl s fl' cpp',
  resolve_path fuel h didx cpp sec fl = Done (s, fl', cpp') ->
  test_flag fl' PROFILE_ITER_SECTIONS_ONLY
  = test_flag fl PROFILE_ITER_SECTIONS_ONLY /\
  test_flag fl' PROFILE_ITER_RELATIONS_ONLY
  = test_flag fl PROFILE_ITER_RELATIONS_ONLY.
Proof.
  induction cpp as [|nm cpp IH]; intros fuel h didx sec fl s fl' cpp' H.
  - simpl in H. destruct (_ <? _)%nat; [done|]. by injection H as _ <- _.
  - cbn [resolve_path] in H. destruct ((nm :: cpp) !! didx).
    + destruct sec as [sec|]; [|done].
      bind_inv H. bind_inv H. destruct a0 as [p|].
      * bind_inv H. apply IH in H as [H1 H2]. destruct (final a0); [|done].
        by rewrite !test_flag_set_other in H1, H2.
      * by injection H as _ <- _.
    + destruct (_ <? _)%nat; [done|]. by injection H as _ <- _.
Qed.

Section Counting.

Variable profile_update_file : world -> option nat -> Z * world.

Local Notation pass := (get_new_file_pass profile_update_file).
Local Notation gnf := (get_new_file profile_update_file).
Local Notation advance := (profile_node_iterator profile_update_file).

(** A pass runs the search loop exactly when it starts with a non-null
    node. *)
Definition is_scan (it : profile_iterator) : nat :=
  match node it with Some _ => 1 | None => 0 end.

(** The number of times the search loop runs to its end during the
    passes of [get_new_file]. *)
Fixpoint scans (fuel inner : nat) (w : world) (it : profile_iterator)
    (skip_num : Z) : nat :=
  match fuel with
  | O => 0
  | S f =>
    match pass inner w it skip_num with
    | Done (Again w' it' skip') => is_scan it + scans f inner w' it' skip'
    | Done (Return _) => is_scan it
    | _ => 0
    end
  end.

(** The same for one call of [profile_node_iterator]. *)
Definition call_scans (fuel : nat) (w : world) (it : profile_iterator) : nat :=
  match node it with
  | Some _ =>
    match load_file w (file it) with
    | Done f =>
      if negb (upd_serial f =? file_serial it)
      then scans fuel fuel w
             (set_node None
                (set_flags (Z.land (flags it)
                                   (Z.lnot PROFILE_ITER_FINAL_SEEN)) it))
             (num it)
      else scans fuel fuel w it 0
    | _ => 0%nat
    end
  | None => scans fuel fuel w it 0
  end.

Variable didx : nat.
Variable nms : list string.
Variable fl0 : Z.

Lemma pass_num inner w it skip_num j :
  iter_fixed didx nms fl0 it ->
  pass inner w it skip_num = Done j ->
  match j with
  | Again _ it' _ =>
    num it' = num it + Z.of_nat (is_scan it) /\ iter_fixed didx nms fl0 it'
  | Return r =>
    forall it', handle r = Some it' ->
      num it' = num it + Z.of_nat (is_scan it) /\ iter_fixed didx nms fl0 it'
  end.
Proof.
  intros Hfix. pose proof Hfix as (Hm & Hnms & Hdidx & Hso & Hro).
  unfold get_new_file_pass, is_scan.
  destruct (node it) as [a|] eqn:En.
  - intros H. bind_inv H. destruct a0 as [b|].
    + bind_inv H. destruct (next a0) as [c|].
      * cbn [bind] in H. injection H as <-. intros it' [= <-].
        simpl. split; [lia|done].
      * bind_inv H. bind_inv E1. injection E1 as <-.
        injection H as <-. intros it' [= <-]. simpl. split; [lia|done].
    + bind_inv H. injection H as <-. simpl. split; [lia|done].
  - destruct (_ || _).
    { intros [= <-] it'. cbn [handle]. rewrite Hm. intros Hx.
      discriminate Hx. }
    destruct (profile_update_file w (file it)) as [rv w1].
    destruct (negb (rv =? 0)).
    { intros [= <-] it'. cbn [handle]. rewrite Hm. intros Hx.
      discriminate Hx. }
    intros H. bind_inv H.
    bind_inv H. destruct a0 as [[section fl] cpp].
    apply resolve_path_kind_bits in E0 as [Hs' Hr'].
    change (flags (set_file_serial (upd_serial a) it)) with (flags it)
      in Hs', Hr'.
    destruct section as [s|].
    + bind_inv H. injection H as <-. simpl. split; [lia|].
      repeat split; simpl; congruence.
    + bind_inv H. injection H as <-. simpl. split; [lia|].
      repeat split; simpl; congruence.
Qed.

Lemma gnf_num fuel inner : forall w it skip_num r it',
  iter_fixed didx nms fl0 it ->
  gnf fuel inner w it skip_num = Done r -> handle r = Some it' ->
  num it' = num it + Z.of_nat (scans fuel inner w it skip_num) /\
  iter_fixed didx nms fl0 it'.
Proof.
  induction fuel as [|f IH]; intros w it skip_num r it' Hfix H Hh; [done|].
  rewrite get_new_file_S in H. bind_inv H. cbn [scans]. rewrite E.
  pose proof (pass_num _ _ _ _ _ Hfix E) as Hj.
  destruct a as [w' it1 skip'|r'].
  - destruct Hj as [Hn Hfix1].
    destruct (IH _ _ _ _ _ Hfix1 H Hh) as [Hn' Hfix'].
    split; [lia|done].
  - injection H as <-. by apply Hj.
Qed.

Lemma advance_num fuel w it r it' :
  iter_fixed didx nms fl0 it ->
  advance fuel w (Some it) = Done r -> handle r = Some it' ->
  num it' = num it + Z.of_nat (call_scans fuel w it) /\
  iter_fixed didx nms fl0 it'.
Proof.
  intros Hfix H Hh. pose proof Hfix as (Hm & Hnms & Hdidx & Hso & Hro).
  unfold profile_node_iterator in H. rewrite Hm in H.
  change (negb (PROF_MAGIC_ITERATOR =? PROF_MAGIC_ITERATOR)) with false in H.
  cbv iota in H. unfold call_scans.
  destruct (node it) as [a|] eqn:En.
  - bind_inv H. rewrite E.
    destruct (negb (upd_serial a0 =? file_serial it)).
    + assert (Hfixc : iter_fixed didx nms fl0
                (set_node None
                   (set_flags (Z.land (flags it)
                                      (Z.lnot PROFILE_ITER_FINAL_SEEN)) it))).
      { unfold iter_fixed.
        cbn [iter_magic names done_idx flags set_node set_flags].
        rewrite !test_flag_clear_other by reflexivity. by repeat split. }
      destruct (gnf_num _ _ _ _ _ _ _ Hfixc H Hh) as [Hn Hfix'].
      split; [exact Hn|done].
    + by eapply gnf_num.
  - by eapply gnf_num.
Qed.

(** Calls on the same iterator, the files being whatever they are at
    each call ([ws]); the result is the iterator afterwards and the
    number of completed searches. *)
Fixpoint run (ws : list world) (fuel : nat) (it : profile_iterator)
  : option (profile_iterator * nat) :=
  match ws with
  | [] => Some (it, 0%nat)
  | w :: ws' =>
    match advance fuel w (Some it) with
    | Done r =>
      match handle r with
      | Some it' =>
        match run ws' fuel it' with
        | Some (it'', n) => Some (it'', (call_scans fuel w it + n)%nat)
        | None => None
        end
      | None => None
      end
    | _ => None
    end
  end.

Lemma run_num ws fuel : forall it it' n,
  iter_fixed didx nms fl0 it -> run ws fuel it = Some (it', n) ->
  num it' = num it + Z.of_nat n /\ iter_fixed didx nms fl0 it'.
Proof.
  induction ws as [|w ws IH]; intros it it' n Hfix H; cbn [run] in H.
  - injection H as <- <-. split; [lia|done].
  - destruct (advance fuel w (Some it)) as [r| |] eqn:E; try done.
    destruct (handle r) as [it1|] eqn:Eh; [|done].
    destruct (advance_num _ _ _ _ _ Hfix E Eh) as [Hn1 Hfix1].
    destruct (run ws fuel it1) as [[it2 n2]|] eqn:Er; [|done].
    injection H as <- <-.
    destruct (IH _ _ _ Hfix1 Er) as [Hn2 Hfix2]. split; [lia|done].
Qed.

End Counting.

(** C10.  After any calls on an iterator, whatever happened to the files
    in between, [num] is the number of times the search loop has run to
    its end since the iterator was created, found or not: it is never
    reset.  When the next call then meets a new serial number in the file
    it is in, it walks the path again in that file and returns the
    candidate number [num] of the section reached -- it skips as many
    candidates as searches were ever completed, not as many as entries
    were yielded from this file. *)
Theorem num_counts_scans (profile_update_file : world -> option nat -> Z * world)
    (ws : list world) (fuel : nat) (mem : bool) (prof : profile_rec)
    (nms : list string) (fl : Z) (it0 it : profile_iterator) (n : nat) :
  profile_node_iterator_create mem (Some prof) (Some nms) fl
  = (0, Some it0) ->
  run profile_update_file ws fuel it0 = Some (it, n) ->
  num it = Z.of_nat n /\
  forall w srcs i f a c kids fin cpp x d,
    (forall w' fp, profile_update_file w' fp = (0, w')) ->
    Forall2 (source_ok (nodes w)) (files w) srcs ->
    Forall (fun c => (weight c <= fuel)%nat) srcs ->
    (2 <= fuel)%nat ->
    node it = Some a -> file it = Some i -> files w !! i = Some f ->
    upd_serial f <> file_serial it ->
    srcs !! i = Some c ->
    resolve (done_idx it0) nms c false = (Some kids, fin, cpp) ->
    List.filter (iter_item (head cpp) fl) (sibs kids) !! n = Some (x, d) ->
    exists it',
      profile_node_iterator profile_update_file fuel w (Some it)
      = Done (mk_result 0 (Some it')
                (Some (Some x, Some (item_name d), item_value d)) w) /\
      num it' = Z.of_nat n + 1.
Proof.
  intros Hcreate Hrun.
  assert (Hit : iter_fixed (done_idx it0) nms fl it0 /\ num it0 = 0 /\
                (done_idx it0 <= length nms)%nat).
  { unfold profile_node_iterator_create, alloc_iterator in Hcreate.
    destruct (negb (profile_magic prof =? PROF_MAGIC_PROFILE)); [done|].
    destruct (negb mem); [by destruct (negb _), nms|].
    destruct (negb (test_flag fl PROFILE_ITER_LIST_SECTION)).
    - destruct nms as [|nm nms']; [done|]. injection Hcreate as <-.
      unfold iter_fixed. simpl. repeat split; lia.
    - injection Hcreate as <-. unfold iter_fixed. simpl. repeat split; lia. }
  destruct Hit as (Hfix0 & Hnum0 & Hd).
  destruct (run_num profile_update_file _ _ _ ws fuel it0 it n Hfix0 Hrun)
    as [Hnum Hfix].
  split; [lia|].
  intros w srcs i f a c kids fin cpp x d Hnoop Hsrc Hw Hfuel Hn Hfile Hf
         Hser Hc Er Hcand.
  assert (Hnum' : num it = Z.of_nat n) by lia.
  rewrite <- Hnum'.
  apply (stale_call profile_update_file Hnoop w srcs Hsrc fuel Hw
           (done_idx it0) nms fl Hd it i f a c kids fin cpp x d); try done.
  by rewrite Hnum', Nat2Z.id.
Qed.

(** ** Skipping after a reload: the count spans the sources (C4) *)

(** Source 1 (root at 1) holds k = 1; source 2 (root at 3) holds k = a,
    k = b, k = c. *)
Definition spanning_heap : heap :=
  <[1%positive := mk_node PROF_MAGIC_NODE "(root)"%string None 0 false
                          (Some 2%positive) None None None]>
  (<[2%positive := mk_node PROF_MAGIC_NODE "k"%string (Some "1"%string) 1
                           false None (Some 1%positive) None None]>
  (<[3%positive := mk_node PROF_MAGIC_NODE "(root)"%string None 0 false
                           (Some 4%positive) None None None]>
  (<[4%positive := mk_node PROF_MAGIC_NODE "k"%string (Some "a"%string) 1
                           false None (Some 3%positive) (Some 5%positive)
                           None]>
  (<[5%positive := mk_node PROF_MAGIC_NODE "k"%string (Some "b"%string) 1
                           false None (Some 3%positive) (Some 6%positive)
                           (Some 4%positive)]>
  (<[6%positive := mk_node PROF_MAGIC_NODE "k"%string (Some "c"%string) 1
                           false None (Some 3%positive) None
                           (Some 5%positive)]> ∅))))).

(** The two sources, the second at serial number [serial2]. *)
Definition spanning (serial2 : Z) : world :=
  mk_world spanning_heap
           [mk_file (Some 1%positive) 0; mk_file (Some 3%positive) serial2].

Definition path_k : option profile_iterator :=
  (profile_node_iterator_create true (Some two_sources_profile)
     (Some ["k"%string]) 0).2.

Definition handle_after (r : result iter_result) : option profile_iterator :=
  match r with Done r' => handle r' | _ => None end.

(** C4, the failing input.  The first call yields 1 from source 1, the
    second yields a from source 2.  Source 2 is then reloaded (same tree,
    new serial number).  One entry of source 2 has been yielded, so the
    next entry is b; the third call skips two candidates -- the count of
    source 1 is still in [num] -- and yields c. *)
Lemma stale_skip_counts_other_sources :
  let r1 := profile_node_iterator no_update 8 (spanning 0) path_k in
  let r2 := profile_node_iterator no_update 8 (spanning 0) (handle_after r1) in
  let r3 := profile_node_iterator no_update 8 (spanning 1) (handle_after r2) in
  observed r1
  = Done (0, Some (Some 2%positive, Some "k"%string, Some "1"%string)) /\
  observed r2
  = Done (0, Some (Some 4%positive, Some "k"%string, Some "a"%string)) /\
  num <$> handle_after r2 = Some 2 /\
  observed r3
  = Done (0, Some (Some 6%positive, Some "k"%string, Some "c"%string)).
Proof. repeat split; vm_compute; reflexivity. Qed.

(** One call that falls through two sources without a k and finds k = 3
    in the third: [num] goes from 0 to 3 within the call. *)
Definition sparse : world :=
  mk_world
    (<[1%positive := mk_node PROF_MAGIC_NODE "(root)"%string None 0 false
                             (Some 2%positive) None None None]>
    (<[2%positive := mk_node PROF_MAGIC_NODE "z"%string (Some "1"%string) 1
                             false None (Some 1%positive) None None]>
    (<[3%positive := mk_node PROF_MAGIC_NODE "(root)"%string None 0 false
                             (Some 4%positive) None None None]>
    (<[4%positive := mk_node PROF_MAGIC_NODE "k"%string (Some "3"%string) 1
                             false None (Some 3%positive) None None]> ∅))))
    [mk_file (Some 1%positive) 0; mk_file (Some 1%positive) 0;
     mk_file (Some 3%positive) 0].

Example one_call_three_scans :
  let r := profile_node_iterator no_update 8 sparse path_k in
  observed r
  = Done (0, Some (Some 4%positive, Some "k"%string, Some "3"%string)) /\
  num <$> handle_after r = Some 3.
Proof. split; vm_compute; reflexivity. Qed.

Definition spanning_iterator : profile_iterator :=
  mk_iter PROF_MAGIC_ITERATOR two_sources_profile 0 ["k"%string] None
          (Some 0%nat) 0 1 None 0.

(** The iterator after its first two calls on the unchanged sources. *)
Definition after_two_calls : profile_iterator :=
  Eval vm_compute in
    match run no_update [spanning 0; spanning 0] 12 spanning_iterator with
    | Some (it, _) => it
    | None => spanning_iterator
    end.

Definition source_k1 : shape :=
  Nd 2%positive (mk_item "k"%string (Some "1"%string) false) Leaf Leaf.

Definition source_kabc : shape :=
  Nd 4%positive (mk_item "k"%string (Some "a"%string) false) Leaf
     (Nd 5%positive (mk_item "k"%string (Some "b"%string) false) Leaf
         (Nd 6%positive (mk_item "k"%string (Some "c"%string) false) Leaf
             Leaf)).

Lemma num_counts_scans_witness :
  num after_two_calls = 2 /\
  exists it',
    profile_node_iterator no_update 12 (spanning 1) (Some after_two_calls)
    = Done (mk_result 0 (Some it')
              (Some (Some 6%positive, Some "k"%string, Some "c"%string))
              (spanning 1)) /\
    num it' = 2 + 1.
Proof.
  assert (Hrun : run no_update [spanning 0; spanning 0] 12 spanning_iterator
                 = Some (after_two_calls, 2%nat)) by (vm_compute; reflexivity).
  destruct (num_counts_scans no_update [spanning 0; spanning 0] 12
              true two_sources_profile ["k"%string] 0 spanning_iterator
              after_two_calls 2 eq_refl Hrun) as [H1 H2].
  split; [exact H1|].
  apply (H2 (spanning 1) [source_k1; source_kabc] 1%nat
            (mk_file (Some 3%positive) 1) 5%positive source_kabc source_kabc
            false ["k"%string] 6%positive
            (mk_item "k"%string (Some "c"%string) false)).
  - intros w' fp. reflexivity.
  - apply Forall2_cons. split.
    + exists 1%positive. concrete_repr.
    + apply Forall2_cons. split; [|apply Forall2_nil_2].
      exists 3%positive. concrete_repr.
  - repeat apply Forall_cons_2; [simpl; lia..|apply Forall_nil_2].
  - lia.
  - reflexivity.
  - reflexivity.
  - reflexivity.
  - vm_compute. discriminate.
  - reflexivity.
  - reflexivity.
  - reflexivity.
Defined.

(** * Instances of the theorems on the examples *)

Definition remove_named (h : heap) (nm : string) (flag : Z) : heap :=
  match profile_remove_node 8 h 1%positive nm flag with
  | Done (_, h') => h'
  | _ => h
  end.

Lemma verify_after_mutations_witness :
  exists bound, forall fuel, (bound <= fuel)%nat ->
    profile_verify_node fuel
      (remove_named
         (add_named (add_valued empty_section "k"%string "v"%string)
                    "s"%string)
         "k"%string 0) 1%positive
    = Done 0.
Proof.
  apply (verify_after_mutations bump_alloc (fun _ => true) bump_alloc_fresh
           empty_section _ 1%positive 2).
  - reflexivity.
  - eapply rtc_l.
    { apply (mutates_add bump_alloc (fun _ => true) 1%positive empty_section
               (add_valued empty_section "k"%string "v"%string)
               1%positive "k"%string (Some "v"%string) 8%nat 0
               (Some 2%positive)).
      - constructor.
      - vm_compute. reflexivity. }
    eapply rtc_l.
    { apply (mutates_add bump_alloc (fun _ => true) 1%positive _
               (add_named (add_valued empty_section "k"%string "v"%string)
                          "s"%string)
               1%positive "s"%string None 8%nat 0 (Some 3%positive)).
      - constructor.
      - vm_compute. reflexivity. }
    eapply rtc_l.
    { apply (mutates_remove bump_alloc (fun _ => true) 1%positive _
               (add_named (add_valued empty_section "k"%string "v"%string)
                          "s"%string)
               1%positive "zz"%string 0 8%nat PROF_NO_RELATION).
      - constructor.
      - vm_compute. reflexivity. }
    eapply rtc_l; [|apply rtc_refl].
    apply (mutates_remove bump_alloc (fun _ => true) 1%positive _ _
             1%positive "k"%string 0 8%nat 0).
    + constructor.
    + vm_compute. reflexivity.
Defined.

(** The section at location 1 after the insertion of b, a and c: its
    children are a (location 3), b (location 2) and c (location 4). *)
Definition a_b_c : heap :=
  add_named (add_named (add_named empty_section "b"%string) "a"%string)
            "c"%string.

Definition a_b_c_shape : shape :=
  Nd 3%positive (mk_item "a"%string None false) Leaf
  (Nd 2%positive (mk_item "b"%string None false) Leaf
  (Nd 4%positive (mk_item "c"%string None false) Leaf Leaf)).

Lemma add_node_position_witness :
  exists (h' : heap) l1 l2 nn,
    profile_add_node bump_alloc (fun _ => true) 16 a_b_c 1%positive
                     "b"%string None
    = Done (0, h', Some 5%positive) /\
    children a_b_c 1%positive = l1 ++ l2 /\
    children h' 1%positive
    = l1 ++ (5%positive, mk_item "b"%string None false) :: l2 /\
    Forall (fun e => strcmp (item_name e.2) "b"%string <= 0) l1 /\
    Forall (fun e => strcmp (item_name e.2) "b"%string > 0) l2 /\
    StronglySorted name_le (children h' 1%positive) /\
    h' !! 5%positive = Some nn /\
    group_level nn = succ_level 0 /\
    (INT_MIN <= 0 < INT_MAX -> group_level nn = 0 + 1) /\
    parent nn = Some 1%positive /\
    name nn = "b"%string /\ value nn = None /\ first_child nn = None.
Proof.
  apply (add_node_position bump_alloc (fun _ => true) bump_alloc_fresh
           a_b_c 1%positive
           (mk_node PROF_MAGIC_NODE "top"%string None 0 false
                    (Some 3%positive) None None None)
           a_b_c_shape 16 "b"%string None 5%positive).
  - reflexivity.
  - reflexivity.
  - reflexivity.
  - concrete_repr.
  - apply (bool_decide_unpack (NoDup _)). vm_compute. exact I.
  - simpl. lia.
  - assert (E : children a_b_c 1%positive = sibs a_b_c_shape)
      by (vm_compute; reflexivity).
    rewrite E. apply ordered_sorted.
    repeat split; repeat constructor; vm_compute; discriminate.
  - reflexivity.
  - reflexivity.
  - discriminate.
Defined.


Definition three_relations_shape : shape :=
  Nd 2%positive (mk_item "x"%string (Some "1"%string) false) Leaf
  (Nd 3%positive (mk_item "x"%string None false) Leaf
  (Nd 4%positive (mk_item "x"%string (Some "2"%string) false) Leaf
  (Nd 5%positive (mk_item "x"%string None false) Leaf
  (Nd 6%positive (mk_item "x"%string (Some "3"%string) false) Leaf Leaf)))).

Lemma scanners_resume_witness :
  calls (profile_find_node_relation 16 three_relations 1%positive
                                    (Some "x"%string)) 4 None
  = [Done (0, Some 4%positive, Some ("x"%string, Some "1"%string));
     Done (0, Some 6%positive, Some ("x"%string, Some "2"%string));
     Done (0, None, Some ("x"%string, Some "3"%string));
     Done (0, Some 4%positive, Some ("x"%string, Some "1"%string))] /\
  calls (profile_find_node_subsection 16 three_relations 1%positive
                                      (Some "x"%string)) 3 None
  = [Done (0, Some 5%positive, Some ("x"%string, 3%positive));
     Done (0, None, Some ("x"%string, 5%positive));
     Done (0, Some 5%positive, Some ("x"%string, 3%positive))].
Proof.
  destruct (scanners_resume three_relations 1%positive
              (mk_node PROF_MAGIC_NODE "top"%string None 0 false
                       (Some 2%positive) None None None)
              three_relations_shape 16 (Some "x"%string))
    as (_ & _ & Hrel & _ & _ & Hsub).
  - reflexivity.
  - reflexivity.
  - concrete_repr.
  - apply (bool_decide_unpack (NoDup _)). vm_compute. exact I.
  - simpl. lia.
  - split.
    + exact (Hrel (2%positive, mk_item "x"%string (Some "1"%string) false)
                  [(4%positive, mk_item "x"%string (Some "2"%string) false);
                   (6%positive, mk_item "x"%string (Some "3"%string) false)]
                  eq_refl).
    + exact (Hsub (3%positive, mk_item "x"%string None false)
                  [(5%positive, mk_item "x"%string None false)] eq_refl).
Defined.
